(** * empyricalRMT: the trim report (rmt/trim.py)

    A shallow embedding of [TrimReport]: the iterative outlier trimming of a
    sorted spectrum ([__get_trim_iters]), the table of unfoldings across the
    trims ([__unfold_across_trims], [__evaluate_unfolding]), the selection
    of the best and the most consistent smoothers
    ([summarize_trim_unfoldings]), the unfolding with other parameters
    ([compare_trim_unfolds]) and the lines that [plot_trim_steps] logs.
    The drawing of [plot_trim_steps] is left out.

    Conventions of the embedding.
    - Python exceptions are explicit: a computation returns [Ok v] or
      [Raise e].
    - Floating point numbers are idealised as rationals ([Q]); a table cell
      is an [option Q], where [None] stands for NaN.  The rounding of
      floats is left out, and with it the narrowing to single precision
      of the array of the report.
    - Eigenvalues are taken from any type with a decidable total order.
    - The collaborators that trim.py imports (the HBOS detector, the
      smoother) are variables of the sections below. *)

From Stdlib Require Import QArith Qabs Qround Qminmax Ascii.
From stdpp Require Import base list strings gmap sorting.

Local Open Scope Z_scope.

(** ** Exceptions *)

Inductive exn : Set :=
  | IndexError
  | ZeroDivisionError
  | KeyError
  | ValueError
  | UnboundLocalError.

Inductive pyres (A : Type) : Type :=
  | Ok (a : A)
  | Raise (e : exn).
Arguments Ok {A} a.
Arguments Raise {A} e.

Global Instance pyres_ret : MRet pyres := fun _ a => Ok a.
Global Instance pyres_bind : MBind pyres := fun _ _ f m =>
  match m with
  | Ok a => f a
  | Raise e => Raise e
  end.
Global Instance pyres_fmap : FMap pyres := fun _ _ f m =>
  match m with
  | Ok a => Ok (f a)
  | Raise e => Raise e
  end.

Definition returns {A} (m : pyres A) : Prop := exists a, m = Ok a.

(** ** Python sequences *)

Module Py.

(** [len(l)] as a Python integer. *)
Definition len {A} (l : list A) : Z := Z.of_nat (length l).

(** The position a subscript [i] denotes in a sequence of [n] items:
  negative subscripts count from the end, anything outside
  [-n .. n-1] is an [IndexError]. *)
Definition index (n : nat) (i : Z) : pyres nat :=
if bool_decide (0 <= i < Z.of_nat n) then Ok (Z.to_nat i)
else if bool_decide (- Z.of_nat n <= i < 0) then Ok (Z.to_nat (Z.of_nat n + i))
else Raise IndexError.

(** [l[i]] *)
Definition getitem {A} (l : list A) (i : Z) : pyres A :=
k ← index (length l) i;
match l !! k with
| Some x => Ok x
| None => Raise IndexError
end.

(** [l[i] = v] *)
Definition setitem {A} (l : list A) (i : Z) (v : A) : pyres (list A) :=
k ← index (length l) i;
Ok (<[k := v]> l).

(** [range(a, b)] *)
Definition range (a b : Z) : list Z :=
(fun k : nat => a + Z.of_nat k) <$> seq 0 (Z.to_nat (b - a)).

(** [for i in idx: l[i] = v] *)
Fixpoint store_all {A} (idx : list Z) (v : A) (l : list A) : pyres (list A) :=
match idx with
| [] => Ok l
| i :: idx' => l' ← setitem l i v; store_all idx' v l'
end.

(** [a / b]: true division of Python integers. *)
Definition truediv (a b : Z) : pyres Q :=
if decide (b = 0) then Raise ZeroDivisionError
else Ok (inject_Z a / inject_Z b)%Q.

End Py.

(** ** utils.find_first, utils.find_last *)

Section Find.
Context {A : Type} `{!EqDecision A}.

(** Modelled from the spec: utils.find_first is imported by trim.py and
    is not part of the sources at hand; the spec describes it as the
    exact-value search for the first occurrence.  What it returns when
    the value does not occur is not described: it is the parameter
    [absent]. *)
Definition find_first (absent : Z) (arr : list A) (value : A) : Z :=
  match list_find (fun x => x = value) arr with
  | Some (i, _) => Z.of_nat i
  | None => absent
  end.

(** Modelled from the spec: utils.find_last, the exact-value search for
    the last occurrence, with the same parameter for a value that does
    not occur. *)
Definition find_last (absent : Z) (arr : list A) (value : A) : Z :=
  match list_find (fun x => x = value) (reverse arr) with
  | Some (i, _) => Z.of_nat (length arr - 1 - i)
  | None => absent
  end.
End Find.

(** ** The edge correction of [__get_trim_iters] (trim.py, 329-338) *)

Section EdgeCorrection.
Variables first_absent last_absent : Z.

(** [if is_outlier[0]: start = find_first(is_outlier, False); ...] *)
Definition keep_left (is_outlier : list bool) : pyres (list bool) :=
  b ← Py.getitem is_outlier 0;
  if b : bool then
    let start := find_first first_absent is_outlier false in
    Py.store_all (Py.range start (Py.len is_outlier)) false is_outlier
  else Ok is_outlier.

(** [if is_outlier[-1]: stop = find_last(is_outlier, False); ...] *)
Definition keep_right (is_outlier : list bool) : pyres (list bool) :=
  b ← Py.getitem is_outlier (-1);
  if b : bool then
    let stop := find_last last_absent is_outlier false in
    Py.store_all (Py.range 0 stop) false is_outlier
  else Ok is_outlier.

(** [if not is_outlier[0] and not is_outlier[-1]: is_outlier = zeros] *)
Definition force_break (is_outlier : list bool) : pyres (list bool) :=
  b0 ← Py.getitem is_outlier 0;
  if b0 : bool then Ok is_outlier
  else
    bl ← Py.getitem is_outlier (-1);
    if bl : bool then Ok is_outlier
    else Ok (replicate (length is_outlier) false).

Definition edge_correct (is_outlier : list bool) : pyres (list bool) :=
  a1 ← keep_left is_outlier;
  a2 ← keep_right a1;
  force_break a2.
End EdgeCorrection.

(** ** Snapshots and the trim iteration ([__get_trim_iters]) *)

Inductive label : Set := inlier | outlier.

Global Instance label_eq_dec : EqDecision label.
Proof. solve_decision. Defined.

(** One row of a snapshot, a pandas frame with the columns
    "eigs", "steps", "unfolded", "sqe" and "cluster". *)
Record row (E : Type) : Type := mk_row {
  eigs : E;
  steps : Q;
  unfolded : Q;
  sqe : Q;
  cluster : label
}.
Arguments mk_row {E}.
Arguments eigs {E}.
Arguments steps {E}.
Arguments unfolded {E}.
Arguments sqe {E}.
Arguments cluster {E}.

(** A snapshot: the frame of one iteration. *)
Abbreviation snapshot E := (list (row E)) (only parsing).

(** [a > b] on floats *)
Definition Qgtb (a b : Q) : bool := negb (Qle_bool a b).

(** ["outlier" if label else "inlier"] *)
Definition label_of (flag : bool) : label := if flag then outlier else inlier.

(** [r["cluster"] == "inlier"] *)
Definition is_inlier {E} (r : row E) : bool := bool_decide (cluster r = inlier).

(** [df["cluster"]] *)
Definition labels {E} (df : snapshot E) : list label := cluster <$> df.

Section TrimIters.
Context {E : Type} (E_le : relation E) `{!RelDecision E_le}.

(** The HBOS detector: [HBOS(tol).fit(table).labels_], the label of the
    row at each position of the two-column table. *)
Variable HBOS : Q -> list (E * Q) -> nat -> bool.

(** The smoother: [Smoother(eigs).fit()], the pair (unfolded, steps) at
    each position of [eigs]. *)
Variable Smoother_fit : list E -> nat -> Q * Q.

Variables first_absent last_absent : Z.

(** Modelled from the spec: observables.step.stepFunctionVectorized is
    imported by trim.py; the spec gives it as the count of elements of
    the reference sample that are at most each query point. *)
Definition stepFunctionVectorized (reference queries : list E) : list Q :=
  (fun q => inject_Z (Py.len (filter (fun r => E_le r q) reference))) <$> queries.

(** The zeroth iteration: the full set of values, none an outlier. *)
Definition initial_snapshot (untrimmed : list E) : snapshot E :=
  let step_values := stepFunctionVectorized untrimmed untrimmed in
  imap (fun i e =>
          let u := (Smoother_fit untrimmed i).1 in
          let s := default 0%Q (step_values !! i) in
          mk_row e s u ((u - s) ^ 2)%Q inlier) untrimmed.

(** The body of the [while] loop up to the snapshot it appends: the
    inliers of the last snapshot with their corrected labels, and the
    corrected label array. *)
Definition trim_iteration (tolerance : Q) (previous : snapshot E)
    : pyres (snapshot E * list bool) :=
  let df := filter (fun r => is_inlier r = true) previous in
  let table := (fun r => (eigs r, steps r)) <$> df in
  let detected := HBOS tolerance table <$> seq 0 (length df) in
  is_outlier ← edge_correct first_absent last_absent detected;
  let fit := Smoother_fit (eigs <$> df) in
  Ok (imap (fun i r =>
              let u := (fit i).1 in
              let s := (fit i).2 in
              mk_row (eigs r) (steps r) u ((u - s) ^ 2)%Q
                     (label_of (default false (is_outlier !! i)))) df,
      is_outlier).

(** The [while] loop.  [remaining] is [max_iters - iters_run]; the
    length test is evaluated first, as Python evaluates [and]. *)
Fixpoint trim_loop (untrimmed : list E) (tolerance max_trim : Q)
    (remaining : nat) (iter_results : list (snapshot E))
    : pyres (list (snapshot E)) :=
  last_df ← Py.getitem iter_results (-1);
  ratio ← Py.truediv (Py.len last_df) (Py.len untrimmed);
  if Qgtb ratio max_trim then
    match remaining with
    | O => Ok iter_results
    | S remaining' =>
        step ← trim_iteration tolerance last_df;
        let iter_results' := iter_results ++ [step.1] in
        if forallb negb step.2 then Ok iter_results'
        else trim_loop untrimmed tolerance max_trim remaining' iter_results'
    end
  else Ok iter_results.

(** [__get_trim_iters], on [self._untrimmed].  [max_iters] is the number
    of iterations that the loop test allows, a natural number. *)
Definition get_trim_iters (untrimmed : list E) (tolerance max_trim : Q)
    (max_iters : nat) : pyres (list (snapshot E)) :=
  trim_loop untrimmed tolerance max_trim max_iters [initial_snapshot untrimmed].

(** [__get_trim_iters] with [max_iters] the integer that the caller
    passes: [iters_run] counts up from 0, so the test
    [iters_run < max_iters] of the [while] allows [max_iters] iterations,
    and none when [max_iters] is negative. *)
Definition get_trim_iters_int (untrimmed : list E) (tolerance max_trim : Q)
    (max_iters : Z) : pyres (list (snapshot E)) :=
  get_trim_iters untrimmed tolerance max_trim (Z.to_nat max_iters).
End TrimIters.

(** ** Numbers of the report: cells and numpy reductions *)

(** A float that is a number, or NaN ([None]). *)
Abbreviation cell := (option Q) (only parsing).

(** An operation on floats: NaN when an operand is NaN. *)
Definition cell_lift2 (f : Q -> Q -> Q) (a b : cell) : cell :=
  match a, b with
  | Some x, Some y => Some (f x y)
  | _, _ => None
  end.

Definition cell_add : cell -> cell -> cell := cell_lift2 Qplus.
Definition cell_sub : cell -> cell -> cell := cell_lift2 Qminus.
Definition cell_mul : cell -> cell -> cell := cell_lift2 Qmult.

(** Float division: a zero divisor gives no finite number. *)
Definition cell_div (a b : cell) : cell :=
  match a, b with
  | Some x, Some y => if Qeq_bool y 0 then None else Some (x / y)%Q
  | _, _ => None
  end.

(** [abs(a)] *)
Definition cell_abs (a : cell) : cell := Qabs <$> a.

(** Equality of cells as numbers. *)
Definition cell_eq (a b : cell) : Prop :=
  match a, b with
  | Some x, Some y => (x == y)%Q
  | None, None => True
  | _, _ => False
  end.

(** [np.sum(xs)] *)
Definition Qsum (xs : list Q) : Q := foldr Qplus 0%Q xs.

(** [len(l)] as a float *)
Definition Qlen {A} (l : list A) : Q := inject_Z (Py.len l).

(** [np.mean(xs)]: NaN on an empty array. *)
Definition np_mean (xs : list Q) : cell :=
  match xs with
  | [] => None
  | _ => Some (Qsum xs / Qlen xs)%Q
  end.

(** [np.var(xs, ddof=1)]: the squared deviations from the mean, summed
    and divided by [len(xs) - 1]; NaN when that divisor is zero or the
    array is empty. *)
Definition np_var_ddof1 (xs : list Q) : cell :=
  match xs with
  | [] => None
  | _ =>
      let arrmean := (Qsum xs / Qlen xs)%Q in
      let sq := Qsum ((fun x => (x - arrmean) ^ 2)%Q <$> xs) in
      let rcount := (length xs - 1)%nat in
      if decide (rcount = 0%nat) then None
      else Some (sq / inject_Z (Z.of_nat rcount))%Q
  end.

(** [np.rint]: the nearest integer, halves to the even one. *)
Definition rint (x : Q) : Z :=
  let f := Qfloor x in
  let r := (x - inject_Z f)%Q in
  if Qgtb r (1 # 2) then f + 1
  else if Qeq_bool r (1 # 2) then (if Z.even f then f else f + 1)
  else f.

(** [np.round(x, decimals)] *)
Definition np_round (x : Q) (decimals : nat) : Q :=
  let scale := inject_Z (10 ^ Z.of_nat decimals) in
  (inject_Z (rint (x * scale)) / scale)%Q.

(** ** Scoring an unfolding ([__evaluate_unfolding]) *)

(** Modelled from the spec: _constants.EXPECTED_GOE_MEAN is imported by
    trim.py; the spec gives the expected mean spacing as 1. *)
Definition EXPECTED_GOE_MEAN : Q := 1.

(** Modelled from the spec: _constants.EXPECTED_GOE_VARIANCE is imported
    by trim.py; the spec normalises the variance by 1. *)
Definition EXPECTED_GOE_VARIANCE : Q := 1.

(** [unfolded[1:] - unfolded[:-1]] *)
Definition spacings (unfolded : list Q) : list Q :=
  zip_with Qminus (drop 1 unfolded) (take (length unfolded - 1) unfolded).

(** [__evaluate_unfolding]: the mean and the variance of the spacings,
    and the score. *)
Definition evaluate_unfolding (unfolded : list Q) : cell * cell * cell :=
  let spacings := spacings unfolded in
  let mean := np_mean spacings in
  let var := np_var_ddof1 spacings in
  let mean_weight := Some (5 # 100) in
  let mean_norm :=
    cell_div (cell_sub mean (Some EXPECTED_GOE_MEAN)) (Some EXPECTED_GOE_MEAN) in
  let var_norm :=
    cell_div (cell_sub var (Some EXPECTED_GOE_VARIANCE)) (Some EXPECTED_GOE_VARIANCE) in
  let score := cell_add var_norm (cell_mul mean_weight mean_norm) in
  (mean, var, score).

(** ** Frames *)

(** A frame of floats by rows, with its column names: the trim report. *)
Record table : Type := mk_table {
  columns : list string;
  data : list (list cell)
}.

(** Named columns: the unfoldings of one trim, the score columns. *)
Abbreviation named_columns A := (list (string * list A)) (only parsing).

(** [arr[i, k] = v] on a two-dimensional array *)
Definition arr_set (arr : list (list cell)) (i k : nat) (v : cell)
    : pyres (list (list cell)) :=
  match arr !! i with
  | Some r =>
      if decide (k < length r)%nat then Ok (<[i := <[k := v]> r]> arr)
      else Raise IndexError
  | None => Raise IndexError
  end.

(** [np.empty([height, width], dtype=np.float32)]: an array of that
    shape with whatever the memory holds, here [junk].  A cell is taken
    to hold the number that is written to it: the narrowing to single
    precision is left out, as the rounding of floats is throughout. *)
Definition np_empty (junk : nat -> nat -> cell) (height width : nat)
    : list (list cell) :=
  (fun i => junk i <$> seq 0 width) <$> seq 0 height.

(** The keyword arguments of [Smoother.fit_all]. *)
Record smoother_options : Type := mk_options {
  poly_degrees : list Z;
  spline_smooths : list Q;
  spline_degrees : list Z;
  gompertz : bool
}.

(** ** The table of unfoldings across trims ([__unfold_across_trims]) *)

(** The inner loop: [for j, col in enumerate(all_unfolds)].  The frame
    of unfoldings has one column per name, so that [all_unfolds[col]] is
    the column at position [j]. *)
Fixpoint fill_unfold_stats (arr : list (list cell)) (i j : nat)
    (all_unfolds : named_columns Q) : pyres (list (list cell)) :=
  match all_unfolds with
  | [] => Ok arr
  | (_, values) :: rest =>
      let '(mean, var, score) := evaluate_unfolding values in
      arr ← arr_set arr i (3 * j + 3) mean;
      arr ← arr_set arr i (3 * j + 4) var;
      arr ← arr_set arr i (3 * j + 5) score;
      fill_unfold_stats arr i (S j) rest
  end.

(** [col_names_final] *)
Definition col_names_final (col_names_base : list string) : list string :=
  ["trim_percent"; "trim_low"; "trim_high"]
  ++ (col_names_base ≫= fun name =>
        [name +:+ "--mean_spacing"; name +:+ "--var_spacing"; name +:+ "--score"]).

Section UnfoldAcrossTrims.
Context {E : Type} `{!EqDecision E}.

(** [Smoother(eigs).fit_all(dry_run=True, ...)]: the names of the fits. *)
Variable fit_all_names : list E -> smoother_options -> list string.

(** [Smoother(eigs).fit_all(...)]: the frame of unfoldings, one named
    column per fit. *)
Variable fit_all : list E -> smoother_options -> named_columns Q.

Variables first_absent last_absent : Z.

(** What [np.empty] leaves in the array. *)
Variable junk : nat -> nat -> cell.

(** The body of [for i, trim in enumerate(trims)]. *)
Definition unfold_trim (untrimmed : list E) (options : smoother_options)
    (arr : list (list cell)) (i : nat) (trim : snapshot E)
    : pyres (list (list cell) * named_columns Q) :=
  let trimmed := eigs <$> trim in
  first ← Py.getitem trimmed 0;
  let lower_trim_length := find_first first_absent untrimmed first in
  final ← Py.getitem trimmed (-1);
  let upper_trim_length :=
    Py.len untrimmed - 1 - find_last last_absent untrimmed final in
  let all_unfolds := fit_all trimmed options in
  kept ← Py.truediv (Py.len trimmed) (Py.len untrimmed);
  let trim_percent := np_round (100 * (1 - kept)) 3 in
  lower_trim_percent ← Py.truediv (100 * lower_trim_length) (Py.len untrimmed);
  upper_trim_percent ← Py.truediv (100 * upper_trim_length) (Py.len untrimmed);
  arr ← arr_set arr i 0 (Some trim_percent);
  arr ← arr_set arr i 1 (Some lower_trim_percent);
  arr ← arr_set arr i 2 (Some upper_trim_percent);
  arr ← fill_unfold_stats arr i 0 all_unfolds;
  Ok (arr, all_unfolds).

(** The outer loop, keeping the array and the last [all_unfolds]. *)
Fixpoint unfold_trims (untrimmed : list E) (options : smoother_options)
    (arr : list (list cell)) (last_unfolds : option (named_columns Q))
    (i : nat) (trims : list (snapshot E))
    : pyres (list (list cell) * option (named_columns Q)) :=
  match trims with
  | [] => Ok (arr, last_unfolds)
  | trim :: rest =>
      step ← unfold_trim untrimmed options arr i trim;
      unfold_trims untrimmed options step.1 (Some step.2) (S i) rest
  end.

(** [__unfold_across_trims]: the pair of [self._unfold_info] and
    [self._all_unfolds] that it sets. *)
Definition unfold_across_trims (untrimmed : list E)
    (trims : list (snapshot E)) (options : smoother_options)
    : pyres (table * named_columns Q) :=
  let col_names_base := fit_all_names untrimmed options in
  let height := length trims in
  let width := (length col_names_base * 3 + 3)%nat in
  let arr := np_empty junk height width in
  filled ← unfold_trims untrimmed options arr None 0 trims;
  let trim_report := mk_table (col_names_final col_names_base) filled.1 in
  match filled.2 with
  | Some all_unfolds => Ok (trim_report, all_unfolds)
  | None => Raise UnboundLocalError
  end.
End UnfoldAcrossTrims.

(** ** The report object ([TrimReport.__init__]) *)

Record TrimReport (E : Type) : Type := mk_TrimReport {
  _untrimmed : list E;
  _trim_steps : list (snapshot E);
  _unfold_info : table;
  _all_unfolds : named_columns Q
}.
Arguments mk_TrimReport {E}.
Arguments _untrimmed {E}.
Arguments _trim_steps {E}.
Arguments _unfold_info {E}.
Arguments _all_unfolds {E}.

Section Init.
Context {E : Type} (E_le : relation E) `{!RelDecision E_le} `{!EqDecision E}.
Variable HBOS : Q -> list (E * Q) -> nat -> bool.
Variable Smoother_fit : list E -> nat -> Q * Q.
Variable fit_all_names : list E -> smoother_options -> list string.
Variable fit_all : list E -> smoother_options -> named_columns Q.
Variables first_absent last_absent : Z.
Variable junk : nat -> nat -> cell.

(** The defaults of [__unfold_across_trims]: DEFAULT_POLY_DEGREES,
    DEFAULT_SPLINE_SMOOTHS and DEFAULT_SPLINE_DEGREES of _constants,
    which trim.py imports, with [gompertz=True]. *)
Variable DEFAULT_POLY_DEGREES : list Z.
Variable DEFAULT_SPLINE_SMOOTHS : list Q.
Variable DEFAULT_SPLINE_DEGREES : list Z.

(** [np.sort]: the values in ascending order. *)
Definition np_sort (eigenvalues : list E) : list E := merge_sort E_le eigenvalues.

(** [TrimReport.__init__] *)
Definition TrimReport_init (eigenvalues : list E) (max_trim : Q)
    (max_iters : nat) (outlier_tol : Q) : pyres (TrimReport E) :=
  let eigenvalues := np_sort eigenvalues in
  trim_steps ← get_trim_iters E_le HBOS Smoother_fit first_absent last_absent
                 eigenvalues outlier_tol max_trim max_iters;
  info ← unfold_across_trims fit_all_names fit_all first_absent last_absent junk
           eigenvalues trim_steps
           (mk_options DEFAULT_POLY_DEGREES DEFAULT_SPLINE_SMOOTHS
                       DEFAULT_SPLINE_DEGREES true);
  Ok (mk_TrimReport eigenvalues trim_steps info.1 info.2).

(** The property [untrimmed]. *)
Definition untrimmed (report : TrimReport E) : list E := _untrimmed report.
End Init.

(** ** Strings: [in] and [str.replace] *)

(** ["sub" in s]; also [re.search(".*sub.*", s)] for a literal [sub]. *)
Fixpoint contains (sub s : string) : bool :=
  String.prefix sub s
  || match s with
     | EmptyString => false
     | String _ s' => contains sub s'
     end.

(** [s.replace(old, new)] for a non-empty [old]: the occurrences of [old]
    are replaced from the left, without overlap.  [skip] counts the
    characters of a replaced occurrence that are still to be passed. *)
Fixpoint replace_from (old new : string) (skip : nat) (s : string) : string :=
  match s with
  | EmptyString => EmptyString
  | String c s' =>
      match skip with
      | S k => replace_from old new k s'
      | O =>
          if String.prefix old s
          then new +:+ replace_from old new (String.length old - 1) s'
          else String c (replace_from old new 0 s')
      end
  end.

Definition py_replace (old new s : string) : string := replace_from old new 0 s.

(** ** pandas reductions over a column, NaN skipped *)

Definition Qle_b (x y : Q) : Prop := Qle_bool x y = true.

Global Instance Qle_b_dec : RelDecision Qle_b.
Proof. intros x y. unfold Qle_b. apply _. Defined.

(** [dropna] *)
Definition finite_values (xs : list cell) : list Q := omap id xs.

(** [Series.min()] *)
Definition col_min (xs : list cell) : cell :=
  match finite_values xs with
  | [] => None
  | x :: rest => Some (foldr Qmin x rest)
  end.

Definition cell_is (m : Q) (c : cell) : bool :=
  match c with
  | Some x => Qeq_bool x m
  | None => false
  end.

(** [Series.idxmin()]: the first position of the minimum; an error when
    every value is NaN. *)
Definition idxmin (xs : list cell) : pyres nat :=
  match col_min xs with
  | None => Raise ValueError
  | Some m =>
      match list_find (fun c => cell_is m c = true) xs with
      | Some (i, _) => Ok i
      | None => Raise ValueError
      end
  end.

(** [Series.mean()] *)
Definition col_mean (xs : list cell) : cell := np_mean (finite_values xs).

(** [Series.median()] *)
Definition col_median (xs : list cell) : cell :=
  let sorted := merge_sort Qle_b (finite_values xs) in
  let n := length sorted in
  if decide (n = 0%nat) then None
  else if Nat.odd n then sorted !! (n / 2)%nat
  else
    match sorted !! (n / 2 - 1)%nat, sorted !! (n / 2)%nat with
    | Some a, Some b => Some ((a + b) / 2)%Q
    | _, _ => None
    end.

(** The order of a sort on floats: ascending, NaN last. *)
Definition cell_leb (a b : cell) : bool :=
  match a, b with
  | _, None => true
  | None, Some _ => false
  | Some x, Some y => Qle_bool x y
  end.

(** What an argsort returns, whatever the algorithm and whatever it does
    with ties: the positions of the array, each once, in an order that
    makes the values ascending. *)
Record argsort_ok (argsort : list cell -> list nat) : Prop := {
  argsort_perm : forall xs, argsort xs ≡ₚ seq 0 (length xs);
  argsort_sorted : forall xs a b i j x y,
    (a < b)%nat -> argsort xs !! a = Some i -> argsort xs !! b = Some j ->
    xs !! i = Some x -> xs !! j = Some y -> cell_leb x y = true
}.

(** ** Frames by column *)

(** The columns of a frame, each with its name. *)
Definition frame_columns (t : table) : named_columns cell :=
  imap (fun j name => (name, (fun r => default None (r !! j)) <$> data t)) (columns t).

(** [frame[names]]: the columns of these names; [KeyError] for a name that
    is not a column. *)
Definition select {A} (frame : named_columns A) (names : list string)
    : pyres (named_columns A) :=
  mapM (fun name =>
          match list_find (fun c : string * list A => c.1 = name) frame with
          | Some (_, c) => Ok c
          | None => Raise KeyError
          end) names.

(** [frame.iloc[i, :]]: row [i], a value per column name. *)
Definition iloc {A} (frame : named_columns A) (i : nat) : pyres (list (string * A)) :=
  mapM (fun c : string * list A =>
          match c.2 !! i with
          | Some v => Ok (c.1, v)
          | None => Raise IndexError
          end) frame.

(** [frame.abs()] *)
Definition frame_abs (frame : named_columns cell) : named_columns cell :=
  (fun c : string * list cell => (c.1, cell_abs <$> c.2)) <$> frame.

(** [report.filter(regex=".*score.*")] *)
Definition filter_score (frame : named_columns cell) : named_columns cell :=
  filter (fun c : string * list cell => contains "score" c.1 = true) frame.

(** The keys of [dict(pairs)] in insertion order: a repeated key keeps
    its first place. *)
Fixpoint dict_keys (seen keys : list string) : list string :=
  match keys with
  | [] => []
  | k :: rest =>
      if decide (k ∈ seen) then dict_keys seen rest
      else k :: dict_keys (k :: seen) rest
  end.

(** [array[idx]] with an array of positions *)
Definition take_at {A} (arr : list A) (idx : list nat) : pyres (list A) :=
  mapM (fun i => match arr !! i with
                 | Some x => Ok x
                 | None => Raise IndexError
                 end) idx.

(** ** Selecting smoothers ([summarize_trim_unfoldings]) *)

Inductive dict_key : Set :=
  | key_str (s : string)
  | key_int (n : nat).

Global Instance dict_key_eq_dec : EqDecision dict_key.
Proof. solve_decision. Defined.

(** A row of the report restricted to some columns. *)
Abbreviation series := (list (string * cell)) (only parsing).

Definition rank_name (i : nat) : option string :=
  match i with
  | 0%nat => Some "best"
  | 1%nat => Some "second"
  | 2%nat => Some "third"
  | _ => None
  end.

Section Summarize.
(** [Series.sort_values()] and [np.argsort]: the order each puts the
    positions in. *)
Variables sort_values_order np_argsort : list cell -> list nat.

(** [scores.abs().min().sort_values()[:3].to_dict().keys()] *)
Definition best_columns (scores : named_columns cell) : pyres (list string) :=
  let minima := (fun c : string * list cell => col_min (cell_abs <$> c.2)) <$> scores in
  sorted ← take_at (fst <$> scores) (sort_values_order minima);
  Ok (dict_keys [] (take 3 sorted)).

(** The body of [for i, col in enumerate(best_smoother_cols)], from
    position [i] on. *)
Fixpoint best_entries (report : named_columns cell) (rows : list nat)
    (i : nat) (cols : list string) : pyres (list (dict_key * series)) :=
  match cols with
  | [] => Ok []
  | col :: rest =>
      min_score_i ← match rows !! i with
                    | Some r => Ok r
                    | None => Raise IndexError
                    end;
      let wanted :=
        ["trim_percent"; "trim_low"; "trim_high"]
        ++ [py_replace "score" "mean_spacing" col;
            py_replace "score" "var_spacing" col;
            col] in
      picked ← select report wanted;
      entry ← iloc picked min_score_i;
      later ← best_entries report rows (S i) rest;
      Ok (match rank_name i with
          | Some name => [(key_str name, entry)]
          | None => []
          end ++ (key_int i, entry) :: later)
  end.

(** The top three of [values] as names: [set(score_cols[argsort[:3]])]. *)
Definition top_three (score_cols : list string) (values : list cell)
    : pyres (gset string) :=
  names ← take_at score_cols (take 3 (np_argsort values));
  Ok (list_to_set names).

Definition summarize_trim_unfoldings (unfold_info : table)
    (all_unfolds : named_columns Q)
    : pyres (list (dict_key * series) * named_columns Q * list string) :=
  let report := frame_columns unfold_info in
  let scores := frame_abs (filter_score report) in
  let score_cols := fst <$> scores in
  best_smoother_cols ← best_columns scores;
  chosen ← select report best_smoother_cols;
  best_smoother_rows ← mapM (fun c : string * list cell => idxmin c.2) (frame_abs chosen);
  best_unfoldeds ← select all_unfolds (py_replace "--score" "" <$> best_smoother_cols);
  best_smoothers ← best_entries report best_smoother_rows 0 best_smoother_cols;
  let median_scores := (fun c : string * list cell => col_median c.2) <$> scores in
  let mean_scores := (fun c : string * list cell => col_mean c.2) <$> scores in
  top_smoothers_median ← top_three score_cols median_scores;
  top_smoothers_mean ← top_three score_cols mean_scores;
  let consistent := top_smoothers_mean ∩ top_smoothers_median in
  Ok (best_smoothers, best_unfoldeds,
      py_replace "--score" "" <$> elements consistent).
End Summarize.

(** ** Unfolding again with other parameters ([compare_trim_unfolds]) *)

Section Compare.
Context {E : Type} `{!EqDecision E}.
Variable fit_all_names : list E -> smoother_options -> list string.
Variable fit_all : list E -> smoother_options -> list (string * list Q).
Variables first_absent last_absent : Z.

(** What [np.empty] leaves in the array of this call. *)
Variable junk : nat -> nat -> option Q.

(** The property [unfold_info]. *)
Definition unfold_info (self : TrimReport E) : table := _unfold_info self.

(** The property [unfoldings]. *)
Definition unfoldings (self : TrimReport E) : list (string * list Q) :=
  _all_unfolds self.

(** [compare_trim_unfolds]: the report object after the call, and the
    table returned.  The arguments that [__unfold_across_trims] saves in
    private attributes are not read anywhere. *)
Definition compare_trim_unfolds (self : TrimReport E) (options : smoother_options)
    : pyres (TrimReport E * table) :=
  info ← unfold_across_trims fit_all_names fit_all first_absent last_absent junk
           (_untrimmed self) (_trim_steps self) options;
  let self' := mk_TrimReport (_untrimmed self) (_trim_steps self) info.1 info.2 in
  Ok (self', unfold_info self').
End Compare.

(** ** The log of the trim steps ([plot_trim_steps], with [log_info]) *)

(** [l.index(x)]: the first position of [x]; ValueError when [x] does
    not occur. *)
Definition list_index {A} `{!EqDecision A} (l : list A) (x : A) : pyres nat :=
  match list_find (fun y => y = x) l with
  | Some (i, _) => Ok i
  | None => Raise ValueError
  end.

(** The arguments of one line of the log, before they are formatted. *)
Record log_entry : Type := mk_log_entry {
  log_iteration : nat;
  log_trim_percent : Q;
  log_mean_spacing : option Q;
  log_var_spacing : option Q;
  log_msqe : option Q;
  log_first_index : nat;
  log_last_index : nat
}.

Section TrimLog.
Context {E : Type} `{!EqDecision E}.

(** The body of [for i, df in enumerate(trim_steps)] past [i == 0]: the
    arguments of [format], evaluated from left to right.
    [df["cluster"] == "inlier"] is the series of the comparisons, one per
    row. *)
Definition log_line (untrimmed : list E) (i : nat) (df : list (row E))
    : pyres log_entry :=
  let is_inlier_series := (fun r => bool_decide (cluster r = inlier)) <$> df in
  kept ← Py.truediv (Py.len is_inlier_series) (Py.len untrimmed);
  let trim_percent := np_round (100 * (1 - kept)) 2 in
  let eigs_list := untrimmed in
  let gaps := spacings (unfolded <$> df) in
  first ← Py.getitem (eigs <$> df) 0;
  first_index ← list_index eigs_list first;
  final ← Py.getitem (eigs <$> df) (-1);
  last_index ← list_index eigs_list final;
  Ok (mk_log_entry i trim_percent (np_mean gaps) (np_var_ddof1 gaps)
        (np_mean (sqe <$> df)) first_index last_index).

(** The loop over the snapshots from position [i] on. *)
Fixpoint log_lines (untrimmed : list E) (i : nat) (trim_steps : list (list (row E)))
    : pyres (list log_entry) :=
  match trim_steps with
  | [] => Ok []
  | df :: rest =>
      if decide (i = 0%nat) then log_lines untrimmed (S i) rest
      else
        info ← log_line untrimmed i df;
        log ← log_lines untrimmed (S i) rest;
        Ok (info :: log)
  end.

(** The lines that [plot_trim_steps] logs for a report. *)
Definition plot_trim_steps_log (self : TrimReport E) : pyres (list log_entry) :=
  log_lines (_untrimmed self) 0 (_trim_steps self).
End TrimLog.

(** * Notions the theorems are stated with *)

(** ** Label arrays and snapshots *)

(** The flagged points are the first [k]. *)
Definition prefix_flagged (l : list bool) : Prop :=
  exists k, (k <= length l)%nat /\ l = replicate k true ++ replicate (length l - k) false.

(** The flagged points are the last ones, after [k] unflagged. *)
Definition suffix_flagged (l : list bool) : Prop :=
  exists k, (k <= length l)%nat /\ l = replicate k false ++ replicate (length l - k) true.

(** Some point of the snapshot is labelled outlier. *)
Definition has_outlier {E} (df : snapshot E) : Prop := outlier ∈ labels df.

(** The number of points of the snapshot labelled inlier. *)
Definition inlier_count {E} (df : snapshot E) : nat :=
  length (filter (fun r => is_inlier r = true) df).

Section TrimRuns.
Context {E : Type} (E_le : relation E) `{!RelDecision E_le}.
Variable HBOS : Q -> list (E * Q) -> nat -> bool.
Variable Smoother_fit : list E -> nat -> Q * Q.
Variables first_absent last_absent : Z.
Variables (untrimmed : list E) (tolerance max_trim : Q).

(** The value the [while] test compares with [max_trim]. *)
Definition kept_ratio (df : snapshot E) : pyres Q :=
  Py.truediv (Py.len df) (Py.len untrimmed).

(** The runs of the [while] loop, as a relation between the iterations
    that are left, the snapshots on entry and the snapshots on exit. *)
Inductive trim_run : nat -> list (snapshot E) -> list (snapshot E) -> Prop :=
  | run_enough remaining results df ratio :
      last results = Some df ->
      kept_ratio df = Ok ratio ->
      Qgtb ratio max_trim = false ->
      trim_run remaining results results
  | run_exhausted results df ratio :
      last results = Some df ->
      kept_ratio df = Ok ratio ->
      Qgtb ratio max_trim = true ->
      trim_run 0 results results
  | run_break remaining results prev ratio df is_outlier :
      last results = Some prev ->
      kept_ratio prev = Ok ratio ->
      Qgtb ratio max_trim = true ->
      trim_iteration HBOS Smoother_fit first_absent last_absent tolerance prev
        = Ok (df, is_outlier) ->
      forallb negb is_outlier = true ->
      trim_run (S remaining) results (results ++ [df])
  | run_again remaining results prev ratio df is_outlier out :
      last results = Some prev ->
      kept_ratio prev = Ok ratio ->
      Qgtb ratio max_trim = true ->
      trim_iteration HBOS Smoother_fit first_absent last_absent tolerance prev
        = Ok (df, is_outlier) ->
      forallb negb is_outlier = false ->
      trim_run remaining (results ++ [df]) out ->
      trim_run (S remaining) results out.
End TrimRuns.

(** No outlier strictly between two inliers. *)
Definition no_interior_outlier (ls : list label) : Prop :=
  forall i j k, (i < j < k)%nat ->
    ls !! i = Some inlier -> ls !! k = Some inlier -> ls !! j = Some inlier.

(** The outliers are the first [a] points. *)
Definition outlier_prefix (ls : list label) : Prop :=
  exists a, (a <= length ls)%nat
    /\ ls = replicate a outlier ++ replicate (length ls - a) inlier.

(** The outliers are the last points, after [a] inliers. *)
Definition outlier_suffix (ls : list label) : Prop :=
  exists a, (a <= length ls)%nat
    /\ ls = replicate a inlier ++ replicate (length ls - a) outlier.

(** ** The loop test, as specified and as coded *)

Section LoopTests.
Context {E : Type}.
Variables (untrimmed : list E) (max_trim : Q) (max_iters : nat).

(** The loop test in the words of the specification: the inliers of the
    last snapshot over the size of the spectrum exceed [max_trim], and
    fewer than [max_iters] iterations have run. *)
Definition claimed_continue (so_far : list (snapshot E)) : Prop :=
  exists df, last so_far = Some df
    /\ (max_trim < inject_Z (Z.of_nat (inlier_count df)) / Qlen untrimmed)%Q
    /\ (length so_far - 1 < max_iters)%nat.

(** When the loop of the code goes on: the last snapshot, if an
    iteration made it, has an outlier; its rows over the size of the
    spectrum exceed [max_trim]; fewer than [max_iters] iterations have
    run. *)
Definition loop_continues (so_far : list (snapshot E)) : Prop :=
  exists df, last so_far = Some df
    /\ ((1 < length so_far)%nat -> has_outlier df)
    /\ (max_trim < Qlen df / Qlen untrimmed)%Q
    /\ (length so_far - 1 < max_iters)%nat.
End LoopTests.

(** ** Termination, as specified *)

Section ClaimedTermination.
Context {E : Type} (E_le : relation E) `{!RelDecision E_le}.
Variable HBOS : Q -> list (E * Q) -> nat -> bool.
Variable Smoother_fit : list E -> nat -> Q * Q.
Variables first_absent last_absent : Z.

(** Termination in the words of the specification: the call returns a
    sequence of at least one and at most [max_iters + 1] snapshots. *)
Definition claimed_terminates (untrimmed : list E) (tolerance max_trim : Q)
    (max_iters : Z) : Prop :=
  exists snaps,
    get_trim_iters_int E_le HBOS Smoother_fit first_absent last_absent
      untrimmed tolerance max_trim max_iters = Ok snaps
    /\ 1 <= Z.of_nat (length snaps) <= max_iters + 1.
End ClaimedTermination.

(** ** The edge correction, as specified *)

(** Position [s] holds the first inlier of the array. *)
Definition first_inlier_at (l : list bool) (s : nat) : Prop :=
  l !! s = Some false /\ forall j, (j < s)%nat -> l !! j = Some true.

(** Position [t] holds the last inlier of the array. *)
Definition last_inlier_at (l : list bool) (t : nat) : Prop :=
  l !! t = Some false /\ forall j, (t < j < length l)%nat -> l !! j = Some true.

Section ClaimedCorrection.
Variables first_absent last_absent : Z.

(** The left rule in the words of the specification: with the first
    point flagged, every point before the first inlier is forced to
    inlier. *)
Definition claimed_left_rule : Prop :=
  forall l l' s,
    head l = Some true -> first_inlier_at l s ->
    edge_correct first_absent last_absent l = Ok l' ->
    forall i, (i < s)%nat -> l' !! i = Some false.

(** With both ends flagged, and an inlier between them, an outlier
    prefix and an outlier suffix both survive. *)
Definition claimed_both_ends : Prop :=
  forall l l',
    head l = Some true -> last l = Some true -> false ∈ l ->
    edge_correct first_absent last_absent l = Ok l' ->
    head l' = Some true /\ last l' = Some true.
End ClaimedCorrection.

(** ** Spacings and their statistics *)

(** The successive differences of a column, by position:
    [u[i+1] - u[i]] for every [i] with a successor. *)
Definition successive_differences (u : list Q) : list Q :=
  (fun i => (default 0 (u !! S i) - default 0 (u !! i))%Q) <$> seq 0 (length u - 1).

(** The sample variance with one degree of freedom taken off: the sum of
    the squared deviations from the mean over one less than the number of
    values; not a number for fewer than two values. *)
Definition sample_variance (xs : list Q) : option Q :=
  if decide (length xs <= 1)%nat then None
  else
    let mean := (Qsum xs / Qlen xs)%Q in
    Some (Qsum ((fun x => (x - mean) ^ 2) <$> xs)
          / inject_Z (Z.of_nat (length xs - 1)))%Q.

(** The score of the specification. *)
Definition goe_score (mean_spacing var_spacing : option Q) : option Q :=
  cell_add (cell_div (cell_sub var_spacing (Some 1%Q)) (Some 1%Q))
           (cell_mul (Some (5 # 100))
                     (cell_div (cell_sub mean_spacing (Some 1%Q)) (Some 1%Q))).

(** ** Arrays and columns of the report *)

(** An array of [height] rows of [width] cells. *)
Definition has_shape (arr : list (list cell)) (height width : nat) : Prop :=
  length arr = height /\ Forall (fun r => length r = width) arr.

(** [arr[i, k]], when inside the array. *)
Definition cell_at (arr : list (list cell)) (i k : nat) : option cell :=
  arr !! i ≫= fun r => r !! k.

(** [m] is the least of the numbers of a column, NaN aside. *)
Definition is_min_of (m : Q) (xs : list (option Q)) : Prop :=
  (exists x, Some x ∈ xs /\ (x == m)%Q) /\ forall x, Some x ∈ xs -> (m <= x)%Q.

(** [m] is the least absolute score of the score column named [c]. *)
Definition row_min_abs (scores : list (string * list (option Q))) (c : string) (m : Q)
    : Prop :=
  exists a, (c, a) ∈ scores /\ is_min_of m a.

(** The score columns of a report, in absolute value. *)
Definition score_columns (unfold_info : table) : list (string * list (option Q)) :=
  frame_abs (filter_score (frame_columns unfold_info)).

(** A string without a dash. *)
Fixpoint no_dash (p : string) : Prop :=
  match p with
  | EmptyString => True
  | String a p' => a <> "-"%char /\ no_dash p'
  end.

(** [chosen] holds positions of three lowest values (of all the values
    when there are fewer than three): distinct positions of the array,
    none of them with a value above that of a position left out. *)
Definition lowest_three (values : list (option Q)) (chosen : list nat) : Prop :=
  NoDup chosen
  /\ length chosen = min 3 (length values)
  /\ (forall i, i ∈ chosen -> (i < length values)%nat)
  /\ forall i j x y, i ∈ chosen -> j ∉ chosen ->
       values !! i = Some x -> values !! j = Some y -> cell_leb x y = true.

(** The set of the names at some positions. *)
Definition names_at (names : list string) (positions : list nat) : gset string :=
  list_to_set (omap (fun i => names !! i) positions).

(** ** The rows of the report *)

Section ReportRow.
Context {E : Type} `{!EqDecision E}.
Variable fit_all : list E -> smoother_options -> list (string * list Q).
Variables first_absent last_absent : Z.

(** What is written to a row of the report for the snapshot [trim]: the
    three trim percentages, then the statistics of each column of
    unfoldings by its position. *)
Definition row_of_trim (untrimmed : list E) (options : smoother_options)
    (trim : list (row E)) (cells : nat -> option (option Q)) : Prop :=
  exists first final,
    head (eigs <$> trim) = Some first /\ last (eigs <$> trim) = Some final
    /\ cells 0%nat = Some (Some (np_round (100 * (1 - Qlen trim / Qlen untrimmed)) 3))
    /\ cells 1%nat
       = Some (Some (inject_Z (100 * find_first first_absent untrimmed first)
                     / Qlen untrimmed)%Q)
    /\ cells 2%nat
       = Some (Some (inject_Z (100 * (Py.len untrimmed - 1
                                      - find_last last_absent untrimmed final))
                     / Qlen untrimmed)%Q)
    /\ forall j name values,
         fit_all (eigs <$> trim) options !! j = Some (name, values) ->
         cells (3 * j + 3)%nat = Some (evaluate_unfolding values).1.1
         /\ cells (3 * j + 4)%nat = Some (evaluate_unfolding values).1.2
         /\ cells (3 * j + 5)%nat = Some (evaluate_unfolding values).2.
End ReportRow.

(** ** An argsort to run the selection with *)

(** The value at a position, NaN outside the array. *)
Definition value_at (xs : list (option Q)) (i : nat) : option Q :=
  default None (xs !! i).

(** An argsort by insertion, stable: [insert_pos] puts position [i]
    before the first position whose value is not below that of [i]. *)
Fixpoint insert_pos (xs : list (option Q)) (i : nat) (sorted : list nat) : list nat :=
  match sorted with
  | [] => [i]
  | j :: rest =>
      if cell_leb (value_at xs i) (value_at xs j) then i :: j :: rest
      else j :: insert_pos xs i rest
  end.

Definition insertion_argsort (xs : list (option Q)) : list nat :=
  foldr (insert_pos xs) [] (seq 0 (length xs)).

(** Position [i] does not hold a value above that of position [j]. *)
Definition ascending (xs : list (option Q)) (i j : nat) : Prop :=
  cell_leb (value_at xs i) (value_at xs j) = true.

(** ** A fixture: detectors, smoothers and spectra to run the code on *)

Module Fixture.
(** A detector that flags the first row only. *)
Definition flag_first (tol : Q) (table : list (Z * Q)) (i : nat) : bool :=
  bool_decide (i = 0%nat).

(** A detector that flags every row. *)
Definition flag_all (tol : Q) (table : list (Z * Q)) (i : nat) : bool := true.

(** A smoother that unfolds position [i] to [i]. *)
Definition ramp_fit (es : list Z) (i : nat) : Q * Q :=
  (inject_Z (Z.of_nat i), inject_Z (Z.of_nat i)).

Definition spectrum : list Z := [1; 2; 3; 4].

Definition long_spectrum : list Z := [1; 2; 3; 4; 7; 9; 12; 20].

(** Four fits: [x], [x * x], [2 * x] and [x * x * x]. *)
Definition names (es : list Z) (options : smoother_options) : list string :=
  ["poly_3"; "poly_4"; "gompertz"; "exp"]%string.

Definition fits (es : list Z) (options : smoother_options) : list (string * list Q) :=
  [("poly_3", (fun x => inject_Z x) <$> es);
   ("poly_4", (fun x => inject_Z (x * x)) <$> es);
   ("gompertz", (fun x => inject_Z (2 * x)) <$> es);
   ("exp", (fun x => inject_Z (x * x * x)) <$> es)]%string.

Definition options : smoother_options := mk_options [3; 4] [1%Q] [3] true.

Definition junk (i k : nat) : option Q := None.

(** The snapshots of the long spectrum with the detector that flags the
    first row, and the report across them. *)
Abbreviation snaps :=
  (get_trim_iters Z.le flag_first ramp_fit (-1) (-1) long_spectrum (1 # 10) (1 # 2) 7).

Abbreviation report :=
  (snaps ≫= fun trims =>
     unfold_across_trims names fits (-1) (-1) junk long_spectrum trims options).
End Fixture.

(** ** A fixture where the unfoldings and the dry run disagree *)

Module Mismatch.
(** Two names only. *)
Definition two_names (es : list Z) (options : smoother_options) : list string :=
  ["poly_3"; "poly_4"]%string.

(** Two fits only: [x] and [x * x]. *)
Definition two_fits (es : list Z) (options : smoother_options)
    : list (string * list Q) :=
  [("poly_3", (fun x => inject_Z x) <$> es);
   ("poly_4", (fun x => inject_Z (x * x)) <$> es)]%string.

(** An array that [np.empty] does not leave clean. *)
Definition noise (i k : nat) : option Q := Some (inject_Z (Z.of_nat (7 * i + k))).
End Mismatch.

(** * Theorems *)

(** ** Python sequences *)

Section PyFacts.
Context {A : Type}.
Implicit Types (l : list A) (v : A).

Lemma bind_Ok {B C} (m : pyres B) (f : B -> pyres C) c :
  m ≫= f = Ok c -> exists b, m = Ok b /\ f b = Ok c.
Proof. destruct m as [b|e]; [eauto | discriminate]. Qed.

Lemma index_nonneg (n : nat) (k : nat) :
  (k < n)%nat -> Py.index n (Z.of_nat k) = Ok k.
Proof.
  intros Hk. unfold Py.index.
  rewrite bool_decide_eq_true_2 by lia. by rewrite Nat2Z.id.
Qed.

Lemma index_Ok n i k : Py.index n i = Ok k -> (k < n)%nat.
Proof.
  unfold Py.index. repeat case_bool_decide; intros [= <-]; lia.
Qed.

Lemma index_high n i : Z.of_nat n <= i -> Py.index n i = Raise IndexError.
Proof.
  intros Hi. unfold Py.index.
  rewrite !bool_decide_eq_false_2 by lia. done.
Qed.

Lemma getitem_first l : Py.getitem l 0 =
  match head l with Some x => Ok x | None => Raise IndexError end.
Proof. by destruct l. Qed.

Lemma getitem_last l : Py.getitem l (-1) =
  match last l with Some x => Ok x | None => Raise IndexError end.
Proof.
  unfold Py.getitem, Py.index.
  destruct (decide (l = [])) as [->|Hne]; [done|].
  assert (0 < length l)%nat by (destruct l; simpl; [done|lia]).
  rewrite bool_decide_eq_false_2 by lia.
  rewrite bool_decide_eq_true_2 by lia. simpl.
  rewrite last_lookup.
  replace (Z.to_nat (Z.of_nat (length l) + -1)) with (pred (length l)) by lia.
  done.
Qed.

Lemma setitem_length l i v l' : Py.setitem l i v = Ok l' -> length l' = length l.
Proof.
  unfold Py.setitem. intros (k & _ & [= <-])%bind_Ok. apply length_insert.
Qed.

Lemma store_all_length idx v l l' :
  Py.store_all idx v l = Ok l' -> length l' = length l.
Proof.
  revert l. induction idx as [|i idx IH]; intros l; simpl.
  - by intros [= <-].
  - intros (l1 & H1 & H2)%bind_Ok.
    rewrite (IH _ H2). by eapply setitem_length.
Qed.

Lemma store_all_app idx1 idx2 v l :
  Py.store_all (idx1 ++ idx2) v l = Py.store_all idx1 v l ≫= Py.store_all idx2 v.
Proof.
  revert l. induction idx1 as [|i idx1 IH]; intros l; simpl; [done|].
  destruct (Py.setitem l i v) as [l1|e]; simpl; [apply IH | done].
Qed.

Lemma range_empty a b : b <= a -> Py.range a b = [].
Proof. intros H. unfold Py.range. by replace (Z.to_nat (b - a)) with 0%nat by lia. Qed.

Lemma range_cons a b : a < b -> Py.range a b = a :: Py.range (a + 1) b.
Proof.
  intros H. unfold Py.range.
  replace (Z.to_nat (b - a)) with (S (Z.to_nat (b - (a + 1)))) by lia.
  simpl. f_equal; [lia|].
  rewrite <- fmap_S_seq, <- list_fmap_compose.
  apply list_fmap_ext. intros _ k _. simpl. lia.
Qed.

Lemma range_split a m b : a <= m <= b -> Py.range a b = Py.range a m ++ Py.range m b.
Proof.
  intros [H1 H2].
  remember (Z.to_nat (m - a)) as n eqn:Hn.
  revert a H1 Hn. induction n as [|n IH]; intros a H1 Hn.
  - assert (a = m) as -> by lia. by rewrite (range_empty m m).
  - rewrite (range_cons a b), (range_cons a m) by lia. simpl. f_equal.
    apply IH; lia.
Qed.

(** Storing over [a .. a+c-1] inside the list *)
Lemma store_all_inside (a c : nat) v l :
  (a + c <= length l)%nat ->
  Py.store_all (Py.range (Z.of_nat a) (Z.of_nat (a + c))) v l
  = Ok (take a l ++ replicate c v ++ drop (a + c) l).
Proof.
  revert a l. induction c as [|c IH]; intros a l Hle.
  - rewrite range_empty by lia. simpl.
    by rewrite Nat.add_0_r, take_drop.
  - rewrite range_cons by lia. simpl.
    unfold Py.setitem. rewrite index_nonneg by lia. simpl.
    replace (Z.of_nat a + 1) with (Z.of_nat (S a)) by lia.
    replace (a + S c)%nat with (S a + c)%nat by lia.
    rewrite IH by (rewrite length_insert; lia).
    f_equal.
    destruct (lookup_lt_is_Some_2 l a) as [x Hx]; [lia|].
    rewrite (take_S_r (<[a:=v]> l) a v) by (apply list_lookup_insert_eq; lia).
    rewrite take_insert_ge by lia.
    rewrite drop_insert_lt by lia.
    by rewrite <- app_assoc.
Qed.

Lemma store_all_front (c : nat) v l :
  (c <= length l)%nat ->
  Py.store_all (Py.range 0 (Z.of_nat c)) v l = Ok (replicate c v ++ drop c l).
Proof. intros H. exact (store_all_inside 0 c v l H). Qed.

(** Storing over a range that starts at a negative subscript and runs to
    the end overwrites everything. *)
Lemma store_all_wrap a v l :
  - Py.len l <= a <= 0 ->
  Py.store_all (Py.range a (Py.len l)) v l = Ok (replicate (length l) v).
Proof.
  unfold Py.len. intros Ha.
  rewrite (range_split a 0) by lia. rewrite store_all_app.
  assert (exists l1, Py.store_all (Py.range a 0) v l = Ok l1) as [l1 H1].
  { remember (Z.to_nat (- a)) as n eqn:Hn.
    revert a l Ha Hn. induction n as [|n IH]; intros a l Ha Hn.
    - rewrite range_empty by lia. eauto.
    - rewrite range_cons by lia. simpl.
      unfold Py.setitem, Py.index.
      rewrite bool_decide_eq_false_2 by lia.
      rewrite bool_decide_eq_true_2 by lia. simpl.
      apply IH; [rewrite length_insert; lia | lia]. }
  rewrite H1. simpl.
  pose proof (store_all_length _ _ _ _ H1) as Hlen.
  rewrite <- Hlen, store_all_front by lia.
  rewrite drop_all. by rewrite app_nil_r.
Qed.

(** A first subscript below [-len] raises at once. *)
Lemma store_all_low a b v l :
  a < - Py.len l -> a < b -> Py.store_all (Py.range a b) v l = Raise IndexError.
Proof.
  unfold Py.len. intros Ha Hb. rewrite range_cons by lia. simpl.
  unfold Py.setitem, Py.index.
  by rewrite !bool_decide_eq_false_2 by lia.
Qed.

(** A range that runs past the end raises. *)
Lemma store_all_past (b : Z) v l :
  Py.len l < b -> Py.store_all (Py.range 0 b) v l = Raise IndexError.
Proof.
  unfold Py.len. intros Hb.
  rewrite (range_split 0 (Z.of_nat (length l))) by lia.
  rewrite store_all_app.
  rewrite store_all_front by lia. simpl.
  rewrite range_cons by lia. simpl.
  unfold Py.setitem. rewrite index_high; [done|].
  rewrite length_app, length_replicate, length_drop. lia.
Qed.
End PyFacts.

(** ** The edge correction *)

Section ListFacts.
Context {A : Type}.

Lemma take_all_equal (l : list A) n v :
  (n <= length l)%nat -> (forall j, (j < n)%nat -> l !! j = Some v) ->
  take n l = replicate n v.
Proof.
  intros Hn Hall. apply list_eq. intros i.
  destruct (decide (i < n)%nat) as [Hi|Hi].
  - rewrite lookup_take_lt by done. rewrite Hall by done.
    by rewrite lookup_replicate_2.
  - rewrite lookup_take_ge by lia. symmetry. apply lookup_replicate_None. lia.
Qed.

Lemma drop_all_equal (l : list A) n v :
  (forall j, (n <= j < length l)%nat -> l !! j = Some v) ->
  drop n l = replicate (length l - n) v.
Proof.
  intros Hall. apply list_eq. intros i. rewrite lookup_drop.
  destruct (decide (n + i < length l)%nat) as [Hi|Hi].
  - rewrite Hall by lia. by rewrite lookup_replicate_2 by lia.
  - rewrite lookup_ge_None_2 by lia. symmetry. apply lookup_replicate_None. lia.
Qed.
End ListFacts.

Section EdgeFacts.
Variables first_absent last_absent : Z.
Implicit Types l : list bool.

Lemma not_false_true (b : bool) : b <> false -> b = true.
Proof. by destruct b. Qed.

Lemma first_inlier_Some l s x :
  list_find (fun b => b = false) l = Some (s, x) ->
  x = false /\ l !! s = Some false /\ (s < length l)%nat
  /\ take s l = replicate s true.
Proof.
  intros (Hs & -> & Hbefore)%list_find_Some.
  pose proof (lookup_lt_Some _ _ _ Hs) as Hlt.
  repeat split; [done..|].
  apply take_all_equal; [lia|]. intros j Hj.
  destruct (lookup_lt_is_Some_2 l j) as [y Hy]; [lia|].
  rewrite Hy. f_equal. apply not_false_true. by eapply Hbefore.
Qed.

Lemma no_inlier l :
  list_find (fun b => b = false) l = None -> l = replicate (length l) true.
Proof.
  intros Hnone%list_find_None.
  rewrite <- (take_ge l (length l)) at 1 by lia.
  apply take_all_equal; [lia|]. intros j Hj.
  destruct (lookup_lt_is_Some_2 l j) as [y Hy]; [lia|].
  rewrite Hy. f_equal. apply not_false_true.
  rewrite Forall_forall in Hnone. apply Hnone. by eapply list_elem_of_lookup_2.
Qed.

Lemma last_inlier_Some l i x :
  list_find (fun b => b = false) (reverse l) = Some (i, x) ->
  let t := (length l - 1 - i)%nat in
  x = false /\ l !! t = Some false /\ (i < length l)%nat
  /\ drop (S t) l = replicate (length l - S t) true.
Proof.
  intros (Hs & -> & Hafter)%list_find_Some. simpl.
  pose proof (lookup_lt_Some _ _ _ Hs) as Hlt. rewrite length_reverse in Hlt.
  rewrite reverse_lookup in Hs by done.
  repeat split; [|done|].
  - rewrite <- Hs. f_equal. lia.
  - apply drop_all_equal. intros j Hj.
    destruct (lookup_lt_is_Some_2 l j) as [y Hy]; [lia|].
    rewrite Hy. f_equal. apply not_false_true.
    apply (Hafter (length l - S j)%nat); [|lia].
    rewrite reverse_lookup by lia. rewrite <- Hy. f_equal. lia.
Qed.

Lemma no_inlier_reverse l :
  list_find (fun b => b = false) (reverse l) = None -> l = replicate (length l) true.
Proof.
  intros Hnone%list_find_None. rewrite Forall_reverse in Hnone.
  apply no_inlier. by apply list_find_None.
Qed.

(** The left loop with an inlier in the array: the points before the
    first inlier stay flagged, the others are cleared. *)
Lemma keep_left_found l s x :
  head l = Some true ->
  list_find (fun b => b = false) l = Some (s, x) ->
  keep_left first_absent l = Ok (replicate s true ++ replicate (length l - s) false).
Proof.
  intros Hhd Hfind. unfold keep_left. rewrite getitem_first, Hhd. simpl.
  unfold find_first. rewrite Hfind.
  destruct (first_inlier_Some _ _ _ Hfind) as (_ & _ & Hlt & Htake).
  unfold Py.len.
  replace (length l) with (s + (length l - s))%nat at 1 by lia.
  rewrite store_all_inside by lia.
  replace (s + (length l - s))%nat with (length l) by lia.
  by rewrite drop_all, app_nil_r, Htake.
Qed.

Lemma keep_left_unflagged l :
  head l = Some false -> keep_left first_absent l = Ok l.
Proof. intros Hhd. unfold keep_left. by rewrite getitem_first, Hhd. Qed.

Lemma keep_left_shape l l' :
  keep_left first_absent l = Ok l' ->
  length l' = length l
  /\ ((head l = Some false /\ l' = l) \/ (head l = Some true /\ prefix_flagged l')).
Proof.
  intros Hk.
  destruct (head l) as [[|]|] eqn:Hhd.
  - destruct (list_find (fun b => b = false) l) as [[s x]|] eqn:Hfind.
    + rewrite (keep_left_found _ _ _ Hhd Hfind) in Hk. injection Hk as <-.
      destruct (first_inlier_Some _ _ _ Hfind) as (_ & _ & Hlt & _).
      assert (Hlen : length (replicate s true ++ replicate (length l - s) false)
                     = length l)
        by (rewrite length_app, !length_replicate; lia).
      split; [done|]. right. split; [done|].
      exists s. rewrite Hlen. split; [lia | done].
    + pose proof (no_inlier _ Hfind) as Hall.
      revert Hk. unfold keep_left. rewrite getitem_first, Hhd. simpl.
      unfold find_first. rewrite Hfind. intros Hk.
      pose proof (store_all_length _ _ _ _ Hk) as Hlen.
      split; [done|]. right. split; [done|].
      destruct (decide (Py.len l <= first_absent)) as [Hge|Hlt].
      { rewrite range_empty in Hk by done. injection Hk as <-.
        exists (length l). split; [done|].
        rewrite Nat.sub_diag. simpl. by rewrite app_nil_r. }
      destruct (decide (0 <= first_absent)) as [Hpos|Hneg].
      { unfold Py.len in *. exists (Z.to_nat first_absent). rewrite Hlen.
        split; [lia|].
        set (a := Z.to_nat first_absent) in *.
        replace first_absent with (Z.of_nat a) in Hk by lia.
        replace (length l) with (a + (length l - a))%nat in Hk at 1 by lia.
        rewrite store_all_inside in Hk by lia. injection Hk as <-.
        replace (a + (length l - a))%nat with (length l) by lia.
        rewrite drop_all, app_nil_r. f_equal.
        rewrite Hall, take_replicate. f_equal. lia. }
      destruct (decide (- Py.len l <= first_absent)) as [Hin|Hout].
      { rewrite store_all_wrap in Hk by lia. injection Hk as <-.
        exists 0%nat. rewrite length_replicate. split; [lia|].
        simpl. by rewrite Nat.sub_0_r. }
      rewrite store_all_low in Hk by (unfold Py.len in *; lia). done.
  - rewrite keep_left_unflagged in Hk by done. injection Hk as <-. auto.
  - unfold keep_left in Hk. rewrite getitem_first, Hhd in Hk. done.
Qed.

(** The right loop with an inlier in the array: the points after the
    last inlier stay flagged, the others are cleared. *)
Lemma keep_right_found l i x :
  last l = Some true ->
  list_find (fun b => b = false) (reverse l) = Some (i, x) ->
  keep_right last_absent l
  = Ok (replicate (length l - i) false ++ replicate i true).
Proof.
  intros Hlast Hfind. unfold keep_right. rewrite getitem_last, Hlast. simpl.
  unfold find_last. rewrite Hfind.
  destruct (last_inlier_Some _ _ _ Hfind) as (_ & Ht & Hlt & Hdrop).
  rewrite store_all_front by lia. f_equal.
  rewrite (drop_S l false) by done. rewrite Hdrop.
  replace (length l - i)%nat with (S (length l - 1 - i)) by lia.
  rewrite replicate_S_end, <- app_assoc. simpl. do 3 f_equal. lia.
Qed.

Lemma keep_right_unflagged l :
  last l = Some false -> keep_right last_absent l = Ok l.
Proof. intros Hl. unfold keep_right. by rewrite getitem_last, Hl. Qed.

Lemma keep_right_shape l l' :
  keep_right last_absent l = Ok l' ->
  length l' = length l
  /\ ((last l = Some false /\ l' = l) \/ (last l = Some true /\ suffix_flagged l')).
Proof.
  intros Hk.
  destruct (last l) as [[|]|] eqn:Hlast.
  - destruct (list_find (fun b => b = false) (reverse l)) as [[i x]|] eqn:Hfind.
    + rewrite (keep_right_found _ _ _ Hlast Hfind) in Hk. injection Hk as <-.
      destruct (last_inlier_Some _ _ _ Hfind) as (_ & _ & Hlt & _).
      assert (Hlen : length (replicate (length l - i) false ++ replicate i true)
                     = length l)
        by (rewrite length_app, !length_replicate; lia).
      split; [done|]. right. split; [done|].
      exists (length l - i)%nat. rewrite Hlen. split; [lia|].
      do 2 f_equal. lia.
    + pose proof (no_inlier_reverse _ Hfind) as Hall.
      revert Hk. unfold keep_right. rewrite getitem_last, Hlast. simpl.
      unfold find_last. rewrite Hfind. intros Hk.
      pose proof (store_all_length _ _ _ _ Hk) as Hlen.
      split; [done|]. right. split; [done|].
      destruct (decide (last_absent <= 0)) as [Hle|Hpos].
      { rewrite range_empty in Hk by done. injection Hk as <-.
        exists 0%nat. split; [lia|]. simpl. by rewrite Nat.sub_0_r. }
      destruct (decide (last_absent <= Py.len l)) as [Hin|Hout].
      { unfold Py.len in *. exists (Z.to_nat last_absent). rewrite Hlen.
        split; [lia|].
        set (b := Z.to_nat last_absent) in *.
        replace last_absent with (Z.of_nat b) in Hk by lia.
        rewrite store_all_front in Hk by lia. injection Hk as <-.
        f_equal. rewrite Hall, drop_replicate. by rewrite length_replicate. }
      rewrite store_all_past in Hk by lia. done.
  - rewrite keep_right_unflagged in Hk by done. injection Hk as <-. auto.
  - unfold keep_right in Hk. rewrite getitem_last, Hlast in Hk. done.
Qed.

Lemma force_break_shape l l' :
  force_break l = Ok l' ->
  (l' = l /\ (head l = Some true \/ last l = Some true))
  \/ (l' = replicate (length l) false /\ head l = Some false /\ last l = Some false).
Proof.
  unfold force_break. rewrite getitem_first, getitem_last.
  destruct (head l) as [[|]|]; simpl; [intros [= <-]; auto| |done].
  destruct (last l) as [[|]|]; simpl; [intros [= <-]; auto| |done].
  intros [= <-]. auto.
Qed.

Lemma all_clear_prefix_flagged n : prefix_flagged (replicate n false).
Proof.
  exists 0%nat. rewrite length_replicate. split; [lia|].
  simpl. by rewrite Nat.sub_0_r.
Qed.

(** After the correction the flagged points are a prefix or a suffix of
    the array. *)
Lemma edge_correct_shape l l' :
  edge_correct first_absent last_absent l = Ok l' ->
  length l' = length l /\ (prefix_flagged l' \/ suffix_flagged l').
Proof.
  unfold edge_correct.
  intros (a1 & H1 & (a2 & H2 & H3)%bind_Ok)%bind_Ok.
  destruct (keep_left_shape _ _ H1) as [Hlen1 Hs1].
  destruct (keep_right_shape _ _ H2) as [Hlen2 Hs2].
  destruct (force_break_shape _ _ H3) as [[-> _]|(-> & Hh & Hl)].
  - split; [congruence|].
    destruct Hs2 as [[Hl ->]|[_ Hsuf]]; [|by right].
    destruct Hs1 as [[Hh ->]|[_ Hpre]]; [|by left].
    unfold force_break in H3. rewrite getitem_first, getitem_last, Hh, Hl in H3.
    simpl in H3. injection H3 as H3. rewrite <- H3 at 1. left.
    rewrite <- H3 at 1. apply all_clear_prefix_flagged.
  - rewrite length_replicate. split; [congruence|].
    left. apply all_clear_prefix_flagged.
Qed.
End EdgeFacts.

(** ** One iteration, and the loop as a run *)

Section TrimFacts.
Context {E : Type} (E_le : relation E) `{!RelDecision E_le}.
Variable HBOS : Q -> list (E * Q) -> nat -> bool.
Variable Smoother_fit : list E -> nat -> Q * Q.
Variables first_absent last_absent : Z.

Local Abbreviation iteration := (trim_iteration HBOS Smoother_fit first_absent last_absent).
Local Abbreviation loop := (trim_loop HBOS Smoother_fit first_absent last_absent).
Local Abbreviation run := (trim_run HBOS Smoother_fit first_absent last_absent).

Implicit Types (df prev : snapshot E) (results out : list (snapshot E)).

Lemma labels_initial_snapshot untrimmed :
  labels (initial_snapshot E_le Smoother_fit untrimmed)
  = replicate (length untrimmed) inlier.
Proof.
  unfold labels, initial_snapshot. apply list_eq. intros i.
  rewrite list_lookup_fmap, list_lookup_imap.
  destruct (untrimmed !! i) as [e|] eqn:He; simpl.
  - rewrite lookup_replicate_2; [done|]. by eapply lookup_lt_Some.
  - symmetry. apply lookup_replicate_None. by apply lookup_ge_None.
Qed.

Lemma eigs_initial_snapshot untrimmed :
  eigs <$> initial_snapshot E_le Smoother_fit untrimmed = untrimmed.
Proof.
  unfold initial_snapshot. apply list_eq. intros i.
  rewrite list_lookup_fmap, list_lookup_imap.
  by destruct (untrimmed !! i).
Qed.

(** What one iteration makes of the last snapshot. *)
Lemma iteration_spec tolerance prev df is_outlier :
  iteration tolerance prev = Ok (df, is_outlier) ->
  let kept := filter (fun r => is_inlier r = true) prev in
  length df = length kept
  /\ length is_outlier = length kept
  /\ eigs <$> df = eigs <$> kept
  /\ labels df = label_of <$> is_outlier
  /\ (prefix_flagged is_outlier \/ suffix_flagged is_outlier).
Proof.
  unfold trim_iteration. intros (flags & Hedge & [= <- <-])%bind_Ok. simpl.
  destruct (edge_correct_shape _ _ _ _ Hedge) as [Hlen Hshape].
  rewrite length_fmap, length_seq in Hlen.
  set (kept := filter (fun r => is_inlier r = true) prev) in *.
  clearbody kept.
  repeat split; [by rewrite length_imap|done| | |done].
  - apply list_eq. intros i. rewrite !list_lookup_fmap, list_lookup_imap.
    destruct (kept !! i); reflexivity.
  - unfold labels. apply list_eq. intros i.
    rewrite !list_lookup_fmap, list_lookup_imap.
    destruct (kept !! i) as [r|] eqn:Hr; simpl.
    + destruct (lookup_lt_is_Some_2 flags i) as [b Hb].
      { rewrite Hlen. by eapply lookup_lt_Some. }
      by rewrite Hb.
    + rewrite lookup_ge_None_2; [done|]. rewrite Hlen. by apply lookup_ge_None.
Qed.

Lemma loop_run untrimmed tolerance max_trim remaining results out :
  loop untrimmed tolerance max_trim remaining results = Ok out ->
  run untrimmed tolerance max_trim remaining results out.
Proof.
  revert results. induction remaining as [|remaining IH]; intros results; simpl;
    rewrite getitem_last.
  - destruct (last results) as [df|] eqn:Hlast; [simpl|done].
    intros (ratio & Hratio & Hrest)%bind_Ok.
    destruct (Qgtb ratio max_trim) eqn:Hgt; injection Hrest as <-.
    + by eapply run_exhausted.
    + by eapply run_enough.
  - destruct (last results) as [prev|] eqn:Hlast; [simpl|done].
    intros (ratio & Hratio & Hrest)%bind_Ok.
    destruct (Qgtb ratio max_trim) eqn:Hgt.
    + apply bind_Ok in Hrest as ([df flags] & Hstep & Hrest). simpl in Hrest.
      destruct (forallb negb flags) eqn:Hall.
      * injection Hrest as <-. by eapply run_break.
      * eapply run_again; eauto.
    + injection Hrest as <-. by eapply run_enough.
Qed.
End TrimFacts.

(** ** Runs of the loop *)

Section TrimRunFacts.
Context {E : Type}.
Variable HBOS : Q -> list (E * Q) -> nat -> bool.
Variable Smoother_fit : list E -> nat -> Q * Q.
Variables first_absent last_absent : Z.
Variables (untrimmed : list E) (tolerance max_trim : Q).

Local Abbreviation iteration := (trim_iteration HBOS Smoother_fit first_absent last_absent).
Local Abbreviation run :=
  (trim_run HBOS Smoother_fit first_absent last_absent untrimmed tolerance max_trim).

Implicit Types (df prev : list (row E)) (results out : list (list (row E))).

Lemma outlier_flagged (flags : list bool) :
  outlier ∈ label_of <$> flags <-> forallb negb flags = false.
Proof.
  induction flags as [|[|] flags IH]; simpl.
  - split; [by intros ?%elem_of_nil | done].
  - split; [done | intros _; left].
  - rewrite <- IH. split.
    + by intros [?|?]%elem_of_cons.
    + by right.
Qed.

Lemma run_extends remaining results out :
  run remaining results out ->
  exists more, out = results ++ more /\ (length more <= remaining)%nat.
Proof.
  induction 1 as [rem results df ratio _ _ _ | results df ratio _ _ _
                 | rem results prev ratio df flags _ _ _ _ _
                 | rem results prev ratio df flags out _ _ _ _ _ _ IH].
  - exists []. by rewrite app_nil_r; simpl; split; [|lia].
  - exists []. by rewrite app_nil_r.
  - exists [df]. simpl. split; [done|lia].
  - destruct IH as (more & -> & Hlen). exists (df :: more).
    rewrite <- app_assoc. simpl. split; [done|lia].
Qed.

(** Every snapshot a run appends is the iteration of the one before. *)
Lemma run_steps remaining results out :
  run remaining results out ->
  forall k prev df,
    (length results <= S k)%nat -> out !! k = Some prev -> out !! S k = Some df ->
    exists is_outlier, iteration tolerance prev = Ok (df, is_outlier).
Proof.
  induction 1 as [rem results df0 ratio _ _ _ | results df0 ratio _ _ _
                 | rem results prev0 ratio df0 flags Hlast _ _ Hstep _
                 | rem results prev0 ratio df0 flags out Hlast _ _ Hstep _ Hrun IH];
    intros k prev df Hk Hprev Hdf.
  - apply lookup_lt_Some in Hdf. lia.
  - apply lookup_lt_Some in Hdf. lia.
  - pose proof (lookup_lt_Some _ _ _ Hdf) as Hlt.
    rewrite length_app in Hlt. simpl in Hlt.
    assert (S k = length results) as Hk' by lia.
    rewrite Hk', list_lookup_middle in Hdf by done. injection Hdf as <-.
    rewrite lookup_app_l in Hprev by lia.
    rewrite last_lookup in Hlast.
    replace (pred (length results)) with k in Hlast by lia.
    rewrite Hprev in Hlast. injection Hlast as <-. eauto.
  - destruct (decide (S k = length results)) as [Hk'|Hk'].
    + destruct (run_extends _ _ _ Hrun) as (more & -> & _).
      rewrite <- app_assoc in Hprev, Hdf. simpl in Hdf.
      rewrite Hk', list_lookup_middle in Hdf by done. injection Hdf as <-.
      rewrite lookup_app_l in Hprev by lia.
      rewrite last_lookup in Hlast.
      replace (pred (length results)) with k in Hlast by lia.
      rewrite Hprev in Hlast. injection Hlast as <-. eauto.
    + apply (IH k); [|done..]. rewrite length_app. simpl. lia.
Qed.

(** When a run goes on: after the snapshot at position [k] another one
    follows exactly when that snapshot, if the run appended it, has an
    outlier, its length over the length of the spectrum exceeds
    [max_trim], and iterations are left. *)
Lemma run_continues remaining results out :
  run remaining results out ->
  forall k df,
    (length results <= S k)%nat -> out !! k = Some df ->
    ((S k < length out)%nat <->
     ((length results < S k)%nat -> has_outlier df)
     /\ (exists ratio, kept_ratio untrimmed df = Ok ratio /\ Qgtb ratio max_trim = true)
     /\ (S k - length results < remaining)%nat).
Proof.
  induction 1 as [rem results df0 ratio Hlast Hratio Hgt
                 | results df0 ratio Hlast Hratio Hgt
                 | rem results prev0 ratio df0 flags Hlast Hratio Hgt Hstep Hall
                 | rem results prev0 ratio df0 flags out Hlast Hratio Hgt Hstep Hall Hrun IH];
    intros k df Hk Hdf; pose proof (lookup_lt_Some _ _ _ Hdf) as Hlt.
  - assert (S k = length results) as Hk' by lia.
    rewrite last_lookup in Hlast.
    replace (pred (length results)) with k in Hlast by lia.
    rewrite Hdf in Hlast. injection Hlast as <-.
    split; [lia|]. intros (_ & (r & Hr & Hgt') & _). congruence.
  - split; lia.
  - rewrite length_app in *. simpl in *.
    destruct (decide (S k = length results)) as [Hk'|Hk'].
    + rewrite lookup_app_l in Hdf by lia.
      rewrite last_lookup in Hlast.
      replace (pred (length results)) with k in Hlast by lia.
      rewrite Hdf in Hlast. injection Hlast as <-.
      split; [intros _|lia]. split; [lia|]. split; [eauto|lia].
    + assert (k = length results) as -> by lia.
      rewrite list_lookup_middle in Hdf by done. injection Hdf as <-.
      split; [lia|]. intros (Hout & _ & _). exfalso.
      specialize (Hout ltac:(lia)). unfold has_outlier in Hout.
      destruct (iteration_spec _ _ _ _ _ _ _ _ Hstep) as (_ & _ & _ & Hlabels & _).
      rewrite Hlabels in Hout. apply outlier_flagged in Hout. congruence.
  - destruct (run_extends _ _ _ Hrun) as (more & Hout & Hmore).
    destruct (decide (S k = length results)) as [Hk'|Hk'].
    + assert (df = prev0) as ->.
      { rewrite Hout, <- app_assoc, lookup_app_l in Hdf by lia.
        rewrite last_lookup in Hlast.
        replace (pred (length results)) with k in Hlast by lia. congruence. }
      assert (S k < length out)%nat
        by (rewrite Hout, !length_app; simpl; lia).
      split; [intros _|done]. split; [lia|]. split; [eauto|lia].
    + specialize (IH k df). rewrite length_app in IH. simpl in IH.
      rewrite IH by (done || lia).
      assert (length results < S k)%nat by lia.
      destruct (decide (k = length results)) as [->|Hne].
      * assert (df = df0) as ->.
        { rewrite Hout, <- app_assoc in Hdf. simpl in Hdf.
          rewrite list_lookup_middle in Hdf by done. congruence. }
        assert (has_outlier df0).
        { destruct (iteration_spec _ _ _ _ _ _ _ _ Hstep) as (_ & _ & _ & Hlabels & _).
          unfold has_outlier. rewrite Hlabels. by apply outlier_flagged. }
        split; intros (? & ? & ?); (split; [done|split; [done|lia]]).
      * split; intros (Ho & ? & ?); (split; [intros; apply Ho; lia|split; [done|lia]]).
Qed.
End TrimRunFacts.

(** ** Shapes of the labels; the correction returns *)

Section ShapeFacts.
Lemma prefix_flagged_labels flags :
  prefix_flagged flags -> outlier_prefix (label_of <$> flags).
Proof.
  intros (k & Hk & Heq). exists k. rewrite length_fmap. split; [done|].
  rewrite Heq at 1. by rewrite fmap_app, !fmap_replicate.
Qed.

Lemma suffix_flagged_labels flags :
  suffix_flagged flags -> outlier_suffix (label_of <$> flags).
Proof.
  intros (k & Hk & Heq). exists k. rewrite length_fmap. split; [done|].
  rewrite Heq at 1. by rewrite fmap_app, !fmap_replicate.
Qed.

Lemma lookup_two_runs {A} (x y : A) a b i :
  (replicate a x ++ replicate b y) !! i
  = if decide (i < a)%nat then Some x
    else if decide (i < a + b)%nat then Some y else None.
Proof.
  destruct (decide (i < a)%nat).
  - rewrite lookup_app_l by (rewrite length_replicate; lia).
    by apply lookup_replicate_2.
  - rewrite lookup_app_r by (rewrite length_replicate; lia).
    rewrite length_replicate. destruct (decide (i < a + b)%nat).
    + apply lookup_replicate_2. lia.
    + apply lookup_replicate_None. lia.
Qed.

Lemma outlier_prefix_no_interior ls : outlier_prefix ls -> no_interior_outlier ls.
Proof.
  intros (a & Ha & Heq) i j k Hijk. rewrite Heq, !lookup_two_runs.
  repeat case_decide; try done; lia.
Qed.

Lemma outlier_suffix_no_interior ls : outlier_suffix ls -> no_interior_outlier ls.
Proof.
  intros (a & Ha & Heq) i j k Hijk. rewrite Heq, !lookup_two_runs.
  repeat case_decide; try done; lia.
Qed.

Lemma head_two_runs {A} (x y : A) a b :
  head (replicate a x ++ replicate b y)
  = if decide (0 < a)%nat then Some x
    else if decide (0 < b)%nat then Some y else None.
Proof. destruct a, b; done. Qed.

Lemma last_two_runs {A} (x y : A) a b :
  last (replicate a x ++ replicate b y)
  = if decide (0 < b)%nat then Some y
    else if decide (0 < a)%nat then Some x else None.
Proof.
  rewrite last_lookup, lookup_two_runs, length_app, !length_replicate.
  repeat case_decide; try done; lia.
Qed.

(** With neither end flagged, nothing is flagged. *)
Lemma ends_clear_all_clear flags :
  prefix_flagged flags \/ suffix_flagged flags ->
  head flags = Some false -> last flags = Some false ->
  flags = replicate (length flags) false.
Proof.
  intros [(k & Hk & Heq)|(k & Hk & Heq)] Hhd Hlast.
  - rewrite Heq, head_two_runs in Hhd.
    destruct (decide (0 < k)%nat); [done|].
    assert (k = 0%nat) as -> by lia. simpl in Heq.
    by rewrite Nat.sub_0_r in Heq.
  - rewrite Heq, last_two_runs in Hlast.
    destruct (decide (0 < length flags - k)%nat); [done|].
    assert (length flags - k = 0)%nat as Hz by lia.
    rewrite Hz in Heq. simpl in Heq. rewrite app_nil_r in Heq.
    rewrite Heq at 1. f_equal. lia.
Qed.
End ShapeFacts.

Section RunMembers.
Lemma elem_of_two_runs_r {A} (x y : A) a b :
  (0 < b)%nat -> y ∈ replicate a x ++ replicate b y.
Proof.
  intros Hb. apply elem_of_app. right. destruct b; [lia|]. by left.
Qed.

Lemma elem_of_two_runs_l {A} (x y : A) a b :
  (0 < a)%nat -> x ∈ replicate a x ++ replicate b y.
Proof.
  intros Ha. apply elem_of_app. left. destruct a; [lia|]. by left.
Qed.
End RunMembers.

Section EdgeReturns.
Variables first_absent last_absent : Z.
Hypothesis absent_ok : -1 <= first_absent <= 0.

Lemma keep_left_returns l :
  l <> [] -> exists a1, keep_left first_absent l = Ok a1 /\ false ∈ a1.
Proof.
  intros Hne. destruct l as [|b l]; [done|]. destruct b.
  - destruct (list_find (fun b => b = false) (true :: l)) as [[s x]|] eqn:Hfind.
    + rewrite (keep_left_found first_absent (true :: l) s x eq_refl Hfind).
      destruct (first_inlier_Some _ _ _ Hfind) as (_ & _ & Hlt & _).
      eexists. split; [done|]. apply elem_of_two_runs_r. lia.
    + unfold keep_left. rewrite getitem_first. simpl.
      unfold find_first. rewrite Hfind.
      rewrite store_all_wrap by (unfold Py.len; simpl length; lia).
      eexists. split; [done|]. simpl. by left.
  - rewrite keep_left_unflagged by done. eexists. split; [done|]. by left.
Qed.

Lemma keep_right_returns l :
  false ∈ l -> exists a2, keep_right last_absent l = Ok a2 /\ false ∈ a2.
Proof.
  intros Hin.
  destruct (last l) as [[|]|] eqn:Hlast.
  - destruct (list_find_elem_of (fun b => b = false) (reverse l) false)
      as [[i x] Hfind]; [by apply elem_of_reverse|done|].
    rewrite (keep_right_found _ _ _ _ Hlast Hfind).
    destruct (last_inlier_Some _ _ _ Hfind) as (_ & _ & Hlt & _).
    eexists. split; [done|]. apply elem_of_two_runs_l. lia.
  - rewrite keep_right_unflagged by done. eauto.
  - apply last_None in Hlast. subst l. by apply elem_of_nil in Hin.
Qed.

Lemma force_break_returns l :
  false ∈ l -> exists a3, force_break l = Ok a3 /\ false ∈ a3.
Proof.
  intros Hin. unfold force_break. rewrite getitem_first, getitem_last.
  destruct l as [|b l]; [by apply elem_of_nil in Hin|].
  simpl head. destruct b; simpl; [eauto|].
  destruct (last (false :: l)) as [[|]|] eqn:Hlast; simpl; [eauto| |].
  - eexists. split; [done|]. by left.
  - by apply last_None in Hlast.
Qed.

(** On a non-empty array the correction returns, and leaves an inlier. *)
Lemma edge_correct_returns l :
  l <> [] ->
  exists l', edge_correct first_absent last_absent l = Ok l' /\ false ∈ l'.
Proof.
  intros Hne. unfold edge_correct.
  destruct (keep_left_returns l Hne) as (a1 & -> & H1). simpl.
  destruct (keep_right_returns a1 H1) as (a2 & -> & H2). simpl.
  by apply force_break_returns.
Qed.
End EdgeReturns.

(** ** The loop returns *)

Section LoopFacts.
Context {E : Type} (E_le : relation E) `{!RelDecision E_le}.
Variable HBOS : Q -> list (E * Q) -> nat -> bool.
Variable Smoother_fit : list E -> nat -> Q * Q.
Variables first_absent last_absent : Z.

Local Abbreviation iteration := (trim_iteration HBOS Smoother_fit first_absent last_absent).
Local Abbreviation loop := (trim_loop HBOS Smoother_fit first_absent last_absent).
Local Abbreviation run := (trim_run HBOS Smoother_fit first_absent last_absent).
Local Abbreviation trim_iters :=
  (get_trim_iters E_le HBOS Smoother_fit first_absent last_absent).

Implicit Types (df prev : list (row E)) (results out : list (list (row E))).

Lemma Qgtb_lt (a b : Q) : Qgtb a b = true <-> (b < a)%Q.
Proof.
  unfold Qgtb. rewrite negb_true_iff, <- not_true_iff_false, Qle_bool_iff.
  split; [apply Qnot_le_lt | apply Qlt_not_le].
Qed.

Lemma kept_ratio_Ok (untrimmed : list E) df ratio :
  kept_ratio untrimmed df = Ok ratio <->
  untrimmed <> [] /\ ratio = (Qlen df / Qlen untrimmed)%Q.
Proof.
  unfold kept_ratio, Py.truediv, Qlen, Py.len.
  destruct untrimmed as [|e es]; simpl length.
  - rewrite decide_True by done. split; [done|]. by intros [? _].
  - rewrite decide_False by lia. split.
    + by intros [= <-].
    + by intros [_ ->].
Qed.

Lemma inlier_labelled df :
  inlier ∈ labels df <-> filter (fun r => is_inlier r = true) df <> [].
Proof.
  unfold labels. induction df as [|r df IH]; simpl.
  - split; [by intros ?%elem_of_nil | done].
  - rewrite filter_cons. case_decide as Hr.
    + apply bool_decide_eq_true in Hr. rewrite Hr.
      split; [done | intros _; left].
    + rewrite <- IH. split; [|by right].
      intros [Hc|?]%elem_of_cons; [|done].
      exfalso. apply Hr. unfold is_inlier. by apply bool_decide_eq_true.
Qed.

Section Returns.
Hypothesis absent_ok : -1 <= first_absent <= 0.

Lemma iteration_returns tolerance prev :
  inlier ∈ labels prev ->
  exists df is_outlier,
    iteration tolerance prev = Ok (df, is_outlier) /\ inlier ∈ labels df.
Proof.
  intros Hin%inlier_labelled.
  set (kept := filter (fun r => is_inlier r = true) prev) in *.
  set (detected :=
         HBOS tolerance ((fun r => (eigs r, steps r)) <$> kept)
         <$> seq 0 (length kept)).
  destruct (edge_correct_returns first_absent last_absent absent_ok detected)
    as (flags & Hflags & Hfalse).
  { intros Hnil%(f_equal length). subst detected.
    rewrite length_fmap, length_seq in Hnil.
    by apply Hin, nil_length_inv. }
  assert (exists df, iteration tolerance prev = Ok (df, flags)) as [df Hit].
  { unfold trim_iteration. fold kept. fold detected. rewrite Hflags. simpl. eauto. }
  exists df, flags. split; [done|].
  destruct (iteration_spec _ _ _ _ _ _ _ _ Hit) as (_ & _ & _ & -> & _).
  by apply (list_elem_of_fmap_2 label_of) in Hfalse.
Qed.

Lemma loop_returns untrimmed tolerance max_trim remaining results :
  untrimmed <> [] ->
  (exists df, last results = Some df /\ inlier ∈ labels df) ->
  exists out, loop untrimmed tolerance max_trim remaining results = Ok out.
Proof.
  intros Hne. revert results.
  induction remaining as [|remaining IH]; intros results (prev & Hlast & Hin);
    simpl; rewrite getitem_last, Hlast; simpl.
  - unfold Py.truediv. rewrite decide_False
      by (unfold Py.len; destruct untrimmed; [done | simpl; lia]).
    simpl. destruct (Qgtb _ _); eauto.
  - unfold Py.truediv. rewrite decide_False
      by (unfold Py.len; destruct untrimmed; [done | simpl; lia]).
    simpl. destruct (Qgtb _ _); [|eauto].
    destruct (iteration_returns tolerance prev Hin) as (df & flags & -> & Hdf).
    simpl. destruct (forallb negb flags); [eauto|].
    apply IH. exists df. split; [|done]. by rewrite last_snoc.
Qed.

Lemma trim_iters_returns untrimmed tolerance max_trim max_iters :
  untrimmed <> [] ->
  exists snaps, trim_iters untrimmed tolerance max_trim max_iters = Ok snaps.
Proof.
  intros Hne. apply loop_returns; [done|].
  eexists. split; [done|]. rewrite labels_initial_snapshot.
  destruct untrimmed; [done|]. by left.
Qed.
End Returns.

Lemma run_nonempty untrimmed tolerance max_trim remaining results out :
  run untrimmed tolerance max_trim remaining results out -> untrimmed <> [].
Proof.
  induction 1 as [???? _ Hr _|??? _ Hr _|?????? _ Hr _ _ _|??????? _ Hr _ _ _ _ _];
    by apply kept_ratio_Ok in Hr as [? _].
Qed.

Lemma trim_iters_run untrimmed tolerance max_trim max_iters snaps :
  trim_iters untrimmed tolerance max_trim max_iters = Ok snaps ->
  run untrimmed tolerance max_trim max_iters
    [initial_snapshot E_le Smoother_fit untrimmed] snaps.
Proof. apply loop_run. Qed.
End LoopFacts.

Section RunInliers.
Context {E : Type}.
Variable HBOS : Q -> list (E * Q) -> nat -> bool.
Variable Smoother_fit : list E -> nat -> Q * Q.
Variables first_absent last_absent : Z.
Variables (untrimmed : list E) (tolerance max_trim : Q).
Local Abbreviation run :=
  (trim_run HBOS Smoother_fit first_absent last_absent untrimmed tolerance max_trim).

(** Every snapshot of a run holds an inlier, when those it starts from do. *)
Lemma run_inliers remaining (results out : list (list (row E))) :
  -1 <= first_absent <= 0 ->
  run remaining results out ->
  Forall (fun df => inlier ∈ labels df) results ->
  Forall (fun df => inlier ∈ labels df) out.
Proof.
  intros absent_ok. induction 1 as [rem results df ratio _ _ _ | results df ratio _ _ _
                 | rem results prev ratio df flags Hlast _ _ Hstep _
                 | rem results prev ratio df flags out Hlast _ _ Hstep _ _ IH];
    intros Hall; [done|done| |apply IH];
    (apply Forall_app; split; [done|]; apply Forall_singleton;
     assert (Hprev : inlier ∈ labels prev)
       by (rewrite Forall_forall in Hall; apply Hall;
           apply last_Some in Hlast as [front ->];
           apply elem_of_app; right; by left);
     pose proof (iteration_returns HBOS Smoother_fit first_absent last_absent
                   absent_ok tolerance prev Hprev) as (df' & flags' & Hstep' & Hdf);
     rewrite Hstep in Hstep'; by injection Hstep' as -> _).
Qed.
End RunInliers.

(** ** The trim iteration: snapshots, loop test, termination *)

Section TrimClaims.
Context {E : Type} (E_le : relation E) `{!RelDecision E_le}.
Variable HBOS : Q -> list (E * Q) -> nat -> bool.
Variable Smoother_fit : list E -> nat -> Q * Q.
Variables first_absent last_absent : Z.

Local Abbreviation iteration := (trim_iteration HBOS Smoother_fit first_absent last_absent).
Local Abbreviation trim_iters :=
  (get_trim_iters E_le HBOS Smoother_fit first_absent last_absent).

Implicit Types (df prev : list (row E)) (snaps : list (list (row E))).

(** Every snapshot after the zeroth is the iteration of the one before. *)
Lemma trim_iters_step untrimmed tolerance max_trim max_iters snaps k df :
  trim_iters untrimmed tolerance max_trim max_iters = Ok snaps ->
  snaps !! S k = Some df ->
  exists prev is_outlier,
    snaps !! k = Some prev /\ iteration tolerance prev = Ok (df, is_outlier).
Proof.
  intros Hrun%trim_iters_run Hdf.
  destruct (lookup_lt_is_Some_2 snaps k) as [prev Hprev].
  { apply lookup_lt_Some in Hdf. lia. }
  destruct (run_steps _ _ _ _ _ _ _ _ _ _ Hrun k prev df) as [flags Hit];
    [simpl; lia|done..|].
  eauto.
Qed.

(** C1: in every snapshot after the zeroth the outliers are a prefix or
    a suffix of the labels, and no outlier lies strictly between two
    inliers. *)
Theorem trim_snapshots_contiguous untrimmed tolerance max_trim max_iters snaps :
  trim_iters untrimmed tolerance max_trim max_iters = Ok snaps ->
  forall i df, (0 < i)%nat -> snaps !! i = Some df ->
    (outlier_prefix (labels df) \/ outlier_suffix (labels df))
    /\ no_interior_outlier (labels df).
Proof.
  intros Hrun i df Hi Hdf. destruct i as [|k]; [lia|].
  destruct (trim_iters_step _ _ _ _ _ _ _ Hrun Hdf) as (prev & flags & _ & Hit).
  destruct (iteration_spec _ _ _ _ _ _ _ _ Hit) as (_ & _ & _ & -> & Hshape).
  destruct Hshape as [Hp%prefix_flagged_labels|Hs%suffix_flagged_labels].
  - split; [by left | by apply outlier_prefix_no_interior].
  - split; [by right | by apply outlier_suffix_no_interior].
Qed.

(** C3, amended: after [k] snapshots the loop runs another iteration
    exactly when the last of them, if an iteration made it, has an
    outlier, its number of rows over the size of the spectrum exceeds
    [max_trim], and fewer than [max_iters] iterations have run. *)
Theorem trim_loop_continues_iff untrimmed tolerance max_trim max_iters snaps :
  trim_iters untrimmed tolerance max_trim max_iters = Ok snaps ->
  forall k, (1 <= k <= length snaps)%nat ->
    ((k < length snaps)%nat
     <-> loop_continues untrimmed max_trim max_iters (take k snaps)).
Proof.
  intros Hrun%trim_iters_run k Hk. destruct k as [|k]; [lia|].
  pose proof (run_nonempty _ _ _ _ _ _ _ _ _ _ Hrun) as Hne.
  destruct (lookup_lt_is_Some_2 snaps k) as [df Hdf]; [lia|].
  rewrite (run_continues _ _ _ _ _ _ _ _ _ _ Hrun k df) by (simpl; lia || done).
  simpl length. unfold loop_continues.
  assert (Hlast : last (take (S k) snaps) = Some df).
  { rewrite last_lookup, length_take, Nat.min_l by lia. simpl.
    by rewrite lookup_take_lt by lia. }
  rewrite length_take, Nat.min_l by lia.
  split.
  - intros (Hout & (ratio & Hr & Hgt) & Hiter).
    exists df. split; [done|]. split; [done|].
    apply kept_ratio_Ok in Hr as [_ ->]. apply Qgtb_lt in Hgt.
    split; [done|lia].
  - intros (df' & Hlast' & Hout & Hgt & Hiter).
    rewrite Hlast in Hlast'. injection Hlast' as <-.
    split; [done|]. split; [|lia].
    exists (Qlen df / Qlen untrimmed)%Q.
    split; [by apply kept_ratio_Ok | by apply Qgtb_lt].
Qed.

(** C4, amended: on a non-empty spectrum the trim iteration returns,
    whatever the integer [max_iters], with at least one and at most
    [max(max_iters, 0) + 1] snapshots; and a snapshot made by an
    iteration whose two ends are inliers has inliers only and is the
    last one. *)
Theorem get_trim_iters_terminates untrimmed tolerance max_trim (max_iters : Z) :
  untrimmed <> [] -> -1 <= first_absent <= 0 ->
  exists snaps,
    get_trim_iters_int E_le HBOS Smoother_fit first_absent last_absent
      untrimmed tolerance max_trim max_iters = Ok snaps
    /\ 1 <= Z.of_nat (length snaps) <= Z.max max_iters 0 + 1
    /\ forall k df, snaps !! S k = Some df ->
         head (labels df) = Some inlier -> last (labels df) = Some inlier ->
         labels df = replicate (length df) inlier /\ length snaps = S (S k).
Proof.
  intros Hne Habsent. unfold get_trim_iters_int.
  destruct (trim_iters_returns E_le HBOS Smoother_fit first_absent last_absent
              Habsent untrimmed tolerance max_trim (Z.to_nat max_iters) Hne)
    as [snaps Hsnaps].
  exists snaps. split; [done|].
  pose proof (trim_iters_run _ _ _ _ _ _ _ _ _ _ Hsnaps) as Hrun.
  destruct (run_extends _ _ _ _ _ _ _ _ _ _ Hrun) as (more & Hmore & Hlen).
  split; [rewrite Hmore, length_app; simpl; lia|].
  intros k df Hdf Hhd Hlast.
  destruct (trim_iters_step _ _ _ _ _ _ _ Hsnaps Hdf) as (prev & flags & _ & Hit).
  destruct (iteration_spec _ _ _ _ _ _ _ _ Hit) as (Hl1 & Hl2 & _ & Hlabels & Hshape).
  assert (Hflags : flags = replicate (length flags) false).
  { rewrite Hlabels in Hhd, Hlast.
    apply ends_clear_all_clear; [done| |].
    - destruct flags as [|[|] ?]; done.
    - rewrite fmap_last in Hlast. destruct (last flags) as [[|]|]; done. }
  assert (Hall : labels df = replicate (length df) inlier).
  { rewrite Hlabels, Hflags, fmap_replicate. simpl.
    f_equal. congruence. }
  split; [done|].
  pose proof (lookup_lt_Some _ _ _ Hdf) as Hlt.
  destruct (decide (S (S k) < length snaps)%nat) as [Hmore'|]; [|lia].
  apply (run_continues _ _ _ _ _ _ _ _ _ _ Hrun (S k) df) in Hmore';
    [|simpl; lia|done].
  destruct Hmore' as (Hout & _ & _). specialize (Hout ltac:(simpl; lia)).
  unfold has_outlier in Hout. rewrite Hall in Hout.
  by apply elem_of_replicate in Hout as [? _].
Qed.

(** Snapshot zero is the whole spectrum, every point an inlier. *)
Lemma trim_iters_first untrimmed tolerance max_trim max_iters snaps :
  trim_iters untrimmed tolerance max_trim max_iters = Ok snaps ->
  exists df, snaps !! 0%nat = Some df
    /\ eigs <$> df = untrimmed
    /\ labels df = replicate (length untrimmed) inlier.
Proof.
  intros Hrun%trim_iters_run.
  destruct (run_extends _ _ _ _ _ _ _ _ _ _ Hrun) as (more & -> & _).
  eexists. split; [done|].
  split; [apply eigs_initial_snapshot | apply labels_initial_snapshot].
Qed.
End TrimClaims.

Lemma trim_snapshots_contiguous_witness :
  exists snaps df,
    get_trim_iters Z.le Fixture.flag_first Fixture.ramp_fit (-1) (-1)
      Fixture.spectrum (1 # 10) (1 # 2) 7 = Ok snaps
    /\ snaps !! 1%nat = Some df
    /\ labels df = [outlier; inlier; inlier; inlier]
    /\ (outlier_prefix (labels df) \/ outlier_suffix (labels df))
    /\ no_interior_outlier (labels df).
Proof.
  destruct (get_trim_iters Z.le Fixture.flag_first Fixture.ramp_fit (-1) (-1)
              Fixture.spectrum (1 # 10) (1 # 2) 7) as [snaps|e] eqn:Hrun;
    [|vm_compute in Hrun; discriminate].
  pose proof Hrun as Hval. vm_compute in Hval. injection Hval as <-.
  eexists _, _. split; [reflexivity|].
  split; [reflexivity|]. split; [reflexivity|].
  apply (trim_snapshots_contiguous Z.le Fixture.flag_first Fixture.ramp_fit (-1) (-1)
           Fixture.spectrum (1 # 10) (1 # 2) 7 _ Hrun 1%nat); [lia | reflexivity].
Defined.

Lemma trim_loop_continues_iff_witness :
  exists snaps,
    get_trim_iters Z.le Fixture.flag_first Fixture.ramp_fit (-1) (-1)
      Fixture.spectrum (1 # 10) (1 # 2) 7 = Ok snaps
    /\ length snaps = 4%nat
    /\ ((3 < length snaps)%nat
        <-> loop_continues Fixture.spectrum (1 # 2) 7 (take 3 snaps)).
Proof.
  destruct (get_trim_iters Z.le Fixture.flag_first Fixture.ramp_fit (-1) (-1)
              Fixture.spectrum (1 # 10) (1 # 2) 7) as [snaps|e] eqn:Hrun;
    [|vm_compute in Hrun; discriminate].
  pose proof Hrun as Hval. vm_compute in Hval. injection Hval as <-.
  eexists. split; [reflexivity|]. split; [reflexivity|].
  apply (trim_loop_continues_iff Z.le Fixture.flag_first Fixture.ramp_fit (-1) (-1)
           Fixture.spectrum (1 # 10) (1 # 2) 7 _ Hrun 3%nat).
  simpl. lia.
Defined.

Lemma get_trim_iters_terminates_witness :
  exists snaps,
    get_trim_iters_int Z.le Fixture.flag_all Fixture.ramp_fit (-1) (-1)
      Fixture.spectrum (1 # 10) (1 # 2) 7 = Ok snaps
    /\ 1 <= Z.of_nat (length snaps) <= 7 + 1.
Proof.
  destruct (get_trim_iters_terminates Z.le Fixture.flag_all Fixture.ramp_fit (-1) (-1)
              Fixture.spectrum (1 # 10) (1 # 2) 7) as (snaps & Hrun & Hlen & _).
  - discriminate.
  - lia.
  - exists snaps. split; [exact Hrun | exact Hlen].
Defined.

(** C4, as stated, fails on two inputs.  On the empty spectrum the loop
    test divides 0 by 0 and the call raises ZeroDivisionError: no
    sequence is returned.  With [max_iters = -1] the call returns the
    one snapshot it starts with, more than [max_iters + 1 = 0]. *)
Lemma get_trim_iters_every_input_counterexample :
  get_trim_iters_int Z.le Fixture.flag_all Fixture.ramp_fit (-1) (-1)
    [] (1 # 10) (1 # 2) 7 = Raise ZeroDivisionError
  /\ ~ claimed_terminates Z.le Fixture.flag_all Fixture.ramp_fit (-1) (-1)
        [] (1 # 10) (1 # 2) 7
  /\ get_trim_iters_int Z.le Fixture.flag_all Fixture.ramp_fit (-1) (-1)
       Fixture.spectrum (1 # 10) (1 # 2) (-1)
     = Ok [initial_snapshot Z.le Fixture.ramp_fit Fixture.spectrum]
  /\ ~ claimed_terminates Z.le Fixture.flag_all Fixture.ramp_fit (-1) (-1)
        Fixture.spectrum (1 # 10) (1 # 2) (-1).
Proof.
  split; [reflexivity|]. split.
  { intros (snaps & Hrun & _). vm_compute in Hrun. discriminate Hrun. }
  split; [reflexivity|].
  intros (snaps & Hrun & Hlen). vm_compute in Hrun. injection Hrun as <-.
  simpl in Hlen. lia.
Qed.

(** C3, as stated, fails: with a detector that flags the first row of a
    spectrum of four and [max_trim = 1/2], the third snapshot has three
    rows and two inliers; two inliers out of four do not exceed 1/2, and
    yet the loop runs again and makes a fourth snapshot. *)
Lemma loop_test_counts_rows_counterexample :
  exists snaps,
    get_trim_iters Z.le Fixture.flag_first Fixture.ramp_fit (-1) (-1)
      Fixture.spectrum (1 # 10) (1 # 2) 7 = Ok snaps
    /\ (3 < length snaps)%nat
    /\ ~ claimed_continue Fixture.spectrum (1 # 2) 7 (take 3 snaps).
Proof.
  eexists. split; [vm_compute; reflexivity|]. split; [simpl; lia|].
  intros (df & Hlast & Hgt & _). vm_compute in Hlast. injection Hlast as <-.
  vm_compute in Hgt. discriminate.
Qed.

(** ** The snapshots as windows of the spectrum *)

Section Inliers.
Context {E : Type}.
Implicit Types (df : list (row E)).

Lemma filter_all_inliers df :
  labels df = replicate (length df) inlier ->
  filter (fun r => is_inlier r = true) df = df.
Proof.
  unfold labels. induction df as [|r df IH]; [done|]. simpl.
  intros [= Hr Hrest]. rewrite filter_cons.
  rewrite decide_True by (unfold is_inlier; by apply bool_decide_eq_true).
  by rewrite IH.
Qed.

Lemma filter_all_outliers df :
  labels df = replicate (length df) outlier ->
  filter (fun r => is_inlier r = true) df = [].
Proof.
  unfold labels. induction df as [|r df IH]; [done|]. simpl.
  intros [= Hr Hrest]. rewrite filter_cons.
  rewrite decide_False; [by apply IH|].
  unfold is_inlier. rewrite bool_decide_eq_true. congruence.
Qed.

Lemma labels_app df1 df2 : labels (df1 ++ df2) = labels df1 ++ labels df2.
Proof. apply fmap_app. Qed.

Lemma labels_split df a x y :
  (a <= length df)%nat ->
  labels df = replicate a x ++ replicate (length df - a) y ->
  labels (take a df) = replicate (length (take a df)) x
  /\ labels (drop a df) = replicate (length (drop a df)) y.
Proof.
  intros Ha Heq. unfold labels in *.
  rewrite length_take, length_drop, Nat.min_l by done.
  rewrite fmap_take, fmap_drop, Heq.
  rewrite take_app_length' by by rewrite length_replicate.
  rewrite drop_app_length' by by rewrite length_replicate.
  done.
Qed.

(** The inliers of a snapshot whose outliers are at one end: the
    snapshot without a prefix, or without a suffix. *)
Lemma inliers_one_end df :
  outlier_prefix (labels df) \/ outlier_suffix (labels df) ->
  exists a, (a <= length df)%nat
    /\ (filter (fun r => is_inlier r = true) df = drop a df
        \/ filter (fun r => is_inlier r = true) df = take a df).
Proof.
  unfold outlier_prefix, outlier_suffix, labels. rewrite length_fmap.
  intros [(a & Ha & Heq)|(a & Ha & Heq)]; exists a; (split; [done|]);
    destruct (labels_split df a _ _ Ha Heq) as [Htake Hdrop].
  - left. rewrite <- (take_drop a df) at 1. rewrite filter_app.
    by rewrite (filter_all_outliers _ Htake), (filter_all_inliers _ Hdrop).
  - right. rewrite <- (take_drop a df) at 1. rewrite filter_app.
    by rewrite (filter_all_inliers _ Htake), (filter_all_outliers _ Hdrop), app_nil_r.
Qed.

Lemma outlier_fewer_inliers df :
  outlier ∈ labels df ->
  (length (filter (fun r => is_inlier r = true) df) < length df)%nat.
Proof.
  unfold labels. induction df as [|r df IH]; simpl.
  - by intros ?%elem_of_nil.
  - rewrite filter_cons. pose proof (length_filter (fun r => is_inlier r = true) df).
    intros [Hr|Hin]%elem_of_cons.
    + rewrite decide_False; [lia|].
      unfold is_inlier. rewrite bool_decide_eq_true. congruence.
    + specialize (IH Hin). case_decide; simpl; lia.
Qed.
End Inliers.

Section Windows.
Context {E : Type} (E_le : relation E) `{!RelDecision E_le}.
Variable HBOS : Q -> list (E * Q) -> nat -> bool.
Variable Smoother_fit : list E -> nat -> Q * Q.
Variables first_absent last_absent : Z.

Local Abbreviation iteration := (trim_iteration HBOS Smoother_fit first_absent last_absent).
Local Abbreviation trim_iters :=
  (get_trim_iters E_le HBOS Smoother_fit first_absent last_absent).

Implicit Types (df prev : list (row E)) (snaps : list (list (row E))).

(** The labels of every snapshot have their outliers at one end. *)
Lemma trim_iters_labels untrimmed tolerance max_trim max_iters snaps k df :
  trim_iters untrimmed tolerance max_trim max_iters = Ok snaps ->
  snaps !! k = Some df ->
  outlier_prefix (labels df) \/ outlier_suffix (labels df).
Proof.
  intros Hrun Hdf. destruct k as [|k].
  - destruct (trim_iters_first _ _ _ _ _ _ _ _ _ _ Hrun) as (df0 & Hdf0 & Heigs & Hlabels).
    rewrite Hdf in Hdf0. injection Hdf0 as <-.
    left. exists 0%nat. split; [lia|].
    by rewrite Hlabels, length_replicate, Nat.sub_0_r.
  - destruct (trim_iters_step _ _ _ _ _ _ _ _ _ _ _ _ Hrun Hdf)
      as (prev & flags & _ & Hit).
    destruct (iteration_spec _ _ _ _ _ _ _ _ Hit) as (_ & _ & _ & -> & Hshape).
    destruct Hshape as [Hp%prefix_flagged_labels|Hs%suffix_flagged_labels]; auto.
Qed.

(** A snapshot holds the eigenvalues of the one before, without a
    prefix or without a suffix. *)
Lemma trim_iters_one_end untrimmed tolerance max_trim max_iters snaps k prev df :
  trim_iters untrimmed tolerance max_trim max_iters = Ok snaps ->
  snaps !! k = Some prev -> snaps !! S k = Some df ->
  exists a, (a <= length prev)%nat
    /\ (eigs <$> df = drop a (eigs <$> prev) \/ eigs <$> df = take a (eigs <$> prev)).
Proof.
  intros Hrun Hprev Hdf.
  destruct (trim_iters_step _ _ _ _ _ _ _ _ _ _ _ _ Hrun Hdf)
    as (prev' & flags & Hprev' & Hit).
  rewrite Hprev in Hprev'. injection Hprev' as <-.
  destruct (iteration_spec _ _ _ _ _ _ _ _ Hit) as (_ & _ & -> & _).
  destruct (inliers_one_end prev (trim_iters_labels _ _ _ _ _ _ _ Hrun Hprev))
    as (a & Ha & [->| ->]); exists a; (split; [done|]).
  - left. by rewrite fmap_drop.
  - right. by rewrite fmap_take.
Qed.

(** X1: an iteration trims at one end only: a snapshot holds the
    eigenvalues of the one before in their order, without some of the
    first or without some of the last. *)
Theorem trim_step_one_end untrimmed tolerance max_trim max_iters snaps k prev df :
  trim_iters untrimmed tolerance max_trim max_iters = Ok snaps ->
  snaps !! k = Some prev -> snaps !! S k = Some df ->
  exists dropped,
    eigs <$> prev = dropped ++ (eigs <$> df)
    \/ eigs <$> prev = (eigs <$> df) ++ dropped.
Proof.
  intros Hrun Hprev Hdf.
  destruct (trim_iters_one_end _ _ _ _ _ _ _ _ Hrun Hprev Hdf) as (a & _ & [->| ->]).
  - exists (take a (eigs <$> prev)). left. by rewrite take_drop.
  - exists (drop a (eigs <$> prev)). right. by rewrite take_drop.
Qed.

(** The eigenvalues of every snapshot are a window of the spectrum. *)
Lemma trim_iters_window untrimmed tolerance max_trim max_iters snaps k df :
  trim_iters untrimmed tolerance max_trim max_iters = Ok snaps ->
  snaps !! k = Some df ->
  exists before after, untrimmed = before ++ (eigs <$> df) ++ after.
Proof.
  intros Hrun. revert df. induction k as [|k IH]; intros df Hdf.
  - destruct (trim_iters_first _ _ _ _ _ _ _ _ _ _ Hrun) as (df0 & Hdf0 & Heigs & _).
    rewrite Hdf in Hdf0. injection Hdf0 as <-.
    exists [], []. by rewrite app_nil_r.
  - destruct (lookup_lt_is_Some_2 snaps k) as [prev Hprev].
    { apply lookup_lt_Some in Hdf. lia. }
    destruct (IH prev Hprev) as (before & after & ->).
    destruct (trim_iters_one_end _ _ _ _ _ _ _ _ Hrun Hprev Hdf) as (a & _ & [->| ->]).
    + exists (before ++ take a (eigs <$> prev)), after.
      rewrite <- (take_drop a (eigs <$> prev)) at 1. by rewrite <- !app_assoc.
    + exists before, (drop a (eigs <$> prev) ++ after).
      rewrite <- (take_drop a (eigs <$> prev)) at 1. by rewrite <- !app_assoc.
Qed.

(** X2: the first iteration trims nothing, and every later one does:
    snapshot 1 holds the whole spectrum, and each snapshot after it has
    fewer rows than the one before. *)
Theorem trim_snapshots_shrink untrimmed tolerance max_trim max_iters snaps :
  trim_iters untrimmed tolerance max_trim max_iters = Ok snaps ->
  (forall df, snaps !! 1%nat = Some df -> eigs <$> df = untrimmed)
  /\ (forall k prev df, (1 <= k)%nat ->
        snaps !! k = Some prev -> snaps !! S k = Some df ->
        (length df < length prev)%nat).
Proof.
  intros Hrun. split.
  - intros df Hdf.
    destruct (trim_iters_step _ _ _ _ _ _ _ _ _ _ _ _ Hrun Hdf)
      as (prev & flags & Hprev & Hit).
    destruct (trim_iters_first _ _ _ _ _ _ _ _ _ _ Hrun) as (df0 & Hdf0 & Heigs & Hlabels).
    rewrite Hprev in Hdf0. injection Hdf0 as <-.
    destruct (iteration_spec _ _ _ _ _ _ _ _ Hit) as (_ & _ & -> & _).
    rewrite filter_all_inliers; [done|].
    rewrite Hlabels. f_equal. by rewrite <- Heigs, length_fmap.
  - intros k prev df Hk Hprev Hdf.
    destruct (trim_iters_step _ _ _ _ _ _ _ _ _ _ _ _ Hrun Hdf)
      as (prev' & flags & Hprev' & Hit).
    rewrite Hprev in Hprev'. injection Hprev' as <-.
    destruct (iteration_spec _ _ _ _ _ _ _ _ Hit) as (-> & _).
    apply outlier_fewer_inliers.
    pose proof (trim_iters_run _ _ _ _ _ _ _ _ _ _ Hrun) as Hruns.
    apply (run_continues _ _ _ _ _ _ _ _ _ _ Hruns k prev); [simpl; lia|done| |simpl; lia].
    by apply lookup_lt_Some in Hdf.
Qed.

(** The rows of a snapshot made by an iteration. *)
Lemma iteration_rows tolerance prev df is_outlier i r :
  iteration tolerance prev = Ok (df, is_outlier) ->
  df !! i = Some r ->
  exists r', filter (fun r => is_inlier r = true) prev !! i = Some r'
    /\ eigs r = eigs r' /\ steps r = steps r'
    /\ unfolded r = (Smoother_fit (eigs <$> df) i).1
    /\ sqe r = ((unfolded r - (Smoother_fit (eigs <$> df) i).2) ^ 2)%Q.
Proof.
  intros Hit Hr.
  destruct (iteration_spec _ _ _ _ _ _ _ _ Hit) as (_ & _ & Heigs & _).
  rewrite Heigs. revert Hit Hr. unfold trim_iteration.
  intros (flags & _ & [= <- <-])%bind_Ok. rewrite list_lookup_imap.
  destruct (filter _ prev !! i) as [r'|]; [|done]. simpl.
  intros [= <-]. simpl. exists r'. done.
Qed.

(** X3: the steps column is never computed again: every row of every
    snapshot holds an eigenvalue of snapshot zero with the step value it
    has there, while the unfolded value and the squared error of a
    snapshot made by an iteration come from the fit of its own
    eigenvalues. *)
Theorem trim_snapshots_columns untrimmed tolerance max_trim max_iters snaps :
  trim_iters untrimmed tolerance max_trim max_iters = Ok snaps ->
  (forall k df r, snaps !! k = Some df -> r ∈ df ->
     exists r0, r0 ∈ initial_snapshot E_le Smoother_fit untrimmed
       /\ eigs r = eigs r0 /\ steps r = steps r0)
  /\ (forall k df i r, snaps !! S k = Some df -> df !! i = Some r ->
        unfolded r = (Smoother_fit (eigs <$> df) i).1
        /\ sqe r = ((unfolded r - (Smoother_fit (eigs <$> df) i).2) ^ 2)%Q).
Proof.
  intros Hrun. split.
  - induction k as [|k IH]; intros df r Hdf Hr.
    + pose proof (trim_iters_run _ _ _ _ _ _ _ _ _ _ Hrun) as Hruns.
      destruct (run_extends _ _ _ _ _ _ _ _ _ _ Hruns) as (more & Hmore & _).
      rewrite Hmore in Hdf. injection Hdf as <-. eauto.
    + destruct (trim_iters_step _ _ _ _ _ _ _ _ _ _ _ _ Hrun Hdf)
        as (prev & flags & Hprev & Hit).
      apply list_elem_of_lookup in Hr as [i Hi].
      destruct (iteration_rows _ _ _ _ _ _ Hit Hi) as (r' & Hr' & -> & -> & _).
      apply (IH prev r' Hprev).
      apply list_elem_of_lookup_2 in Hr'. by apply list_elem_of_filter in Hr' as [_ ?].
  - intros k df i r Hdf Hi.
    destruct (trim_iters_step _ _ _ _ _ _ _ _ _ _ _ _ Hrun Hdf)
      as (prev & flags & Hprev & Hit).
    by destruct (iteration_rows _ _ _ _ _ _ Hit Hi) as (r' & _ & _ & _ & ? & ?).
Qed.

Lemma loop_stops untrimmed tolerance max_trim remaining snaps df ratio :
  last snaps = Some df ->
  kept_ratio untrimmed df = Ok ratio ->
  Qgtb ratio max_trim = false \/ remaining = 0%nat ->
  trim_loop HBOS Smoother_fit first_absent last_absent
    untrimmed tolerance max_trim remaining snaps = Ok snaps.
Proof.
  intros Hlast Hratio Hstop. unfold kept_ratio in Hratio.
  destruct remaining as [|n]; cbn [trim_loop];
    rewrite getitem_last, Hlast; cbn [mbind pyres_bind];
    rewrite Hratio; cbn [mbind pyres_bind].
  - by destruct (Qgtb ratio max_trim).
  - destruct Hstop as [->|?]; done.
Qed.

(** X4: with no iteration allowed, or with [max_trim] at least one, the
    loop body never runs: the only snapshot is the untrimmed one. *)
Theorem trim_no_iteration untrimmed tolerance max_trim max_iters :
  untrimmed <> [] -> max_iters = 0%nat \/ (1 <= max_trim)%Q ->
  trim_iters untrimmed tolerance max_trim max_iters
  = Ok [initial_snapshot E_le Smoother_fit untrimmed].
Proof.
  intros Hne Hcase. unfold get_trim_iters.
  assert (Hrows : Qlen (initial_snapshot E_le Smoother_fit untrimmed)
                  = Qlen untrimmed).
  { unfold Qlen, Py.len, initial_snapshot. by rewrite length_imap. }
  eapply loop_stops; [done|by apply kept_ratio_Ok|].
  destruct Hcase as [->|Hmax]; [by right|left].
  apply not_true_iff_false. rewrite Qgtb_lt. apply Qle_not_lt.
  rewrite Hrows. unfold Qdiv. rewrite Qmult_inv_r; [done|].
  unfold Qlen, Py.len. change 0%Q with (inject_Z 0).
  rewrite inject_Z_injective. destruct untrimmed; [done|simpl; lia].
Qed.
End Windows.

(** ** The edge correction, one side at a time *)

Section CorrectionClaims.
Variables first_absent last_absent : Z.
Implicit Types l : list bool.

Lemma first_inlier_find l s :
  first_inlier_at l s -> list_find (fun b => b = false) l = Some (s, false).
Proof.
  intros [Hs Hbefore]. apply list_find_Some. split; [done|]. split; [done|].
  intros j y Hy Hj. rewrite (Hbefore j Hj) in Hy. by injection Hy as <-.
Qed.

Lemma last_inlier_find l t :
  last_inlier_at l t ->
  list_find (fun b => b = false) (reverse l) = Some ((length l - 1 - t)%nat, false).
Proof.
  intros [Ht Hafter]. pose proof (lookup_lt_Some _ _ _ Ht) as Hlt.
  apply list_find_Some. split; [|split; [done|]].
  - rewrite reverse_lookup by lia. rewrite <- Ht. f_equal. lia.
  - intros j y Hy Hj. rewrite reverse_lookup in Hy by lia.
    rewrite Hafter in Hy by lia. by injection Hy as <-.
Qed.

(** With the first point flagged, whatever the last: the left loop
    clears from the first inlier to the end of the array, and nothing is
    left for the right loop. *)
Lemma edge_correct_first_flagged l s :
  head l = Some true -> first_inlier_at l s ->
  edge_correct first_absent last_absent l
  = Ok (replicate s true ++ replicate (length l - s) false).
Proof.
  intros Hhd Hs. pose proof (first_inlier_find _ _ Hs) as Hfind.
  destruct Hs as [Hs _]. pose proof (lookup_lt_Some _ _ _ Hs) as Hlt.
  assert (0 < s)%nat.
  { destruct s; [|lia]. destruct l; simpl in *; congruence. }
  unfold edge_correct. rewrite (keep_left_found _ _ _ _ Hhd Hfind). simpl.
  rewrite keep_right_unflagged
    by (rewrite last_two_runs, decide_True by lia; done). simpl.
  unfold force_break. rewrite getitem_first, head_two_runs.
  by rewrite decide_True by lia.
Qed.

(** With the last point flagged and the first not: the right loop clears
    up to the last inlier. *)
Lemma edge_correct_last_flagged l t :
  head l = Some false -> last l = Some true -> last_inlier_at l t ->
  edge_correct first_absent last_absent l
  = Ok (replicate (S t) false ++ replicate (length l - S t) true).
Proof.
  intros Hhd Hlast Ht. pose proof (last_inlier_find _ _ Ht) as Hfind.
  destruct Ht as [Ht _]. pose proof (lookup_lt_Some _ _ _ Ht) as Hlt.
  assert (S t < length l)%nat.
  { destruct (decide (S t = length l)) as [Heq|]; [|lia].
    rewrite last_lookup in Hlast. rewrite <- Heq in Hlast. simpl in Hlast.
    congruence. }
  unfold edge_correct. rewrite keep_left_unflagged by done. simpl.
  rewrite (keep_right_found _ _ _ _ Hlast Hfind). simpl.
  replace (length l - (length l - 1 - t))%nat with (S t) by lia.
  replace (length l - 1 - t)%nat with (length l - S t)%nat by lia.
  unfold force_break. rewrite getitem_first, getitem_last.
  rewrite head_two_runs, last_two_runs.
  rewrite !decide_True by lia. done.
Qed.

(** C2, amended: with the first point flagged and the last not, the
    points before the first inlier stay outliers and every point from
    it on is an inlier; with the last point flagged and the first not,
    the points after the last inlier stay outliers and every point up to
    it is an inlier. *)
Theorem edge_correct_one_sided l :
  (forall s, head l = Some true -> last l = Some false -> first_inlier_at l s ->
     edge_correct first_absent last_absent l
     = Ok (replicate s true ++ replicate (length l - s) false))
  /\ (forall t, head l = Some false -> last l = Some true -> last_inlier_at l t ->
        edge_correct first_absent last_absent l
        = Ok (replicate (S t) false ++ replicate (length l - S t) true)).
Proof.
  split.
  - intros s Hhd _ Hs. by apply edge_correct_first_flagged.
  - intros t Hhd Hlast Ht. by apply edge_correct_last_flagged.
Qed.
End CorrectionClaims.

Lemma edge_correct_one_sided_witness :
  edge_correct (-1) (-1) [true; true; false; true; false]
  = Ok [true; true; false; false; false]
  /\ edge_correct (-1) (-1) [false; true; false; true; true]
     = Ok [false; false; false; true; true].
Proof.
  split.
  - apply (proj1 (edge_correct_one_sided (-1) (-1) [true; true; false; true; false]) 2%nat);
      [reflexivity | reflexivity |].
    split; [reflexivity|]. intros [|[|j]] Hj; [reflexivity | reflexivity | lia].
  - apply (proj2 (edge_correct_one_sided (-1) (-1) [false; true; false; true; true]) 2%nat);
      [reflexivity | reflexivity |].
    split; [reflexivity|]. intros [|[|[|[|[|j]]]]] Hj; simpl in Hj; try lia; reflexivity.
Defined.

(** C2, as stated, fails on the array flagged at both ends with one
    inlier between: the point before the first inlier is still an
    outlier after the correction, and the flagged point on the right is
    not. *)
Lemma edge_correct_both_ends_counterexample :
  edge_correct (-1) (-1) [true; false; true] = Ok [true; false; false]
  /\ ~ claimed_left_rule (-1) (-1)
  /\ ~ claimed_both_ends (-1) (-1).
Proof.
  split; [reflexivity|]. split.
  - intros Hclaim.
    assert (Hfirst : first_inlier_at [true; false; true] 1).
    { split; [reflexivity|]. intros [|j] Hj; [reflexivity | lia]. }
    specialize (Hclaim [true; false; true] [true; false; false] 1%nat
                  eq_refl Hfirst eq_refl 0%nat ltac:(lia)).
    discriminate Hclaim.
  - intros Hclaim.
    destruct (Hclaim [true; false; true] [true; false; false]) as [_ Hlast];
      [reflexivity | reflexivity | | reflexivity | discriminate Hlast].
    right. left.
Qed.

(** What the searches return for an absent value matters on an array
    with every point flagged: with -1 the left loop wraps around and
    clears the array; a value below minus the length is a subscript out
    of range. *)
Example all_flagged_cleared : edge_correct (-1) (-1) [true; true; true] = Ok [false; false; false].
Proof. reflexivity. Qed.

Example all_flagged_out_of_range : edge_correct (-5) (-1) [true; true; true] = Raise IndexError.
Proof. reflexivity. Qed.

(** ** The edge correction: what it leaves and what it clears *)

Section EdgeClears.
Variables first_absent last_absent : Z.
Implicit Types l : list bool.

Lemma setitem_lookup {A} (l l' : list A) i v k x :
  Py.setitem l i v = Ok l' -> l' !! k = Some x -> x = v \/ l !! k = Some x.
Proof.
  unfold Py.setitem. intros (p & Hp & [= <-])%bind_Ok Hk.
  destruct (decide (p = k)) as [->|Hne].
  - apply list_lookup_insert_Some in Hk as [(_ & -> & _)|[? _]]; [by left|done].
  - rewrite list_lookup_insert_ne in Hk by done. by right.
Qed.

Lemma store_all_lookup {A} idx (l l' : list A) v k x :
  Py.store_all idx v l = Ok l' -> l' !! k = Some x -> x = v \/ l !! k = Some x.
Proof.
  revert l. induction idx as [|i idx IH]; intros l; simpl.
  - intros [= <-]. by right.
  - intros (l1 & H1 & Hrest)%bind_Ok Hk.
    destruct (IH _ Hrest Hk) as [->|Hk1]; [by left|].
    by eapply setitem_lookup.
Qed.

Lemma keep_left_clears l l' k :
  keep_left first_absent l = Ok l' -> l' !! k = Some true -> l !! k = Some true.
Proof.
  unfold keep_left. intros ([|] & _ & Hrest)%bind_Ok Hk.
  - by destruct (store_all_lookup _ _ _ _ _ _ Hrest Hk).
  - by injection Hrest as <-.
Qed.

Lemma keep_right_clears l l' k :
  keep_right last_absent l = Ok l' -> l' !! k = Some true -> l !! k = Some true.
Proof.
  unfold keep_right. intros ([|] & _ & Hrest)%bind_Ok Hk.
  - by destruct (store_all_lookup _ _ _ _ _ _ Hrest Hk).
  - by injection Hrest as <-.
Qed.

Lemma force_break_clears l l' k :
  force_break l = Ok l' -> l' !! k = Some true -> l !! k = Some true.
Proof.
  intros [[-> _]|(-> & _)]%force_break_shape; [done|].
  by intros [? _]%lookup_replicate.
Qed.

(** A point flagged after the correction was flagged before it. *)
Lemma edge_correct_clears l l' k :
  edge_correct first_absent last_absent l = Ok l' ->
  l' !! k = Some true -> l !! k = Some true.
Proof.
  unfold edge_correct.
  intros (a1 & H1 & (a2 & H2 & H3)%bind_Ok)%bind_Ok Hk.
  eauto using keep_left_clears, keep_right_clears, force_break_clears.
Qed.

(** X5: the correction returns an array of the same length and only
    clears flags: a point flagged after it was flagged before it. *)
Theorem edge_correct_only_clears l l' :
  edge_correct first_absent last_absent l = Ok l' ->
  length l' = length l
  /\ forall k, l' !! k = Some true -> l !! k = Some true.
Proof.
  intros Hc. split; [by apply edge_correct_shape in Hc as [? _]|].
  intros k Hk. revert Hc. unfold edge_correct.
  intros (a1 & H1 & (a2 & H2 & H3)%bind_Ok)%bind_Ok.
  apply (keep_left_clears _ _ _ H1), (keep_right_clears _ _ _ H2).
  by apply (force_break_clears _ _ _ H3).
Qed.

(** The correction leaves alone an array whose flagged points are a
    proper prefix. *)
Lemma edge_correct_prefix_fixed a b :
  (0 < a)%nat -> (0 < b)%nat ->
  edge_correct first_absent last_absent (replicate a true ++ replicate b false)
  = Ok (replicate a true ++ replicate b false).
Proof.
  intros Ha Hb.
  rewrite (edge_correct_first_flagged first_absent last_absent _ a).
  - rewrite length_app, !length_replicate. do 3 f_equal. lia.
  - destruct a; [lia|done].
  - split.
    + rewrite lookup_two_runs. rewrite decide_False, decide_True by lia. done.
    + intros j Hj. rewrite lookup_two_runs. by rewrite decide_True.
Qed.

Lemma edge_correct_suffix_fixed a b :
  (0 < a)%nat -> (0 < b)%nat ->
  edge_correct first_absent last_absent (replicate a false ++ replicate b true)
  = Ok (replicate a false ++ replicate b true).
Proof.
  intros Ha Hb.
  rewrite (edge_correct_last_flagged first_absent last_absent _ (a - 1)).
  - rewrite length_app, !length_replicate. f_equal.
    replace (S (a - 1)) with a by lia. do 2 f_equal. lia.
  - destruct a; [lia|done].
  - rewrite last_two_runs. by rewrite decide_True.
  - split.
    + rewrite lookup_two_runs. by rewrite decide_True by lia.
    + intros j Hj. rewrite length_app, !length_replicate in Hj.
      rewrite lookup_two_runs. rewrite decide_False, decide_True by lia. done.
Qed.

Lemma edge_correct_clear_fixed n :
  (0 < n)%nat ->
  edge_correct first_absent last_absent (replicate n false) = Ok (replicate n false).
Proof.
  intros Hn. unfold edge_correct.
  rewrite keep_left_unflagged by (destruct n; [lia|done]). simpl.
  rewrite keep_right_unflagged
    by (rewrite last_lookup, length_replicate, lookup_replicate_2; [done|lia]).
  simpl. unfold force_break. rewrite getitem_first, getitem_last.
  replace (head (replicate n false)) with (Some false) by (destruct n; [lia|done]).
  simpl.
  replace (last (replicate n false)) with (Some false)
    by (rewrite last_lookup, length_replicate, lookup_replicate_2; [done|lia]).
  simpl. by rewrite length_replicate.
Qed.

(** X6: a corrected array is a fixed point of the correction. *)
Theorem edge_correct_idempotent l l' :
  edge_correct first_absent last_absent l = Ok l' ->
  edge_correct first_absent last_absent l' = Ok l'.
Proof.
  intros Hc.
  pose proof (fun k => edge_correct_clears _ _ k Hc) as Hclears.
  destruct (edge_correct_shape _ _ _ _ Hc) as [Hlen _].
  assert (Hne : l <> []).
  { intros ->. revert Hc. unfold edge_correct, keep_left. done. }
  assert (Hpos : (0 < length l')%nat) by (rewrite Hlen; destruct l; simpl; [done|lia]).
  destruct (edge_correct_shape _ _ _ _ Hc) as [_ [(a & Ha & Heq)|(a & Ha & Heq)]].
  - destruct (decide (a = 0%nat)) as [->|Ha0].
    { rewrite Heq. simpl. rewrite Nat.sub_0_r. by apply edge_correct_clear_fixed. }
    destruct (decide (a = length l')) as [Hall|Hpart].
    + (* every point still flagged: nothing was cleared *)
      assert (l' = l) as ->; [|done].
      rewrite Hall, Nat.sub_diag, app_nil_r in Heq.
      apply list_eq. intros k.
      destruct (decide (k < length l')%nat) as [Hk|Hk].
      * rewrite (Hclears k); rewrite Heq at 1; by rewrite lookup_replicate_2.
      * rewrite !lookup_ge_None_2 by lia. done.
    + rewrite Heq. apply edge_correct_prefix_fixed; lia.
  - destruct (decide (a = length l')) as [->|Ha0].
    { rewrite Heq, Nat.sub_diag, app_nil_r. by apply edge_correct_clear_fixed. }
    destruct (decide (a = 0%nat)) as [->|Hpart].
    + assert (l' = l) as ->; [|done].
      simpl in Heq. rewrite Nat.sub_0_r in Heq.
      apply list_eq. intros k.
      destruct (decide (k < length l')%nat) as [Hk|Hk].
      * rewrite (Hclears k); rewrite Heq at 1; by rewrite lookup_replicate_2.
      * rewrite !lookup_ge_None_2 by lia. done.
    + rewrite Heq. apply edge_correct_suffix_fixed; lia.
Qed.

(** X7: with both ends flagged the left rule wins: the leading run of
    flagged points stays, every later point is cleared, the flagged right
    end with them. *)
Theorem edge_correct_both_ends l s :
  head l = Some true -> last l = Some true -> first_inlier_at l s ->
  exists l',
    edge_correct first_absent last_absent l = Ok l'
    /\ l' = replicate s true ++ replicate (length l - s) false
    /\ last l' = Some false.
Proof.
  intros Hhd _ Hs. eexists. split; [by apply edge_correct_first_flagged|].
  split; [done|].
  destruct Hs as [Hs _]. apply lookup_lt_Some in Hs.
  rewrite last_two_runs. rewrite decide_True by lia. done.
Qed.
End EdgeClears.

Section EdgeKeeps.
Variables first_absent last_absent : Z.
Hypothesis absent_ok : -1 <= first_absent <= 0.

(** X8: when a search that finds nothing answers -1 or 0, the correction
    of an array that holds a point returns and leaves a point unflagged;
    on the empty array it raises IndexError. *)
Theorem edge_correct_keeps_inlier (l : list bool) :
  (l = [] -> edge_correct first_absent last_absent l = Raise IndexError)
  /\ (l <> [] -> exists l',
        edge_correct first_absent last_absent l = Ok l' /\ false ∈ l').
Proof.
  split; [by intros ->|].
  by apply edge_correct_returns.
Qed.
End EdgeKeeps.

(** ** Scoring an unfolding *)

Section Evaluate.
Implicit Types u xs : list Q.

Lemma spacings_successive u : spacings u = successive_differences u.
Proof.
  unfold spacings, successive_differences. apply list_eq. intros i.
  rewrite lookup_zip_with, lookup_drop, list_lookup_fmap. simpl.
  destruct (decide (i < length u - 1)%nat) as [Hi|Hi].
  - rewrite lookup_take_lt by done.
    rewrite lookup_seq_lt by done. simpl.
    destruct (lookup_lt_is_Some_2 u (S i)) as [x ->]; [lia|].
    destruct (lookup_lt_is_Some_2 u i) as [y ->]; [lia|]. done.
  - rewrite lookup_seq_ge by lia. simpl.
    destruct (u !! S i) as [x|] eqn:Hx; [|done]. simpl.
    apply lookup_lt_Some in Hx. lia.
Qed.

Lemma length_successive_differences u :
  length (successive_differences u) = (length u - 1)%nat.
Proof. unfold successive_differences. by rewrite length_fmap, length_seq. Qed.

Lemma np_var_sample_variance xs : np_var_ddof1 xs = sample_variance xs.
Proof.
  unfold np_var_ddof1, sample_variance.
  destruct xs as [|x xs]; [done|].
  set (l := x :: xs). simpl length.
  destruct xs as [|y xs]; [done|]. simpl length.
  rewrite decide_False by lia. rewrite (decide_False (P := (_ <= 1)%nat)) by lia.
  done.
Qed.

(** C7: for a column of at least two values the evaluation returns the
    mean of the successive differences, their sample variance, and the
    score [(var - 1)/1 + 0.05 * (mean - 1)/1]; the score is 0 when the
    mean and the variance are both 1. *)
Theorem evaluate_unfolding_spec u :
  (2 <= length u)%nat ->
  let d := successive_differences u in
  let '(mean, var, score) := evaluate_unfolding u in
  mean = Some (Qsum d / Qlen d)%Q
  /\ var = sample_variance d
  /\ score = goe_score mean var
  /\ (cell_eq mean (Some 1%Q) -> cell_eq var (Some 1%Q) -> cell_eq score (Some 0%Q)).
Proof.
  intros Hlen. unfold evaluate_unfolding.
  rewrite spacings_successive, np_var_sample_variance.
  assert (Hd : length (successive_differences u) <> 0%nat)
    by (rewrite length_successive_differences; lia).
  unfold np_mean.
  destruct (successive_differences u) as [|d0 d] eqn:Heq; [done|].
  split; [done|]. split; [done|]. split; [done|].
  unfold EXPECTED_GOE_MEAN, EXPECTED_GOE_VARIANCE.
  destruct (sample_variance (d0 :: d)) as [v|]; simpl; [|done].
  intros Hm Hv. rewrite Hm, Hv. reflexivity.
Qed.
End Evaluate.

Lemma evaluate_unfolding_spec_witness :
  (2 <= length [0; 0; 2; 3]%Q)%nat
  /\ (let d := successive_differences [0; 0; 2; 3]%Q in
      let '(mean, var, score) := evaluate_unfolding [0; 0; 2; 3]%Q in
      mean = Some (Qsum d / Qlen d)%Q
      /\ var = sample_variance d
      /\ score = goe_score mean var
      /\ (cell_eq mean (Some 1%Q) -> cell_eq var (Some 1%Q) -> cell_eq score (Some 0%Q))).
Proof.
  split; [simpl; lia|].
  apply (evaluate_unfolding_spec [0; 0; 2; 3]%Q). simpl; lia.
Defined.

(** The ideal column: spacings 0, 2, 1 have mean 1 and sample variance 1. *)
Example evaluate_unfolding_ideal :
  let '(mean, var, score) := evaluate_unfolding [0; 0; 2; 3]%Q in
  cell_eq mean (Some 1%Q) /\ cell_eq var (Some 1%Q) /\ cell_eq score (Some 0%Q).
Proof. vm_compute. repeat split; reflexivity. Qed.

(** ** The statistics of the spacings *)

Section Spacings.
Implicit Types (u : list Q).

Lemma spacings_cons x y u : spacings (x :: y :: u) = (y - x)%Q :: spacings (y :: u).
Proof. unfold spacings. simpl. by rewrite !Nat.sub_0_r. Qed.

Lemma length_spacings u : length (spacings u) = (length u - 1)%nat.
Proof.
  destruct u as [|x u]; [done|]. revert x.
  induction u as [|y u IH]; intros x; [done|].
  rewrite spacings_cons. simpl. rewrite IH. simpl. lia.
Qed.

(** X9: an unfolding of fewer than two values has no mean spacing, and
    one of fewer than three has no variance and no score: they are
    NaN. *)
Theorem evaluate_unfolding_nan u :
  let '(mean, var, score) := evaluate_unfolding u in
  ((length u < 2)%nat -> mean = None)
  /\ ((length u < 3)%nat -> var = None /\ score = None).
Proof.
  unfold evaluate_unfolding. pose proof (length_spacings u) as Hlen.
  destruct (spacings u) as [|d ds] eqn:Hd; cbn [np_mean np_var_ddof1].
  - done.
  - simpl in Hlen. cbn [length]. split; [lia|].
    intros Hshort. rewrite decide_True by lia. done.
Qed.
End Spacings.

(** ** Arrays, column names, rounding *)

Section ArrayFacts.
Implicit Types (arr : list (list cell)) (v : cell).

Lemma np_empty_shape junk height width :
  has_shape (np_empty junk height width) height width.
Proof.
  unfold np_empty. split.
  - by rewrite length_fmap, length_seq.
  - apply Forall_fmap, Forall_forall. intros i _. simpl.
    by rewrite length_fmap, length_seq.
Qed.

Lemma arr_set_Ok arr i k v arr' :
  arr_set arr i k v = Ok arr' ->
  exists r, arr !! i = Some r /\ (k < length r)%nat /\ arr' = <[i := <[k := v]> r]> arr.
Proof.
  unfold arr_set. destruct (arr !! i) as [r|]; [|done].
  case_decide; [|done]. intros [= <-]. eauto.
Qed.

Lemma arr_set_shape arr i k v arr' height width :
  arr_set arr i k v = Ok arr' -> has_shape arr height width ->
  has_shape arr' height width.
Proof.
  intros (r & Hr & Hk & ->)%arr_set_Ok [Hh Hw]. split.
  - by rewrite length_insert.
  - apply Forall_insert; [done|]. rewrite length_insert.
    by eapply (Forall_lookup_1 _ _ _ _ Hw).
Qed.

Lemma arr_set_cell_at arr i k v arr' i0 k0 :
  arr_set arr i k v = Ok arr' ->
  cell_at arr' i0 k0
  = if decide (i0 = i /\ k0 = k) then Some v else cell_at arr i0 k0.
Proof.
  intros (r & Hr & Hk & ->)%arr_set_Ok. unfold cell_at.
  pose proof (lookup_lt_Some _ _ _ Hr) as Hi.
  destruct (decide (i0 = i)) as [->|Hne].
  - rewrite list_lookup_insert_eq by done. rewrite Hr. simpl.
    destruct (decide (k0 = k)) as [->|Hnk].
    + rewrite decide_True by done. by rewrite list_lookup_insert_eq.
    + rewrite decide_False by (intros [_ ?]; done).
      by rewrite list_lookup_insert_ne.
  - rewrite decide_False by (intros [? _]; done).
    by rewrite list_lookup_insert_ne.
Qed.

Lemma fill_unfold_stats_shape all_unfolds arr i j arr' height width :
  fill_unfold_stats arr i j all_unfolds = Ok arr' ->
  has_shape arr height width -> has_shape arr' height width.
Proof.
  revert arr j. induction all_unfolds as [|[name values] rest IH]; intros arr j; simpl.
  - by intros [= <-].
  - destruct (evaluate_unfolding values) as [[mean var] score].
    intros (a1 & H1 & (a2 & H2 & (a3 & H3 & Hrest)%bind_Ok)%bind_Ok)%bind_Ok Hs.
    eapply IH; [done|]. eauto using arr_set_shape.
Qed.

Lemma fill_unfold_stats_cell_at all_unfolds arr i j arr' i0 k0 :
  fill_unfold_stats arr i j all_unfolds = Ok arr' ->
  (i0 <> i \/ k0 < 3 * j + 3)%nat ->
  cell_at arr' i0 k0 = cell_at arr i0 k0.
Proof.
  revert arr j. induction all_unfolds as [|[name values] rest IH]; intros arr j; simpl.
  - by intros [= <-].
  - destruct (evaluate_unfolding values) as [[mean var] score].
    intros (a1 & H1 & (a2 & H2 & (a3 & H3 & Hrest)%bind_Ok)%bind_Ok)%bind_Ok Hcell.
    rewrite (IH _ _ Hrest) by lia.
    rewrite (arr_set_cell_at _ _ _ _ _ _ _ H3), decide_False by lia.
    rewrite (arr_set_cell_at _ _ _ _ _ _ _ H2), decide_False by lia.
    rewrite (arr_set_cell_at _ _ _ _ _ _ _ H1), decide_False by lia.
    done.
Qed.
End ArrayFacts.

Section ColumnNames.
Lemma length_col_names_final names :
  length (col_names_final names) = (3 + 3 * length names)%nat.
Proof.
  unfold col_names_final. rewrite length_app.
  change (length ["trim_percent"; "trim_low"; "trim_high"]%string) with 3%nat.
  f_equal. induction names as [|name names IH]; [done|].
  rewrite bind_cons, length_app, IH. simpl. lia.
Qed.

Lemma col_names_final_lookup names j name :
  names !! j = Some name ->
  col_names_final names !! (3 * j + 3)%nat = Some (name +:+ "--mean_spacing")
  /\ col_names_final names !! (3 * j + 4)%nat = Some (name +:+ "--var_spacing")
  /\ col_names_final names !! (3 * j + 5)%nat = Some (name +:+ "--score").
Proof.
  unfold col_names_final. intros Hj.
  replace (3 * j + 3)%nat with (3 + 3 * j)%nat by lia.
  replace (3 * j + 4)%nat with (3 + (3 * j + 1))%nat by lia.
  replace (3 * j + 5)%nat with (3 + (3 * j + 2))%nat by lia.
  rewrite !(lookup_app_r [_; _; _]) by (simpl; lia). simpl length.
  replace (3 + 3 * j - 3)%nat with (3 * j)%nat by lia.
  replace (3 + (3 * j + 1) - 3)%nat with (3 * j + 1)%nat by lia.
  replace (3 + (3 * j + 2) - 3)%nat with (3 * j + 2)%nat by lia.
  revert j Hj. induction names as [|n names IH]; intros j Hj; [done|].
  rewrite bind_cons. destruct j as [|j].
  - injection Hj as ->. done.
  - simpl in Hj. specialize (IH j Hj).
    replace (3 * S j)%nat with (3 + 3 * j)%nat by lia.
    replace (3 + 3 * j + 1)%nat with (3 + (3 * j + 1))%nat by lia.
    replace (3 + 3 * j + 2)%nat with (3 + (3 * j + 2))%nat by lia.
    rewrite !(lookup_app_r [_; _; _]) by (simpl; lia). simpl length.
    replace (3 + 3 * j - 3)%nat with (3 * j)%nat by lia.
    replace (3 + (3 * j + 1) - 3)%nat with (3 * j + 1)%nat by lia.
    replace (3 + (3 * j + 2) - 3)%nat with (3 * j + 2)%nat by lia.
    done.
Qed.

Lemma col_names_final_head names :
  take 3 (col_names_final names) = ["trim_percent"; "trim_low"; "trim_high"]%string.
Proof. done. Qed.
End ColumnNames.

Section Rounding.
Lemma rint_zero (y : Q) : (y == 0)%Q -> rint y = 0.
Proof.
  intros Hy.
  assert (Hf : Qfloor y = 0) by (rewrite (Qfloor_comp y 0 Hy); reflexivity).
  unfold rint. rewrite Hf.
  assert (Hr : (y - inject_Z 0 == 0)%Q) by (rewrite Hy; reflexivity).
  unfold Qgtb.
  assert (Qle_bool (y - inject_Z 0) (1 # 2) = true) as ->
    by (apply Qle_bool_iff; rewrite Hr; discriminate).
  simpl.
  assert (Qeq_bool (y - inject_Z 0) (1 # 2) = false) as ->.
  { apply not_true_iff_false. intros Heq%Qeq_bool_iff.
    rewrite Hr in Heq. discriminate. }
  done.
Qed.

Lemma np_round_zero (x : Q) decimals : (x == 0)%Q -> (np_round x decimals == 0)%Q.
Proof.
  intros Hx. unfold np_round. rewrite rint_zero.
  - unfold Qdiv. apply Qmult_0_l.
  - rewrite Hx. apply Qmult_0_l.
Qed.

Lemma nothing_trimmed (n : Z) : n <> 0 -> (100 * (1 - inject_Z n / inject_Z n) == 0)%Q.
Proof.
  intros Hn.
  assert (Hone : (inject_Z n / inject_Z n == 1)%Q).
  { apply Qmult_inv_r. unfold Qeq. simpl. lia. }
  rewrite Hone. reflexivity.
Qed.
End Rounding.

(** ** The report across trims; the constructor *)

Section UnfoldFacts.
Context {E : Type} `{!EqDecision E}.
Variable fit_all_names : list E -> smoother_options -> list string.
Variable fit_all : list E -> smoother_options -> list (string * list Q).
Variables first_absent last_absent : Z.
Variable junk : nat -> nat -> option Q.

Local Abbreviation one_trim := (unfold_trim fit_all first_absent last_absent).
Local Abbreviation all_trims := (unfold_trims fit_all first_absent last_absent).
Local Abbreviation across_trims :=
  (unfold_across_trims fit_all_names fit_all first_absent last_absent junk).

Implicit Types (arr : list (list (option Q))) (trim : list (row E)).

Lemma unfold_trim_spec untrimmed options arr i trim arr' unfolds :
  one_trim untrimmed options arr i trim = Ok (arr', unfolds) ->
  (forall height width, has_shape arr height width -> has_shape arr' height width)
  /\ (forall i0 k0, i0 <> i -> cell_at arr' i0 k0 = cell_at arr i0 k0)
  /\ exists kept,
       Py.truediv (Py.len (eigs <$> trim)) (Py.len untrimmed) = Ok kept
       /\ cell_at arr' i 0 = Some (Some (np_round (100 * (1 - kept)) 3)).
Proof.
  unfold unfold_trim.
  intros (first & _ & (final & _ & (kept & Hkept & (low & _ & (high & _ &
    (a1 & H1 & (a2 & H2 & (a3 & H3 & (a4 & H4 & [= <- <-])%bind_Ok)%bind_Ok)
      %bind_Ok)%bind_Ok)%bind_Ok)%bind_Ok)%bind_Ok)%bind_Ok)%bind_Ok.
  split; [|split].
  - intros height width Hs.
    eapply fill_unfold_stats_shape; [done|]. eauto using arr_set_shape.
  - intros i0 k0 Hne.
    rewrite (fill_unfold_stats_cell_at _ _ _ _ _ _ _ H4) by lia.
    rewrite (arr_set_cell_at _ _ _ _ _ _ _ H3), decide_False by lia.
    rewrite (arr_set_cell_at _ _ _ _ _ _ _ H2), decide_False by lia.
    rewrite (arr_set_cell_at _ _ _ _ _ _ _ H1), decide_False by lia.
    done.
  - exists kept. split; [done|].
    rewrite (fill_unfold_stats_cell_at _ _ _ _ _ _ _ H4) by lia.
    rewrite (arr_set_cell_at _ _ _ _ _ _ _ H3), decide_False by lia.
    rewrite (arr_set_cell_at _ _ _ _ _ _ _ H2), decide_False by lia.
    rewrite (arr_set_cell_at _ _ _ _ _ _ _ H1), decide_True by done.
    done.
Qed.

Lemma unfold_trims_spec untrimmed options trims arr last_unfolds i arr' last' :
  all_trims untrimmed options arr last_unfolds i trims = Ok (arr', last') ->
  (forall height width, has_shape arr height width -> has_shape arr' height width)
  /\ (forall i0 k0, (i0 < i)%nat -> cell_at arr' i0 k0 = cell_at arr i0 k0)
  /\ (trims = [] -> last' = last_unfolds)
  /\ (trims <> [] -> is_Some last').
Proof.
  revert arr last_unfolds i.
  induction trims as [|trim rest IH]; intros arr last_unfolds i; simpl.
  - intros [= <- <-]. done.
  - intros ([a1 u1] & Hstep & Hrest)%bind_Ok. simpl in Hrest.
    destruct (unfold_trim_spec _ _ _ _ _ _ _ Hstep) as (Hs1 & Hc1 & _).
    destruct (IH _ _ _ Hrest) as (Hs2 & Hc2 & Hnil & Hcons).
    split; [auto|]. split; [|split; [done|]].
    + intros i0 k0 Hi0. rewrite Hc2 by lia. apply Hc1. lia.
    + intros _. destruct rest; [rewrite Hnil by done; eauto | by apply Hcons].
Qed.

Lemma unfold_trims_first untrimmed options trim rest arr last_unfolds i arr' last' :
  all_trims untrimmed options arr last_unfolds i (trim :: rest) = Ok (arr', last') ->
  exists kept,
    Py.truediv (Py.len (eigs <$> trim)) (Py.len untrimmed) = Ok kept
    /\ cell_at arr' i 0 = Some (Some (np_round (100 * (1 - kept)) 3)).
Proof.
  simpl. intros ([a1 u1] & Hstep & Hrest)%bind_Ok. simpl in Hrest.
  destruct (unfold_trim_spec _ _ _ _ _ _ _ Hstep) as (_ & _ & kept & Hkept & Hcell).
  destruct (unfold_trims_spec _ _ _ _ _ _ _ _ Hrest) as (_ & Hc & _).
  exists kept. split; [done|]. by rewrite Hc by lia.
Qed.

Lemma across_trims_Ok untrimmed trims options report unfolds :
  across_trims untrimmed trims options = Ok (report, unfolds) ->
  exists arr last',
    all_trims untrimmed options
      (np_empty junk (length trims) (length (fit_all_names untrimmed options) * 3 + 3))
      None 0 trims = Ok (arr, last')
    /\ report = mk_table (col_names_final (fit_all_names untrimmed options)) arr.
Proof.
  unfold unfold_across_trims. intros ([arr last'] & Hfill & Hrest)%bind_Ok.
  simpl in Hrest. destruct last'; [|done]. injection Hrest as <- <-. eauto.
Qed.

(** C8: the report has one row per trim snapshot and three columns more
    than three times the number of fits, named trim_percent, trim_low
    and trim_high and then, for each fit of the dry run in its order,
    the name with --mean_spacing, --var_spacing and --score. *)
Theorem unfold_across_trims_shape untrimmed trims options report unfolds :
  across_trims untrimmed trims options = Ok (report, unfolds) ->
  let names := fit_all_names untrimmed options in
  length (data report) = length trims
  /\ Forall (fun r => length r = 3 + 3 * length names)%nat (data report)
  /\ length (columns report) = (3 + 3 * length names)%nat
  /\ take 3 (columns report) = ["trim_percent"; "trim_low"; "trim_high"]%string
  /\ forall j name, names !! j = Some name ->
       columns report !! (3 + 3 * j)%nat = Some (name +:+ "--mean_spacing")
       /\ columns report !! (3 + 3 * j + 1)%nat = Some (name +:+ "--var_spacing")
       /\ columns report !! (3 + 3 * j + 2)%nat = Some (name +:+ "--score").
Proof.
  intros (arr & last' & Hfill & ->)%across_trims_Ok. cbv zeta. cbn [columns data].
  destruct (unfold_trims_spec _ _ _ _ _ _ _ _ Hfill) as (Hshape & _).
  destruct (Hshape _ _ (np_empty_shape junk _ _)) as [Hh Hw].
  split; [done|]. split.
  { eapply Forall_impl; [exact Hw|]. simpl. intros r ->. lia. }
  split; [apply length_col_names_final|].
  split; [apply col_names_final_head|].
  intros j name Hj.
  destruct (col_names_final_lookup _ _ _ Hj) as (H1 & H2 & H3).
  replace (3 + 3 * j)%nat with (3 * j + 3)%nat by lia.
  replace (3 * j + 3 + 1)%nat with (3 * j + 4)%nat by lia.
  replace (3 * j + 3 + 2)%nat with (3 * j + 5)%nat by lia.
  done.
Qed.
End UnfoldFacts.

Section FirstRow.
Context {E : Type} (E_le : relation E) `{!RelDecision E_le} `{!EqDecision E}.
Variable HBOS : Q -> list (E * Q) -> nat -> bool.
Variable Smoother_fit : list E -> nat -> Q * Q.
Variable fit_all_names : list E -> smoother_options -> list string.
Variable fit_all : list E -> smoother_options -> list (string * list Q).
Variables first_absent last_absent : Z.
Variable junk : nat -> nat -> option Q.

(** C9: snapshot zero holds the whole spectrum with every point an
    inlier, and row zero of the report has trim_percent 0. *)
Theorem snapshot_zero_untrimmed untrimmed tolerance max_trim max_iters snaps
    options report unfolds :
  get_trim_iters E_le HBOS Smoother_fit first_absent last_absent
    untrimmed tolerance max_trim max_iters = Ok snaps ->
  unfold_across_trims fit_all_names fit_all first_absent last_absent junk
    untrimmed snaps options = Ok (report, unfolds) ->
  (exists df, snaps !! 0%nat = Some df
     /\ eigs <$> df = untrimmed
     /\ labels df = replicate (length untrimmed) inlier)
  /\ (exists r percent,
        columns report !! 0%nat = Some "trim_percent"%string
        /\ data report !! 0%nat = Some r
        /\ r !! 0%nat = Some (Some percent)
        /\ (percent == 0)%Q).
Proof.
  intros Hsnaps Hreport.
  destruct (trim_iters_first _ _ _ _ _ _ _ _ _ _ Hsnaps) as (df & Hdf & Heigs & Hlabels).
  split; [eauto|].
  apply across_trims_Ok in Hreport as (arr & last' & Hfill & ->). simpl.
  destruct snaps as [|df' rest]; [done|]. injection Hdf as ->.
  destruct (unfold_trims_first _ _ _ _ _ _ _ _ _ _ _ _ Hfill) as (kept & Hkept & Hcell).
  unfold cell_at in Hcell.
  destruct (arr !! 0%nat) as [r|]; [|done]. simpl in Hcell.
  exists r, (np_round (100 * (1 - kept)) 3). split; [done|]. split; [done|].
  split; [done|].
  rewrite Heigs in Hkept. unfold Py.truediv in Hkept.
  case_decide as Hz; [done|]. injection Hkept as <-.
  apply np_round_zero, nothing_trimmed. done.
Qed.
End FirstRow.

(** ** The report is made: when the functions return *)

Section UnfoldReturns.
Context {E : Type} `{!EqDecision E}.
Variable fit_all_names : list E -> smoother_options -> list string.
Variable fit_all : list E -> smoother_options -> list (string * list Q).
Variables first_absent last_absent : Z.
Variable junk : nat -> nat -> option Q.

Implicit Types (arr : list (list (option Q))) (trim : list (row E)).

Lemma arr_set_returns arr i k v height width :
  has_shape arr height width -> (i < height)%nat -> (k < width)%nat ->
  exists arr', arr_set arr i k v = Ok arr' /\ has_shape arr' height width.
Proof.
  intros [Hh Hw] Hi Hk. unfold arr_set.
  destruct (arr !! i) as [r|] eqn:Hr; [|apply lookup_ge_None in Hr; lia].
  pose proof (Forall_lookup_1 _ _ _ _ Hw Hr) as Hlen. simpl in Hlen.
  rewrite decide_True by lia. eexists. split; [done|].
  apply (arr_set_shape arr i k v); [|by split].
  unfold arr_set. rewrite Hr. by rewrite decide_True by lia.
Qed.

Lemma fill_unfold_stats_returns all_unfolds arr i j height width :
  has_shape arr height width -> (i < height)%nat ->
  (3 * (j + length all_unfolds) + 3 <= width)%nat ->
  exists arr', fill_unfold_stats arr i j all_unfolds = Ok arr'
    /\ has_shape arr' height width.
Proof.
  revert arr j. induction all_unfolds as [|[name values] rest IH];
    intros arr j Hs Hi Hw; cbn [fill_unfold_stats length] in *.
  - eauto.
  - destruct (evaluate_unfolding values) as [[mean var] score].
    destruct (arr_set_returns arr i (3 * j + 3) mean _ _ Hs Hi) as (a1 & -> & Hs1); [lia|].
    cbn [mbind pyres_bind].
    destruct (arr_set_returns a1 i (3 * j + 4) var _ _ Hs1 Hi) as (a2 & -> & Hs2); [lia|].
    cbn [mbind pyres_bind].
    destruct (arr_set_returns a2 i (3 * j + 5) score _ _ Hs2 Hi) as (a3 & -> & Hs3); [lia|].
    cbn [mbind pyres_bind]. apply IH; [done..|lia].
Qed.

Lemma truediv_returns (a b : Z) : b <> 0 -> exists q, Py.truediv a b = Ok q.
Proof. intros Hb. unfold Py.truediv. rewrite decide_False by done. eauto. Qed.

Lemma unfold_trim_returns untrimmed options arr i trim height width :
  untrimmed <> [] -> trim <> [] ->
  has_shape arr height width -> (i < height)%nat ->
  (3 * length (fit_all (eigs <$> trim) options) + 3 <= width)%nat ->
  exists arr' unfolds,
    unfold_trim fit_all first_absent last_absent untrimmed options arr i trim
    = Ok (arr', unfolds)
    /\ has_shape arr' height width.
Proof.
  intros Hne Htrim Hs Hi Hw. unfold unfold_trim.
  assert (Hlen : Py.len untrimmed <> 0)
    by (unfold Py.len; destruct untrimmed; [done | simpl; lia]).
  set (trimmed := eigs <$> trim) in *.
  assert (Htrimmed : trimmed <> []) by (subst trimmed; by destruct trim).
  rewrite getitem_first, getitem_last.
  destruct (head trimmed) as [first|] eqn:Hfirst; [|by apply head_None in Hfirst].
  destruct (last trimmed) as [final|] eqn:Hfinal; [|by apply last_None in Hfinal].
  cbn [mbind pyres_bind].
  destruct (truediv_returns (Py.len trimmed) _ Hlen) as [kept ->].
  destruct (truediv_returns
              (100 * find_first first_absent untrimmed first) _ Hlen) as [low ->].
  destruct (truediv_returns
              (100 * (Py.len untrimmed - 1 - find_last last_absent untrimmed final))
              _ Hlen) as [high ->].
  cbn [mbind pyres_bind].
  destruct (arr_set_returns arr i 0 (Some (np_round (100 * (1 - kept)) 3)) _ _ Hs Hi)
    as (a1 & -> & Hs1); [lia|].
  cbn [mbind pyres_bind].
  destruct (arr_set_returns a1 i 1 (Some low) _ _ Hs1 Hi) as (a2 & -> & Hs2); [lia|].
  cbn [mbind pyres_bind].
  destruct (arr_set_returns a2 i 2 (Some high) _ _ Hs2 Hi) as (a3 & -> & Hs3); [lia|].
  cbn [mbind pyres_bind].
  destruct (fill_unfold_stats_returns (fit_all trimmed options) a3 i 0 _ _ Hs3 Hi)
    as (a4 & -> & Hs4); [lia|].
  cbn [mbind pyres_bind]. eauto.
Qed.

Lemma unfold_trims_returns untrimmed options trims arr last_unfolds i height width :
  untrimmed <> [] ->
  Forall (fun trim => trim <> []
            /\ (3 * length (fit_all (eigs <$> trim) options) + 3 <= width)%nat) trims ->
  has_shape arr height width -> (i + length trims <= height)%nat ->
  exists filled,
    unfold_trims fit_all first_absent last_absent untrimmed options arr last_unfolds
      i trims = Ok filled.
Proof.
  intros Hne Htrims. revert arr last_unfolds i.
  induction Htrims as [|trim rest [Htrim Hw] _ IH]; intros arr last_unfolds i Hs Hi;
    cbn [unfold_trims length] in *; [eauto|].
  destruct (unfold_trim_returns untrimmed options arr i trim _ _ Hne Htrim Hs)
    as (arr' & unfolds & -> & Hs'); [lia|done|].
  cbn [mbind pyres_bind fst snd]. apply IH; [done|lia].
Qed.

(** The report is made whenever the spectrum and every snapshot hold a
    point and the smoother returns no more columns than it names in its
    dry run. *)
Lemma unfold_across_trims_returns untrimmed trims options :
  untrimmed <> [] -> trims <> [] ->
  Forall (fun trim => trim <> []
            /\ (length (fit_all (eigs <$> trim) options)
                <= length (fit_all_names untrimmed options))%nat) trims ->
  exists report unfolds,
    unfold_across_trims fit_all_names fit_all first_absent last_absent junk
      untrimmed trims options = Ok (report, unfolds).
Proof.
  intros Hne Htrims Hall. unfold unfold_across_trims.
  destruct (unfold_trims_returns untrimmed options trims
              (np_empty junk (length trims)
                 (length (fit_all_names untrimmed options) * 3 + 3))
              None 0 (length trims)
              (length (fit_all_names untrimmed options) * 3 + 3) Hne)
    as [[arr last'] Hfill].
  - eapply Forall_impl; [exact Hall|]. simpl. intros trim [? ?]. split; [done|lia].
  - apply np_empty_shape.
  - lia.
  - rewrite Hfill. simpl.
    destruct (unfold_trims_spec _ _ _ _ _ _ _ _ _ _ _ Hfill) as (_ & _ & _ & Hsome).
    destruct (Hsome Htrims) as [unfolds ->]. eauto.
Qed.
End UnfoldReturns.

Section InitReturns.
Context {E : Type} (E_le : relation E) `{!RelDecision E_le} `{!EqDecision E}.
Variable HBOS : Q -> list (E * Q) -> nat -> bool.
Variable Smoother_fit : list E -> nat -> Q * Q.
Variable fit_all_names : list E -> smoother_options -> list string.
Variable fit_all : list E -> smoother_options -> list (string * list Q).
Variables first_absent last_absent : Z.
Variable junk : nat -> nat -> option Q.
Variables (DEFAULT_POLY_DEGREES : list Z) (DEFAULT_SPLINE_SMOOTHS : list Q)
  (DEFAULT_SPLINE_DEGREES : list Z).

(** On a spectrum that holds a point the two passes of the constructor
    return: the trim iteration, and the table of unfoldings across its
    snapshots. *)
Lemma report_parts_return untrimmed max_trim max_iters outlier_tol options :
  untrimmed <> [] -> -1 <= first_absent <= 0 ->
  (forall es,
     (length (fit_all es options) <= length (fit_all_names untrimmed options))%nat) ->
  exists snaps report unfolds,
    get_trim_iters E_le HBOS Smoother_fit first_absent last_absent
      untrimmed outlier_tol max_trim max_iters = Ok snaps
    /\ unfold_across_trims fit_all_names fit_all first_absent last_absent junk
         untrimmed snaps options = Ok (report, unfolds).
Proof.
  intros Hne Habsent Hfits.
  destruct (trim_iters_returns E_le HBOS Smoother_fit first_absent last_absent
              Habsent untrimmed outlier_tol max_trim max_iters Hne)
    as [snaps Hsnaps].
  pose proof (trim_iters_run _ _ _ _ _ _ _ _ _ _ Hsnaps) as Hrun.
  pose proof (run_inliers _ _ _ _ _ _ _ _ _ _ Habsent Hrun) as Hin.
  destruct (unfold_across_trims_returns fit_all_names fit_all first_absent last_absent
              junk untrimmed snaps options)
    as (report & unfolds & Hreport); [done| | |by eauto].
  - destruct (run_extends _ _ _ _ _ _ _ _ _ _ Hrun) as (more & -> & _). done.
  - eapply Forall_impl; [apply Hin|].
    + apply Forall_singleton. rewrite labels_initial_snapshot.
      destruct untrimmed; [done|]. by left.
    + simpl. intros df Hdf. split; [|apply Hfits].
      intros ->. by apply elem_of_nil in Hdf.
Qed.

Lemma np_sort_nonempty (es : list E) : es <> [] -> np_sort E_le es <> [].
Proof.
  intros Hne Hnil. apply Hne, Permutation_nil_r.
  rewrite <- Hnil. unfold np_sort. by rewrite merge_sort_Permutation.
Qed.

(** X12: the constructor returns a report for every spectrum that holds a
    point, when a search that finds nothing answers -1 or 0 and the
    smoother fits no more columns than it names in its dry run. *)
Lemma TrimReport_init_returns eigenvalues max_trim max_iters outlier_tol :
  eigenvalues <> [] -> -1 <= first_absent <= 0 ->
  (forall es options,
     (length (fit_all es options)
      <= length (fit_all_names (np_sort E_le eigenvalues) options))%nat) ->
  exists report,
    TrimReport_init E_le HBOS Smoother_fit fit_all_names fit_all
      first_absent last_absent junk DEFAULT_POLY_DEGREES DEFAULT_SPLINE_SMOOTHS
      DEFAULT_SPLINE_DEGREES eigenvalues max_trim max_iters outlier_tol = Ok report.
Proof.
  intros Hne%np_sort_nonempty Habsent Hfits. unfold TrimReport_init.
  destruct (report_parts_return (np_sort E_le eigenvalues) max_trim max_iters
              outlier_tol
              (mk_options DEFAULT_POLY_DEGREES DEFAULT_SPLINE_SMOOTHS
                 DEFAULT_SPLINE_DEGREES true) Hne Habsent)
    as (snaps & table & unfolds & -> & Hreport); [intros es; apply Hfits|].
  cbn [mbind pyres_bind]. rewrite Hreport. cbn [mbind pyres_bind]. eauto.
Qed.
End InitReturns.

(** ** The constructor sorts its input *)

Section Sorting.
Context {E : Type} (E_le : relation E) `{!RelDecision E_le} `{!EqDecision E}.
Context `{!PartialOrder E_le} `{!Total E_le}.
Variable HBOS : Q -> list (E * Q) -> nat -> bool.
Variable Smoother_fit : list E -> nat -> Q * Q.
Variable fit_all_names : list E -> smoother_options -> list string.
Variable fit_all : list E -> smoother_options -> list (string * list Q).
Variables first_absent last_absent : Z.
Variable junk : nat -> nat -> option Q.
Variable DEFAULT_POLY_DEGREES : list Z.
Variable DEFAULT_SPLINE_SMOOTHS : list Q.
Variable DEFAULT_SPLINE_DEGREES : list Z.

Local Abbreviation init :=
  (TrimReport_init E_le HBOS Smoother_fit fit_all_names fit_all
     first_absent last_absent junk
     DEFAULT_POLY_DEGREES DEFAULT_SPLINE_SMOOTHS DEFAULT_SPLINE_DEGREES).

Lemma np_sort_sorted (es : list E) : Sorted E_le (np_sort E_le es).
Proof. apply Sorted_merge_sort; apply _. Qed.

Lemma np_sort_permutation (es : list E) : np_sort E_le es ≡ₚ es.
Proof. apply merge_sort_Permutation. Qed.

Lemma np_sort_perm_invariant (es1 es2 : list E) :
  es1 ≡ₚ es2 -> np_sort E_le es1 = np_sort E_le es2.
Proof.
  intros Hperm. apply (Sorted_unique E_le); [apply np_sort_sorted..|].
  by rewrite !np_sort_permutation.
Qed.

(** C10: the constructor sorts its input: two inputs that are
    permutations of each other give the same result; a report that it
    returns has the input in ascending order as [untrimmed]; and it does
    return one, the same for both inputs, on every spectrum that holds a
    point (when a search that finds nothing answers -1 or 0 and the
    smoother fits no more columns than it names in its dry run). *)
Theorem TrimReport_init_permutation (es1 es2 : list E) max_trim max_iters outlier_tol :
  es1 ≡ₚ es2 ->
  init es1 max_trim max_iters outlier_tol = init es2 max_trim max_iters outlier_tol
  /\ (forall report, init es1 max_trim max_iters outlier_tol = Ok report ->
        untrimmed report = np_sort E_le es2
        /\ Sorted E_le (untrimmed report) /\ untrimmed report ≡ₚ es2)
  /\ (es1 <> [] -> -1 <= first_absent <= 0 ->
      (forall es options,
         (length (fit_all es options)
          <= length (fit_all_names (np_sort E_le es1) options))%nat) ->
      exists report,
        init es1 max_trim max_iters outlier_tol = Ok report
        /\ init es2 max_trim max_iters outlier_tol = Ok report
        /\ Sorted E_le (untrimmed report)
        /\ untrimmed report ≡ₚ es1 /\ untrimmed report ≡ₚ es2).
Proof.
  intros Hperm.
  assert (Hsame : init es1 max_trim max_iters outlier_tol
                  = init es2 max_trim max_iters outlier_tol).
  { unfold TrimReport_init. by rewrite (np_sort_perm_invariant es1 es2 Hperm). }
  assert (Hsorted : forall report, init es1 max_trim max_iters outlier_tol = Ok report ->
            untrimmed report = np_sort E_le es2
            /\ Sorted E_le (untrimmed report) /\ untrimmed report ≡ₚ es2).
  { unfold TrimReport_init.
    intros report (snaps & _ & (info & _ & [= <-])%bind_Ok)%bind_Ok.
    unfold untrimmed. simpl. rewrite (np_sort_perm_invariant es1 es2 Hperm).
    split; [done|]. split; [apply np_sort_sorted | apply np_sort_permutation]. }
  split; [done|]. split; [done|].
  intros Hne%(np_sort_nonempty E_le) Habsent Hfits.
  destruct (report_parts_return E_le HBOS Smoother_fit fit_all_names fit_all
              first_absent last_absent junk (np_sort E_le es1) max_trim max_iters
              outlier_tol
              (mk_options DEFAULT_POLY_DEGREES DEFAULT_SPLINE_SMOOTHS
                 DEFAULT_SPLINE_DEGREES true) Hne Habsent)
    as (snaps & table & unfolds & Hsnaps & Hreport); [intros es; apply Hfits|].
  assert (Hinit : init es1 max_trim max_iters outlier_tol
                  = Ok (mk_TrimReport (np_sort E_le es1) snaps table unfolds)).
  { unfold TrimReport_init. rewrite Hsnaps. cbn [mbind pyres_bind].
    rewrite Hreport. done. }
  eexists. split; [exact Hinit|]. split; [by rewrite <- Hsame|].
  destruct (Hsorted _ Hinit) as (_ & Hs & Hp).
  split; [done|]. split; [by rewrite Hp|done].
Qed.
End Sorting.

(** ** The cells of the report *)

Section CellFacts.
Implicit Types (arr : list (list (option Q))).

Lemma cell_at_np_empty junk height width i k :
  (i < height)%nat -> (k < width)%nat ->
  cell_at (np_empty junk height width) i k = Some (junk i k).
Proof.
  intros Hi Hk. unfold cell_at, np_empty.
  rewrite list_lookup_fmap, lookup_seq_lt by done. simpl.
  by rewrite list_lookup_fmap, lookup_seq_lt.
Qed.

(** The inner loop writes the statistics of the column at position [m]
    to the three cells from [3 * (j + m) + 3] on. *)
Lemma fill_unfold_stats_written all_unfolds arr i j arr' m name values :
  fill_unfold_stats arr i j all_unfolds = Ok arr' ->
  all_unfolds !! m = Some (name, values) ->
  cell_at arr' i (3 * (j + m) + 3) = Some (evaluate_unfolding values).1.1
  /\ cell_at arr' i (3 * (j + m) + 4) = Some (evaluate_unfolding values).1.2
  /\ cell_at arr' i (3 * (j + m) + 5) = Some (evaluate_unfolding values).2.
Proof.
  revert arr j m.
  induction all_unfolds as [|[name0 values0] rest IH]; intros arr j m; [done|].
  cbn [fill_unfold_stats].
  destruct (evaluate_unfolding values0) as [[mean var] score] eqn:Hev.
  intros (a1 & H1 & (a2 & H2 & (a3 & H3 & Hrest)%bind_Ok)%bind_Ok)%bind_Ok Hm.
  destruct m as [|m].
  - injection Hm as -> ->. rewrite Hev. cbn [fst snd].
    replace (j + 0)%nat with j by lia.
    rewrite !(fill_unfold_stats_cell_at _ _ _ _ _ _ _ Hrest) by lia.
    rewrite !(arr_set_cell_at _ _ _ _ _ _ _ H3).
    rewrite !(arr_set_cell_at _ _ _ _ _ _ _ H2).
    rewrite !(arr_set_cell_at _ _ _ _ _ _ _ H1).
    repeat case_decide; try lia; done.
  - cbn [lookup list_lookup] in Hm.
    replace (j + S m)%nat with (S j + m)%nat by lia.
    by apply (IH _ _ _ Hrest).
Qed.

(** It leaves the cells past the last column it has. *)
Lemma fill_unfold_stats_beyond all_unfolds arr i j arr' k :
  fill_unfold_stats arr i j all_unfolds = Ok arr' ->
  (3 * (j + length all_unfolds) + 3 <= k)%nat ->
  cell_at arr' i k = cell_at arr i k.
Proof.
  revert arr j.
  induction all_unfolds as [|[name0 values0] rest IH]; intros arr j;
    cbn [fill_unfold_stats length].
  - by intros [= <-].
  - destruct (evaluate_unfolding values0) as [[mean var] score].
    intros (a1 & H1 & (a2 & H2 & (a3 & H3 & Hrest)%bind_Ok)%bind_Ok)%bind_Ok Hk.
    rewrite (IH _ _ Hrest) by lia.
    rewrite (arr_set_cell_at _ _ _ _ _ _ _ H3), decide_False by lia.
    rewrite (arr_set_cell_at _ _ _ _ _ _ _ H2), decide_False by lia.
    rewrite (arr_set_cell_at _ _ _ _ _ _ _ H1), decide_False by lia.
    done.
Qed.

Lemma arr_set_outside arr i k v height width :
  has_shape arr height width -> (width <= k)%nat ->
  arr_set arr i k v = Raise IndexError.
Proof.
  intros [Hh Hw] Hk. unfold arr_set.
  destruct (arr !! i) as [r|] eqn:Hr; [|done].
  pose proof (Forall_lookup_1 _ _ _ _ Hw Hr) as Hlen. simpl in Hlen.
  by rewrite decide_False by lia.
Qed.

(** With more columns than the array has room for, the inner loop runs
    out of the array. *)
Lemma fill_unfold_stats_overflow all_unfolds arr i j height width :
  has_shape arr height width -> (i < height)%nat ->
  (width < 3 * (j + length all_unfolds) + 3)%nat ->
  (3 * j + 3 <= width)%nat ->
  fill_unfold_stats arr i j all_unfolds = Raise IndexError.
Proof.
  revert arr j.
  induction all_unfolds as [|[name0 values0] rest IH]; intros arr j Hs Hi Hw Hj;
    cbn [fill_unfold_stats length] in *; [lia|].
  destruct (evaluate_unfolding values0) as [[mean var] score].
  destruct (decide (3 * j + 3 < width)%nat) as [H3|H3];
    [|by rewrite (arr_set_outside _ _ _ _ _ _ Hs) by lia].
  destruct (arr_set_returns arr i (3 * j + 3) mean _ _ Hs Hi H3) as (a1 & -> & Hs1).
  cbn [mbind pyres_bind].
  destruct (decide (3 * j + 4 < width)%nat) as [H4|H4];
    [|by rewrite (arr_set_outside _ _ _ _ _ _ Hs1) by lia].
  destruct (arr_set_returns a1 i (3 * j + 4) var _ _ Hs1 Hi H4) as (a2 & -> & Hs2).
  cbn [mbind pyres_bind].
  destruct (decide (3 * j + 5 < width)%nat) as [H5|H5];
    [|by rewrite (arr_set_outside _ _ _ _ _ _ Hs2) by lia].
  destruct (arr_set_returns a2 i (3 * j + 5) score _ _ Hs2 Hi H5) as (a3 & -> & Hs3).
  cbn [mbind pyres_bind]. apply (IH _ _ Hs3 Hi); lia.
Qed.
End CellFacts.

Section ReportCells.
Context {E : Type} `{!EqDecision E}.
Variable fit_all_names : list E -> smoother_options -> list string.
Variable fit_all : list E -> smoother_options -> list (string * list Q).
Variables first_absent last_absent : Z.
Variable junk : nat -> nat -> option Q.

Local Abbreviation one_trim := (unfold_trim fit_all first_absent last_absent).
Local Abbreviation all_trims := (unfold_trims fit_all first_absent last_absent).
Local Abbreviation across_trims :=
  (unfold_across_trims fit_all_names fit_all first_absent last_absent junk).

Implicit Types (arr : list (list (option Q))) (trim : list (row E)).

Local Abbreviation row_of := (row_of_trim fit_all first_absent last_absent).

Lemma unfold_trim_cells untrimmed options arr i trim arr' unfolds :
  one_trim untrimmed options arr i trim = Ok (arr', unfolds) ->
  unfolds = fit_all (eigs <$> trim) options
  /\ row_of untrimmed options trim (cell_at arr' i)
  /\ forall k, (3 * length unfolds + 3 <= k)%nat -> cell_at arr' i k = cell_at arr i k.
Proof.
  unfold unfold_trim. rewrite getitem_first, getitem_last.
  destruct (head (eigs <$> trim)) as [first|] eqn:Hfirst; [|done].
  destruct (last (eigs <$> trim)) as [final|] eqn:Hfinal; [|done].
  cbn [mbind pyres_bind].
  intros (kept & Hkept & (low & Hlow & (high & Hhigh &
    (a1 & H1 & (a2 & H2 & (a3 & H3 & (a4 & H4 & [= <- <-])%bind_Ok)%bind_Ok)
      %bind_Ok)%bind_Ok)%bind_Ok)%bind_Ok)%bind_Ok.
  split; [done|].
  unfold Py.truediv in Hkept, Hlow, Hhigh.
  destruct (decide (Py.len untrimmed = 0)) as [Hz|Hz]; [done|].
  injection Hkept as <-. injection Hlow as <-. injection Hhigh as <-.
  split.
  - exists first, final. split; [done|]. split; [done|].
    rewrite !(fill_unfold_stats_cell_at _ _ _ _ _ _ _ H4) by lia.
    rewrite !(arr_set_cell_at _ _ _ _ _ _ _ H3).
    rewrite !(arr_set_cell_at _ _ _ _ _ _ _ H2).
    rewrite !(arr_set_cell_at _ _ _ _ _ _ _ H1).
    unfold Qlen, Py.len. rewrite length_fmap.
    split; [repeat case_decide; (done || lia)|].
    split; [repeat case_decide; (done || lia)|].
    split; [repeat case_decide; (done || lia)|].
    intros j name values Hj.
    by apply (fill_unfold_stats_written _ _ _ 0%nat _ _ _ _ H4 Hj).
  - intros k Hk.
    rewrite (fill_unfold_stats_beyond _ _ _ _ _ _ H4) by (simpl; lia).
    rewrite (arr_set_cell_at _ _ _ _ _ _ _ H3), decide_False by lia.
    rewrite (arr_set_cell_at _ _ _ _ _ _ _ H2), decide_False by lia.
    rewrite (arr_set_cell_at _ _ _ _ _ _ _ H1), decide_False by lia.
    done.
Qed.

Lemma row_of_trim_ext untrimmed options trim cells cells' :
  (forall k, cells k = cells' k) ->
  row_of untrimmed options trim cells ->
  row_of untrimmed options trim cells'.
Proof.
  intros Hext (first & final & Hf & Hl & H0 & H1 & H2 & Hcols).
  exists first, final. rewrite <- !Hext. repeat split; try done.
  all: intros; rewrite <- Hext; by eapply Hcols.
Qed.

Lemma unfold_trims_last untrimmed options trims arr last_unfolds i arr' last' :
  all_trims untrimmed options arr last_unfolds i trims = Ok (arr', last') ->
  last' = match last trims with
          | Some final => Some (fit_all (eigs <$> final) options)
          | None => last_unfolds
          end.
Proof.
  revert arr last_unfolds i.
  induction trims as [|trim rest IH]; intros arr last_unfolds i; cbn [unfold_trims].
  - by intros [= <- <-].
  - intros ([a1 u1] & Hstep & Hrest)%bind_Ok. cbn [fst snd] in Hrest.
    rewrite (IH _ _ _ Hrest).
    destruct (unfold_trim_cells _ _ _ _ _ _ _ Hstep) as (-> & _).
    destruct rest as [|trim' rest]; [done|]. rewrite last_cons_cons.
    destruct (last (trim' :: rest)) eqn:Hlast; [done|]. by apply last_None in Hlast.
Qed.

Lemma unfold_trims_cells untrimmed options trims arr last_unfolds i arr' last' :
  all_trims untrimmed options arr last_unfolds i trims = Ok (arr', last') ->
  forall m trim, trims !! m = Some trim ->
    row_of untrimmed options trim (cell_at arr' (i + m))
    /\ forall k, (3 * length (fit_all (eigs <$> trim) options) + 3 <= k)%nat ->
         cell_at arr' (i + m) k = cell_at arr (i + m) k.
Proof.
  revert arr last_unfolds i.
  induction trims as [|trim0 rest IH]; intros arr last_unfolds i; cbn [unfold_trims];
    [done|].
  intros ([a1 u1] & Hstep & Hrest)%bind_Ok m trim Hm. cbn [fst snd] in Hrest.
  destruct (unfold_trims_spec _ _ _ _ _ _ _ _ _ _ _ Hrest) as (_ & Hbefore & _).
  destruct m as [|m].
  - injection Hm as ->. replace (i + 0)%nat with i by lia.
    destruct (unfold_trim_cells _ _ _ _ _ _ _ Hstep) as (-> & Hrow & Hbeyond).
    split.
    + eapply row_of_trim_ext; [|exact Hrow].
      intros k. symmetry. apply Hbefore. lia.
    + intros k Hk. rewrite Hbefore by lia. by apply Hbeyond.
  - cbn [lookup list_lookup] in Hm.
    replace (i + S m)%nat with (S i + m)%nat by lia.
    destruct (IH _ _ _ Hrest m trim Hm) as [Hrow Hbeyond].
    split; [done|]. intros k Hk. rewrite Hbeyond by done.
    destruct (unfold_trim_spec _ _ _ _ _ _ _ _ _ _ Hstep) as (_ & Hother & _).
    apply Hother. lia.
Qed.

(** X14: a snapshot whose unfoldings have fewer columns than the dry run
    names leaves the cells of the missing columns as [np.empty] made
    them. *)
Theorem unfold_across_trims_junk untrimmed trims options report unfolds :
  across_trims untrimmed trims options = Ok (report, unfolds) ->
  forall i trim k, trims !! i = Some trim ->
    (3 * length (fit_all (eigs <$> trim) options) + 3 <= k)%nat ->
    (k < 3 * length (fit_all_names untrimmed options) + 3)%nat ->
    cell_at (data report) i k = Some (junk i k).
Proof.
  intros (arr & last' & Hfill & ->)%across_trims_Ok i trim k Hi Hk Hw. cbn [data].
  destruct (unfold_trims_cells _ _ _ _ _ _ _ _ Hfill i trim Hi) as [_ Hbeyond].
  simpl in Hbeyond. rewrite Hbeyond by done.
  apply cell_at_np_empty; [by eapply lookup_lt_Some|lia].
Qed.

(** The unfoldings that are kept are those of the last snapshot. *)
Lemma across_trims_last untrimmed trims options report unfolds :
  across_trims untrimmed trims options = Ok (report, unfolds) ->
  exists final,
    last trims = Some final /\ unfolds = fit_all (eigs <$> final) options.
Proof.
  unfold unfold_across_trims. intros ([arr last'] & Hfill & Hrest)%bind_Ok.
  cbn [fst snd] in Hrest.
  rewrite (unfold_trims_last _ _ _ _ _ _ _ _ Hfill) in Hrest.
  destruct (last trims) as [final|]; [|done].
  injection Hrest as _ <-. eauto.
Qed.

Lemma unfold_trim_overflow untrimmed options arr i trim height width :
  untrimmed <> [] -> trim <> [] ->
  has_shape arr height width -> (i < height)%nat -> (3 <= width)%nat ->
  (width < 3 * length (fit_all (eigs <$> trim) options) + 3)%nat ->
  one_trim untrimmed options arr i trim = Raise IndexError.
Proof.
  intros Hne Htrim Hs Hi Hw3 Hw. unfold unfold_trim.
  assert (Hlen : Py.len untrimmed <> 0)
    by (unfold Py.len; destruct untrimmed; [done | simpl; lia]).
  set (trimmed := eigs <$> trim) in *.
  assert (Htrimmed : trimmed <> []) by (subst trimmed; by destruct trim).
  rewrite getitem_first, getitem_last.
  destruct (head trimmed) as [first|] eqn:Hfirst; [|by apply head_None in Hfirst].
  destruct (last trimmed) as [final|] eqn:Hfinal; [|by apply last_None in Hfinal].
  cbn [mbind pyres_bind].
  destruct (truediv_returns (Py.len trimmed) _ Hlen) as [kept ->].
  destruct (truediv_returns
              (100 * find_first first_absent untrimmed first) _ Hlen) as [low ->].
  destruct (truediv_returns
              (100 * (Py.len untrimmed - 1 - find_last last_absent untrimmed final))
              _ Hlen) as [high ->].
  cbn [mbind pyres_bind].
  destruct (arr_set_returns arr i 0 (Some (np_round (100 * (1 - kept)) 3)) _ _ Hs Hi)
    as (a1 & -> & Hs1); [lia|].
  cbn [mbind pyres_bind].
  destruct (arr_set_returns a1 i 1 (Some low) _ _ Hs1 Hi) as (a2 & -> & Hs2); [lia|].
  cbn [mbind pyres_bind].
  destruct (arr_set_returns a2 i 2 (Some high) _ _ Hs2 Hi) as (a3 & -> & Hs3); [lia|].
  cbn [mbind pyres_bind].
  by rewrite (fill_unfold_stats_overflow _ _ _ _ _ _ Hs3 Hi) by lia.
Qed.

Lemma unfold_trims_overflow untrimmed options trims arr last_unfolds i height width :
  untrimmed <> [] -> (3 <= width)%nat ->
  Forall (fun trim => trim <> []) trims ->
  Exists (fun trim =>
            (width < 3 * length (fit_all (eigs <$> trim) options) + 3)%nat) trims ->
  has_shape arr height width -> (i + length trims <= height)%nat ->
  all_trims untrimmed options arr last_unfolds i trims = Raise IndexError.
Proof.
  intros Hne Hw3 Hall. revert arr last_unfolds i.
  induction Hall as [|trim rest Htrim _ IH]; intros arr last_unfolds i Hex Hs Hi;
    [by apply Exists_nil in Hex|].
  cbn [unfold_trims length] in *.
  destruct (decide (width < 3 * length (fit_all (eigs <$> trim) options) + 3)%nat)
    as [Hover|Hfits].
  - by rewrite (unfold_trim_overflow _ _ _ _ _ _ _ Hne Htrim Hs) by (lia || done).
  - apply Exists_cons in Hex as [?|Hex]; [done|].
    destruct (unfold_trim_returns fit_all first_absent last_absent
                untrimmed options arr i trim _ _ Hne Htrim Hs)
      as (arr' & unfolds & -> & Hs'); [lia|lia|].
    cbn [mbind pyres_bind fst snd]. apply IH; [done..|lia].
Qed.

(** X15: when the unfoldings of some snapshot have more columns than
    the dry run names, the report is not made: the statistics run out of
    the array and IndexError is raised. *)
Theorem unfold_across_trims_overflow untrimmed trims options :
  untrimmed <> [] ->
  Forall (fun trim => trim <> []) trims ->
  Exists (fun trim =>
            (length (fit_all_names untrimmed options)
             < length (fit_all (eigs <$> trim) options))%nat) trims ->
  across_trims untrimmed trims options = Raise IndexError.
Proof.
  intros Hne Hall Hex. unfold unfold_across_trims.
  rewrite (unfold_trims_overflow untrimmed options trims _ None 0 (length trims)
             (length (fit_all_names untrimmed options) * 3 + 3)).
  - done.
  - done.
  - lia.
  - done.
  - eapply Exists_impl; [exact Hex|]. simpl. intros trim ?. lia.
  - apply np_empty_shape.
  - lia.
Qed.
End ReportCells.

(** ** Unfolding again *)

Section Refill.
Context {E : Type} `{!EqDecision E}.
Variable fit_all_names : list E -> smoother_options -> list string.
Variable fit_all : list E -> smoother_options -> list (string * list Q).
Variables first_absent last_absent : Z.

Implicit Types (arr : list (list (option Q))).

(** Two arrays of one shape with the same cells are the same array. *)
Lemma arr_eq arr arr' height width :
  has_shape arr height width -> has_shape arr' height width ->
  (forall i k, (i < height)%nat -> (k < width)%nat ->
     cell_at arr i k = cell_at arr' i k) ->
  arr = arr'.
Proof.
  intros [Hh Hw] [Hh' Hw'] Hcells. apply list_eq. intros i.
  destruct (decide (i < height)%nat) as [Hi|Hi];
    [|by rewrite !lookup_ge_None_2 by lia].
  destruct (lookup_lt_is_Some_2 arr i) as [r Hr]; [lia|].
  destruct (lookup_lt_is_Some_2 arr' i) as [r' Hr']; [lia|].
  rewrite Hr, Hr'. f_equal.
  pose proof (Forall_lookup_1 _ _ _ _ Hw Hr) as Hlen. simpl in Hlen.
  pose proof (Forall_lookup_1 _ _ _ _ Hw' Hr') as Hlen'. simpl in Hlen'.
  apply list_eq. intros k.
  destruct (decide (k < width)%nat) as [Hk|Hk];
    [|by rewrite !lookup_ge_None_2 by lia].
  specialize (Hcells i k Hi Hk). unfold cell_at in Hcells.
  by rewrite Hr, Hr' in Hcells.
Qed.

(** A row of the report with a cell for every column is determined by
    its snapshot. *)
Lemma row_of_trim_cells untrimmed options trim cells cells' k :
  row_of_trim fit_all first_absent last_absent untrimmed options trim cells ->
  row_of_trim fit_all first_absent last_absent untrimmed options trim cells' ->
  (k < 3 * length (fit_all (eigs <$> trim) options) + 3)%nat ->
  cells k = cells' k.
Proof.
  intros (first & final & Hf & Hl & H0 & H1 & H2 & Hcols)
         (first' & final' & Hf' & Hl' & H0' & H1' & H2' & Hcols') Hk.
  rewrite Hf in Hf'. injection Hf' as <-. rewrite Hl in Hl'. injection Hl' as <-.
  destruct (decide (k < 3)%nat) as [Hk3|Hk3].
  - destruct k as [|[|[|k]]]; [congruence..|lia].
  - set (j := ((k - 3) / 3)%nat).
    assert (Hj : (j < length (fit_all (eigs <$> trim) options))%nat).
    { subst j. apply Nat.Div0.div_lt_upper_bound. lia. }
    destruct (lookup_lt_is_Some_2 _ _ Hj) as [[name values] Hnv].
    destruct (Hcols j name values Hnv) as (Ha & Hb & Hc).
    destruct (Hcols' j name values Hnv) as (Ha' & Hb' & Hc').
    pose proof (Nat.div_mod_eq (k - 3) 3) as Hdm. fold j in Hdm.
    pose proof (Nat.mod_upper_bound (k - 3) 3 ltac:(lia)) as Hm.
    destruct ((k - 3) mod 3)%nat as [|[|[|m]]] eqn:Hmod; [| | |lia].
    + replace k with (3 * j + 3)%nat by lia. congruence.
    + replace k with (3 * j + 4)%nat by lia. congruence.
    + replace k with (3 * j + 5)%nat by lia. congruence.
Qed.

Lemma unfold_trim_Ok_inv untrimmed options arr i (trim : list (row E)) step :
  unfold_trim fit_all first_absent last_absent untrimmed options arr i trim = Ok step ->
  trim <> [] /\ untrimmed <> [].
Proof.
  unfold unfold_trim. rewrite getitem_first.
  destruct trim as [|r trim]; [done|]. cbn [fmap list_fmap head mbind pyres_bind].
  intros (final & _ & (kept & Hkept & _)%bind_Ok)%bind_Ok.
  split; [done|]. intros ->. by unfold Py.truediv in Hkept.
Qed.

Lemma unfold_trims_Ok_inv untrimmed options trims arr last_unfolds i filled :
  unfold_trims fit_all first_absent last_absent untrimmed options arr last_unfolds
    i trims = Ok filled ->
  Forall (fun trim : list (row E) => trim <> []) trims
  /\ (trims <> [] -> untrimmed <> []).
Proof.
  revert arr last_unfolds i.
  induction trims as [|trim rest IH]; intros arr last_unfolds i; cbn [unfold_trims].
  - done.
  - intros (step & Hstep & Hrest)%bind_Ok.
    destruct (unfold_trim_Ok_inv _ _ _ _ _ _ Hstep) as [Htrim Hne].
    destruct (IH _ _ _ Hrest) as [Hall _].
    split; [by constructor|done].
Qed.

(** The table across the trims does not depend on what [np.empty]
    leaves in the array, when the unfoldings of every snapshot have as
    many columns as the dry run names. *)
Lemma across_trims_any_junk junk junk' untrimmed trims options info :
  Forall (fun trim =>
            length (fit_all (eigs <$> trim) options)
            = length (fit_all_names untrimmed options)) trims ->
  unfold_across_trims fit_all_names fit_all first_absent last_absent junk
    untrimmed trims options = Ok info ->
  unfold_across_trims fit_all_names fit_all first_absent last_absent junk'
    untrimmed trims options = Ok info.
Proof.
  intros Hall Hinfo. destruct info as [report unfolds].
  pose proof Hinfo as (arr & last1 & Hfill & ->)%across_trims_Ok.
  destruct (unfold_trims_Ok_inv _ _ _ _ _ _ _ Hfill) as [Hnonempty Hne].
  assert (Htrims : trims <> []).
  { intros ->. revert Hinfo. by unfold unfold_across_trims. }
  destruct (unfold_across_trims_returns fit_all_names fit_all first_absent last_absent
              junk' untrimmed trims options (Hne Htrims) Htrims)
    as (report' & unfolds' & Hinfo').
  { rewrite Forall_forall in Hall, Hnonempty. apply Forall_forall.
    intros trim Hin. split; [by apply Hnonempty|]. rewrite Hall by done. lia. }
  rewrite Hinfo'.
  pose proof (across_trims_last _ _ _ _ _ _ _ _ _ _ Hinfo) as (final & Hlast & ->).
  pose proof (across_trims_last _ _ _ _ _ _ _ _ _ _ Hinfo') as (final' & Hlast' & ->).
  rewrite Hlast in Hlast'. injection Hlast' as <-.
  apply across_trims_Ok in Hinfo' as (arr' & last2 & Hfill' & ->).
  assert (arr' = arr) as ->; [symmetry|done].
  set (height := length trims) in *.
  set (width := (length (fit_all_names untrimmed options) * 3 + 3)%nat) in *.
  destruct (unfold_trims_spec _ _ _ _ _ _ _ _ _ _ _ Hfill) as (Hshape & _).
  destruct (unfold_trims_spec _ _ _ _ _ _ _ _ _ _ _ Hfill') as (Hshape' & _).
  apply (arr_eq _ _ height width);
    [apply Hshape, np_empty_shape | apply Hshape', np_empty_shape |].
  intros i k Hi Hk.
  destruct (lookup_lt_is_Some_2 trims i Hi) as [trim Htrim].
  destruct (unfold_trims_cells _ _ _ _ _ _ _ _ _ _ _ Hfill i trim Htrim) as [Hrow _].
  destruct (unfold_trims_cells _ _ _ _ _ _ _ _ _ _ _ Hfill' i trim Htrim) as [Hrow' _].
  simpl in Hrow, Hrow'.
  apply (row_of_trim_cells _ _ _ _ _ _ Hrow Hrow').
  rewrite Forall_forall in Hall. rewrite (Hall trim) by by eapply list_elem_of_lookup_2.
  subst width. lia.
Qed.

(** X13: the rows of the report are made one by one.  The row of a
    snapshot holds, in the cells of the columns that the unfoldings of
    the snapshot have, what the one row of the table of that snapshot
    alone holds: the other snapshots do not bear on it, and the rows
    written after it do not overwrite it. *)
Theorem unfold_across_trims_row_alone junk junk' untrimmed trims options
    report unfolds i trim :
  unfold_across_trims fit_all_names fit_all first_absent last_absent junk
    untrimmed trims options = Ok (report, unfolds) ->
  trims !! i = Some trim ->
  exists alone,
    unfold_across_trims fit_all_names fit_all first_absent last_absent junk'
      untrimmed [trim] options = Ok (alone, fit_all (eigs <$> trim) options)
    /\ columns alone = columns report
    /\ forall k, (k < 3 * length (fit_all (eigs <$> trim) options) + 3)%nat ->
         cell_at (data report) i k = cell_at (data alone) 0 k.
Proof.
  intros Hinfo Hi.
  pose proof Hinfo as (arr & last1 & Hfill & ->)%across_trims_Ok.
  destruct (unfold_trims_Ok_inv _ _ _ _ _ _ _ Hfill) as [Hnonempty Hne].
  assert (Htrims : trims <> []) by (intros ->; done).
  assert (Htrim : trim <> []).
  { rewrite Forall_forall in Hnonempty. by eapply Hnonempty, list_elem_of_lookup_2. }
  assert (Hfits : (length (fit_all (eigs <$> trim) options)
                   <= length (fit_all_names untrimmed options))%nat).
  { destruct (decide (length (fit_all (eigs <$> trim) options)
                      <= length (fit_all_names untrimmed options))%nat) as [|Hover];
      [done|].
    rewrite (unfold_trims_overflow fit_all first_absent last_absent untrimmed options
               trims _ None 0 (length trims)
               (length (fit_all_names untrimmed options) * 3 + 3)) in Hfill.
    - done.
    - by apply Hne.
    - lia.
    - done.
    - apply Exists_exists. exists trim.
      split; [by eapply list_elem_of_lookup_2|lia].
    - apply np_empty_shape.
    - lia. }
  destruct (unfold_across_trims_returns fit_all_names fit_all first_absent last_absent
              junk' untrimmed [trim] options (Hne Htrims))
    as (alone & unfolds' & Halone); [done|by apply Forall_singleton|].
  pose proof (across_trims_last _ _ _ _ _ _ _ _ _ _ Halone) as (final & [= <-] & ->).
  exists alone. split; [done|].
  apply across_trims_Ok in Halone as (arr' & last2 & Hfill' & ->). cbn [columns data].
  split; [done|]. intros k Hk.
  destruct (unfold_trims_cells _ _ _ _ _ _ _ _ _ _ _ Hfill i trim Hi) as [Hrow _].
  destruct (unfold_trims_cells _ _ _ _ _ _ _ _ _ _ _ Hfill' 0%nat trim eq_refl)
    as [Hrow' _].
  simpl in Hrow, Hrow'.
  by apply (row_of_trim_cells _ _ _ _ _ _ Hrow Hrow').
Qed.
End Refill.

Section CompareClaims.
Context {E : Type} (E_le : relation E) `{!RelDecision E_le} `{!EqDecision E}.
Variable HBOS : Q -> list (E * Q) -> nat -> bool.
Variable Smoother_fit : list E -> nat -> Q * Q.
Variable fit_all_names : list E -> smoother_options -> list string.
Variable fit_all : list E -> smoother_options -> list (string * list Q).
Variables first_absent last_absent : Z.
Variables (DEFAULT_POLY_DEGREES : list Z) (DEFAULT_SPLINE_SMOOTHS : list Q)
  (DEFAULT_SPLINE_DEGREES : list Z).

(** X16: on a report as the constructor made it, comparing the trims
    with the default parameters changes nothing and returns the table
    the report has, whatever [np.empty] leaves in the two arrays, when
    the unfoldings of every snapshot have as many columns as the dry run
    names. *)
Theorem compare_trim_unfolds_defaults junk junk' eigenvalues max_trim max_iters
    outlier_tol self :
  let defaults := mk_options DEFAULT_POLY_DEGREES DEFAULT_SPLINE_SMOOTHS
                             DEFAULT_SPLINE_DEGREES true in
  TrimReport_init E_le HBOS Smoother_fit fit_all_names fit_all
    first_absent last_absent junk DEFAULT_POLY_DEGREES DEFAULT_SPLINE_SMOOTHS
    DEFAULT_SPLINE_DEGREES eigenvalues max_trim max_iters outlier_tol = Ok self ->
  Forall (fun trim =>
            length (fit_all (eigs <$> trim) defaults)
            = length (fit_all_names (untrimmed self) defaults)) (_trim_steps self) ->
  compare_trim_unfolds fit_all_names fit_all first_absent last_absent junk'
    self defaults = Ok (self, unfold_info self).
Proof.
  cbv zeta. unfold TrimReport_init.
  intros (steps & _ & (info & Hinfo & [= <-])%bind_Ok)%bind_Ok Hall.
  unfold untrimmed in Hall. cbn [_untrimmed _trim_steps] in Hall.
  unfold compare_trim_unfolds. cbn [_untrimmed _trim_steps].
  rewrite (across_trims_any_junk _ _ _ _ junk junk' _ _ _ info Hall Hinfo).
  cbn [mbind pyres_bind]. done.
Qed.
End CompareClaims.

(** ** The report of the constructor, row by row *)

Section ReportRows.
Context {E : Type} (E_le : relation E) `{!RelDecision E_le} `{!EqDecision E}.
Variable HBOS : Q -> list (E * Q) -> nat -> bool.
Variable Smoother_fit : list E -> nat -> Q * Q.
Variable fit_all_names : list E -> smoother_options -> list string.
Variable fit_all : list E -> smoother_options -> list (string * list Q).
Variables first_absent last_absent : Z.
Variable junk : nat -> nat -> option Q.
Variables (DEFAULT_POLY_DEGREES : list Z) (DEFAULT_SPLINE_SMOOTHS : list Q)
  (DEFAULT_SPLINE_DEGREES : list Z).

(** X17: the snapshots of a report are windows of its spectrum: the
    eigenvalues of each are consecutive values of [untrimmed], in its
    order. *)
Theorem trim_steps_window eigenvalues max_trim max_iters outlier_tol self :
  TrimReport_init E_le HBOS Smoother_fit fit_all_names fit_all
    first_absent last_absent junk DEFAULT_POLY_DEGREES DEFAULT_SPLINE_SMOOTHS
    DEFAULT_SPLINE_DEGREES eigenvalues max_trim max_iters outlier_tol = Ok self ->
  forall k df, _trim_steps self !! k = Some df ->
    exists before after, untrimmed self = before ++ (eigs <$> df) ++ after.
Proof.
  unfold TrimReport_init.
  intros (steps & Hsteps & (info & _ & [= <-])%bind_Ok)%bind_Ok k df Hdf.
  unfold untrimmed. cbn [_trim_steps _untrimmed] in *.
  by eapply trim_iters_window.
Qed.

(** X18: the unfoldings of a report are those of its last snapshot alone,
    with the default parameters. *)
Theorem unfoldings_of_last_snapshot eigenvalues max_trim max_iters outlier_tol self :
  TrimReport_init E_le HBOS Smoother_fit fit_all_names fit_all
    first_absent last_absent junk DEFAULT_POLY_DEGREES DEFAULT_SPLINE_SMOOTHS
    DEFAULT_SPLINE_DEGREES eigenvalues max_trim max_iters outlier_tol = Ok self ->
  exists final,
    last (_trim_steps self) = Some final
    /\ unfoldings self
       = fit_all (eigs <$> final)
           (mk_options DEFAULT_POLY_DEGREES DEFAULT_SPLINE_SMOOTHS
              DEFAULT_SPLINE_DEGREES true).
Proof.
  unfold TrimReport_init.
  intros (steps & _ & ([report unfolds] & Hinfo & [= <-])%bind_Ok)%bind_Ok.
  unfold unfoldings. cbn [_trim_steps _all_unfolds fst snd].
  by eapply across_trims_last.
Qed.

(** X19: the snapshot of a row has as many points as the snapshot before
    has inliers, and the row has trim_percent 0 when that is the whole
    spectrum: the points that the iteration of the row labels outlier
    are not counted yet.  So the row of the first iteration has
    trim_percent 0, as row zero has. *)
Theorem report_percent_lags eigenvalues max_trim max_iters outlier_tol self :
  TrimReport_init E_le HBOS Smoother_fit fit_all_names fit_all
    first_absent last_absent junk DEFAULT_POLY_DEGREES DEFAULT_SPLINE_SMOOTHS
    DEFAULT_SPLINE_DEGREES eigenvalues max_trim max_iters outlier_tol = Ok self ->
  forall k prev df,
    _trim_steps self !! k = Some prev -> _trim_steps self !! S k = Some df ->
    length df = inlier_count prev
    /\ (k = 0%nat -> inlier_count prev = length (untrimmed self))
    /\ (inlier_count prev = length (untrimmed self) ->
        exists percent,
          cell_at (data (unfold_info self)) (S k) 0 = Some (Some percent)
          /\ (percent == 0)%Q).
Proof.
  unfold TrimReport_init.
  intros (steps & Hsteps & ([report unfolds] & Hinfo & [= <-])%bind_Ok)%bind_Ok
    k prev df Hprev Hdf.
  unfold unfold_info, untrimmed.
  cbn [_trim_steps _unfold_info _untrimmed fst snd] in *.
  set (sorted := np_sort E_le eigenvalues) in *.
  apply across_trims_Ok in Hinfo as (arr & last' & Hfill & ->). cbn [data].
  destruct (unfold_trims_cells _ _ _ _ _ _ _ _ _ _ _ Hfill (S k) df Hdf) as [Hrow _].
  destruct Hrow as (_ & _ & _ & _ & Hpercent & _).
  destruct (trim_iters_step _ _ _ _ _ _ _ _ _ _ _ _ Hsteps Hdf)
    as (prev' & flags & Hprev' & Hit).
  rewrite Hprev in Hprev'. injection Hprev' as <-.
  destruct (iteration_spec _ _ _ _ _ _ _ _ Hit) as (Hrows & _).
  assert (Hlen : length df = inlier_count prev)
    by (unfold inlier_count; by rewrite Hrows).
  split; [done|]. split.
  - intros ->.
    destruct (trim_iters_first _ _ _ _ _ _ _ _ _ _ Hsteps)
      as (df0 & Hdf0 & Heigs & Hlabels).
    rewrite Hprev in Hdf0. injection Hdf0 as <-.
    assert (Hn : length prev = length sorted) by by rewrite <- Heigs, length_fmap.
    unfold inlier_count. rewrite filter_all_inliers by by rewrite Hlabels, Hn.
    done.
  - intros Hall. eexists. split; [exact Hpercent|].
    unfold Qlen, Py.len. rewrite Hlen, Hall.
    apply np_round_zero, nothing_trimmed.
    pose proof (run_nonempty _ _ _ _ _ _ _ _ _ _
                  (trim_iters_run _ _ _ _ _ _ _ _ _ _ Hsteps)).
    destruct sorted; [done|simpl; lia].
Qed.
End ReportRows.

(** ** The log of the trim steps *)

Section LogFacts.
Context {E : Type} `{!EqDecision E}.
Implicit Types (df : list (row E)) (steps : list (list (row E))).

Lemma list_index_NoDup (l : list E) i x :
  NoDup l -> l !! i = Some x -> list_index l x = Ok i.
Proof.
  intros Hnd Hi. unfold list_index.
  destruct (list_find (fun y => y = x) l) as [[j y]|] eqn:Hfind.
  - apply list_find_Some in Hfind as (Hj & -> & _).
    f_equal. by eapply NoDup_lookup.
  - apply list_find_None in Hfind. rewrite Forall_forall in Hfind.
    exfalso. by eapply Hfind; [eapply list_elem_of_lookup_2|].
Qed.

Lemma list_index_elem_of (l : list E) x :
  x ∈ l -> exists i, list_index l x = Ok i.
Proof.
  intros Hx. unfold list_index.
  destruct (list_find (fun y => y = x) l) as [[j y]|] eqn:Hfind; [eauto|].
  apply list_find_None in Hfind. rewrite Forall_forall in Hfind.
  exfalso. by eapply Hfind.
Qed.

Lemma log_line_Ok untrimmed i df e :
  log_line untrimmed i df = Ok e ->
  log_iteration e = i
  /\ log_trim_percent e = np_round (100 * (1 - Qlen df / Qlen untrimmed)) 2
  /\ exists first final,
       head (eigs <$> df) = Some first /\ last (eigs <$> df) = Some final
       /\ list_index untrimmed first = Ok (log_first_index e)
       /\ list_index untrimmed final = Ok (log_last_index e).
Proof.
  unfold log_line. rewrite getitem_first, getitem_last.
  intros (kept & Hkept & Hrest)%bind_Ok.
  destruct (head (eigs <$> df)) as [first|]; [|done].
  cbn [mbind pyres_bind] in Hrest.
  apply bind_Ok in Hrest as (lo & Hlo & Hrest).
  destruct (last (eigs <$> df)) as [final|]; [|done].
  cbn [mbind pyres_bind] in Hrest.
  apply bind_Ok in Hrest as (hi & Hhi & [= <-]). cbn.
  split; [done|]. split; [|eauto 10].
  unfold Py.truediv in Hkept. case_decide; [done|]. injection Hkept as <-.
  unfold Qlen, Py.len. by rewrite length_fmap.
Qed.

Lemma log_line_returns untrimmed i df first final :
  untrimmed <> [] ->
  head (eigs <$> df) = Some first -> last (eigs <$> df) = Some final ->
  first ∈ untrimmed -> final ∈ untrimmed ->
  exists e, log_line untrimmed i df = Ok e.
Proof.
  intros Hne Hfirst Hfinal [lo Hlo]%list_index_elem_of [hi Hhi]%list_index_elem_of.
  unfold log_line. rewrite getitem_first, getitem_last, Hfirst, Hfinal.
  unfold Py.truediv. rewrite decide_False
    by (unfold Py.len; destruct untrimmed; [done | simpl; lia]).
  cbn [mbind pyres_bind]. rewrite Hlo, Hhi. cbn [mbind pyres_bind]. eauto.
Qed.

Lemma log_lines_Ok untrimmed i steps entries :
  (1 <= i)%nat ->
  log_lines untrimmed i steps = Ok entries ->
  length entries = length steps
  /\ forall m df e, steps !! m = Some df -> entries !! m = Some e ->
       log_line untrimmed (i + m) df = Ok e.
Proof.
  revert i entries. induction steps as [|df0 rest IH]; intros i entries Hi;
    cbn [log_lines].
  - intros [= <-]. done.
  - rewrite decide_False by lia.
    intros (e0 & He0 & (later & Hlater & [= <-])%bind_Ok)%bind_Ok.
    destruct (IH (S i) later ltac:(lia) Hlater) as [Hlen Hlines].
    split; [simpl; lia|]. intros m df e Hm He. destruct m as [|m].
    + injection Hm as <-. injection He as <-. by replace (i + 0)%nat with i by lia.
    + replace (i + S m)%nat with (S i + m)%nat by lia. by apply Hlines.
Qed.

Lemma log_lines_returns untrimmed i steps :
  (1 <= i)%nat ->
  (forall m df, steps !! m = Some df -> exists e, log_line untrimmed (i + m) df = Ok e) ->
  exists entries, log_lines untrimmed i steps = Ok entries.
Proof.
  revert i. induction steps as [|df0 rest IH]; intros i Hi Hall; cbn [log_lines];
    [eauto|].
  rewrite decide_False by lia.
  destruct (Hall 0%nat df0 eq_refl) as [e0 He0].
  replace (i + 0)%nat with i in He0 by lia. rewrite He0. cbn [mbind pyres_bind].
  destruct (IH (S i) ltac:(lia)) as [later ->]; [|cbn [mbind pyres_bind]; eauto].
  intros m df Hm. replace (S i + m)%nat with (i + S m)%nat by lia. by apply Hall.
Qed.
End LogFacts.

Section LogClaims.
Context {E : Type} (E_le : relation E) `{!RelDecision E_le} `{!EqDecision E}.
Variable HBOS : Q -> list (E * Q) -> nat -> bool.
Variable Smoother_fit : list E -> nat -> Q * Q.
Variables first_absent last_absent : Z.

Local Abbreviation trim_iters :=
  (get_trim_iters E_le HBOS Smoother_fit first_absent last_absent).

Implicit Types (df prev : list (row E)) (snaps : list (list (row E))).

(** The log of the snapshots of a trim has a line for each of them but
    the zeroth. *)
Lemma trim_log_lines untrimmed tolerance max_trim max_iters snaps entries :
  trim_iters untrimmed tolerance max_trim max_iters = Ok snaps ->
  log_lines untrimmed 0 snaps = Ok entries ->
  length entries = (length snaps - 1)%nat
  /\ forall k e, entries !! k = Some e ->
       exists df, snaps !! S k = Some df /\ log_line untrimmed (S k) df = Ok e.
Proof.
  intros Hrun%trim_iters_run Hlog.
  destruct (run_extends _ _ _ _ _ _ _ _ _ _ Hrun) as (more & -> & _).
  cbn [app log_lines] in Hlog. rewrite decide_True in Hlog by done.
  destruct (log_lines_Ok untrimmed 1 more entries ltac:(lia) Hlog) as [Hlen Hlines].
  split; [simpl; lia|]. intros k e He.
  destruct (lookup_lt_is_Some_2 more k) as [df Hdf].
  { rewrite <- Hlen. by eapply lookup_lt_Some. }
  exists df. split; [done|]. by apply (Hlines k df e).
Qed.

(** X20: the percentage logged for an iteration counts the rows of its
    snapshot, the points it labels outlier among them: it is the share
    of the spectrum that the inliers of the snapshot before leave out,
    and 0 for the first iteration. *)
Theorem trim_log_counts_rows untrimmed tolerance max_trim max_iters snaps entries :
  trim_iters untrimmed tolerance max_trim max_iters = Ok snaps ->
  log_lines untrimmed 0 snaps = Ok entries ->
  length entries = (length snaps - 1)%nat
  /\ forall k e, entries !! k = Some e ->
       exists prev,
         snaps !! k = Some prev
         /\ log_iteration e = S k
         /\ log_trim_percent e
            = np_round (100 * (1 - inject_Z (Z.of_nat (inlier_count prev))
                                    / Qlen untrimmed)) 2
         /\ (k = 0%nat -> (log_trim_percent e == 0)%Q).
Proof.
  intros Hrun Hlog.
  destruct (trim_log_lines _ _ _ _ _ _ Hrun Hlog) as [Hlen Hlines].
  split; [done|]. intros k e He.
  destruct (Hlines k e He) as (df & Hdf & Hline).
  destruct (trim_iters_step _ _ _ _ _ _ _ _ _ _ _ _ Hrun Hdf)
    as (prev & flags & Hprev & Hit).
  destruct (iteration_spec _ _ _ _ _ _ _ _ Hit) as (Hrows & _).
  destruct (log_line_Ok _ _ _ _ Hline) as (Hi & Hp & _).
  exists prev. split; [done|]. split; [done|].
  assert (Hpercent : log_trim_percent e
            = np_round (100 * (1 - inject_Z (Z.of_nat (inlier_count prev))
                                    / Qlen untrimmed)) 2).
  { rewrite Hp. unfold Qlen, Py.len, inlier_count. by rewrite Hrows. }
  split; [done|]. intros ->. rewrite Hpercent.
  destruct (trim_iters_first _ _ _ _ _ _ _ _ _ _ Hrun) as (df0 & Hdf0 & Heigs & Hlabels).
  rewrite Hprev in Hdf0. injection Hdf0 as <-.
  assert (Hn : length prev = length untrimmed) by by rewrite <- Heigs, length_fmap.
  unfold inlier_count. rewrite filter_all_inliers by by rewrite Hlabels, Hn.
  rewrite Hn. apply np_round_zero, nothing_trimmed.
  pose proof (run_nonempty _ _ _ _ _ _ _ _ _ _ (trim_iters_run _ _ _ _ _ _ _ _ _ _ Hrun)).
  destruct untrimmed; [done|simpl; lia].
Qed.

(** X21: when the eigenvalues are distinct, the two indices logged for
    an iteration are the ends of its snapshot in the spectrum: the
    snapshot holds the eigenvalues from the first index to the last. *)
Theorem trim_log_indices untrimmed tolerance max_trim max_iters snaps entries :
  NoDup untrimmed ->
  trim_iters untrimmed tolerance max_trim max_iters = Ok snaps ->
  log_lines untrimmed 0 snaps = Ok entries ->
  forall k e df, entries !! k = Some e -> snaps !! S k = Some df ->
    (log_first_index e <= log_last_index e)%nat
    /\ eigs <$> df
       = take (S (log_last_index e) - log_first_index e)
              (drop (log_first_index e) untrimmed).
Proof.
  intros Hnd Hrun Hlog k e df He Hdf.
  destruct (trim_log_lines _ _ _ _ _ _ Hrun Hlog) as [_ Hlines].
  destruct (Hlines k e He) as (df' & Hdf' & Hline).
  rewrite Hdf in Hdf'. injection Hdf' as <-.
  destruct (log_line_Ok _ _ _ _ Hline) as (_ & _ & first & final & Hf & Hl & Hlo & Hhi).
  destruct (trim_iters_window _ _ _ _ _ _ _ _ _ _ _ _ Hrun Hdf) as (before & after & Hw).
  set (w := eigs <$> df) in *.
  assert (Hlen : (0 < length w)%nat) by (destruct w; [done|simpl; lia]).
  assert (Hfirst : untrimmed !! length before = Some first).
  { rewrite Hw, lookup_app_r, Nat.sub_diag, lookup_app_l by lia.
    by rewrite <- head_lookup. }
  assert (Hfinal : untrimmed !! (length before + (length w - 1))%nat = Some final).
  { rewrite Hw, lookup_app_r by lia.
    replace (length before + (length w - 1) - length before)%nat
      with (pred (length w)) by lia.
    rewrite lookup_app_l by lia. by rewrite <- last_lookup. }
  rewrite (list_index_NoDup _ _ _ Hnd Hfirst) in Hlo. injection Hlo as <-.
  rewrite (list_index_NoDup _ _ _ Hnd Hfinal) in Hhi. injection Hhi as <-.
  split; [lia|].
  replace (S (length before + (length w - 1)) - length before)%nat
    with (length w) by lia.
  rewrite Hw, drop_app_length. by rewrite take_app_length.
Qed.

(** The first and the last eigenvalue of a snapshot of a trim occur in
    the spectrum, when a search that finds nothing answers -1 or 0. *)
Lemma trim_iters_ends untrimmed tolerance max_trim max_iters snaps k df :
  -1 <= first_absent <= 0 ->
  trim_iters untrimmed tolerance max_trim max_iters = Ok snaps ->
  snaps !! k = Some df ->
  exists first final,
    head (eigs <$> df) = Some first /\ last (eigs <$> df) = Some final
    /\ first ∈ untrimmed /\ final ∈ untrimmed.
Proof.
  intros Habsent Hrun Hdf.
  pose proof (trim_iters_run _ _ _ _ _ _ _ _ _ _ Hrun) as Hruns.
  assert (Hin : Forall (fun df => inlier ∈ labels df) snaps).
  { apply (run_inliers _ _ _ _ _ _ _ _ _ _ Habsent Hruns).
    apply Forall_singleton. rewrite labels_initial_snapshot.
    pose proof (run_nonempty _ _ _ _ _ _ _ _ _ _ Hruns).
    destruct untrimmed; [done|]. by left. }
  destruct (trim_iters_window _ _ _ _ _ _ _ _ _ _ _ _ Hrun Hdf) as (before & after & Hw).
  rewrite Forall_forall in Hin.
  assert (Hrows : eigs <$> df <> []).
  { intros Hnil%fmap_nil_inv. subst df.
    assert (Hempty : inlier ∈ labels ([] : list (row E)))
      by (apply Hin; by eapply list_elem_of_lookup_2).
    by apply elem_of_nil in Hempty. }
  destruct (head (eigs <$> df)) as [first|] eqn:Hf; [|by apply head_None in Hf].
  destruct (last (eigs <$> df)) as [final|] eqn:Hl; [|by apply last_None in Hl].
  exists first, final. split; [done|]. split; [done|]. rewrite Hw. split.
  - apply elem_of_app. right. apply elem_of_app. left.
    by apply head_Some_elem_of.
  - apply elem_of_app. right. apply elem_of_app. left.
    by apply last_Some_elem_of.
Qed.
End LogClaims.

Section LogOfReport.
Context {E : Type} (E_le : relation E) `{!RelDecision E_le} `{!EqDecision E}.
Variable HBOS : Q -> list (E * Q) -> nat -> bool.
Variable Smoother_fit : list E -> nat -> Q * Q.
Variable fit_all_names : list E -> smoother_options -> list string.
Variable fit_all : list E -> smoother_options -> list (string * list Q).
Variables first_absent last_absent : Z.
Variable junk : nat -> nat -> option Q.
Variables (DEFAULT_POLY_DEGREES : list Z) (DEFAULT_SPLINE_SMOOTHS : list Q)
  (DEFAULT_SPLINE_DEGREES : list Z).

(** X22: when a search that finds nothing answers -1 or 0, the log of a
    report as the constructor made it is made, with a line for every
    snapshot but the zeroth: no snapshot is empty, and the first and the
    last eigenvalue of each occur in the spectrum. *)
Theorem trim_log_returns eigenvalues max_trim max_iters outlier_tol self :
  -1 <= first_absent <= 0 ->
  TrimReport_init E_le HBOS Smoother_fit fit_all_names fit_all
    first_absent last_absent junk DEFAULT_POLY_DEGREES DEFAULT_SPLINE_SMOOTHS
    DEFAULT_SPLINE_DEGREES eigenvalues max_trim max_iters outlier_tol = Ok self ->
  exists entries,
    plot_trim_steps_log self = Ok entries
    /\ length entries = (length (_trim_steps self) - 1)%nat.
Proof.
  intros Habsent. unfold TrimReport_init.
  intros (snaps & Hrun & (info & _ & [= <-])%bind_Ok)%bind_Ok.
  unfold plot_trim_steps_log. cbn [_untrimmed _trim_steps].
  set (untrimmed := np_sort E_le eigenvalues) in *.
  pose proof (trim_iters_run _ _ _ _ _ _ _ _ _ _ Hrun) as Hruns.
  pose proof (run_nonempty _ _ _ _ _ _ _ _ _ _ Hruns) as Hne.
  destruct (run_extends _ _ _ _ _ _ _ _ _ _ Hruns) as (more & Hmore & _).
  assert (Hlog : exists entries, log_lines untrimmed 1 more = Ok entries).
  { apply log_lines_returns; [lia|]. intros m df Hm.
    assert (Hdf : snaps !! S m = Some df) by by rewrite Hmore.
    destruct (trim_iters_ends _ _ _ _ _ _ _ _ _ _ _ _ Habsent Hrun Hdf)
      as (first & final & Hf & Hl & Hfirst & Hfinal).
    by apply (log_line_returns _ _ _ first final). }
  destruct Hlog as [entries Hlog]. exists entries.
  rewrite Hmore. cbn [app log_lines length]. rewrite decide_True by done.
  split; [done|].
  destruct (log_lines_Ok untrimmed 1 more entries ltac:(lia) Hlog) as [-> _]. lia.
Qed.
End LogOfReport.

(** ** Frames and columns *)

Section MapM.
Context {A B : Type} (f : A -> pyres B).

Lemma mapM_Ok (l : list A) (r : list B) :
  mapM f l = Ok r <-> Forall2 (fun x y => f x = Ok y) l r.
Proof.
  revert r. induction l as [|x l IH]; intros r; simpl.
  - split; [intros [= <-]; constructor | by intros ->%Forall2_nil_inv_l].
  - split.
    + intros (y & Hy & (k & Hk & [= <-])%bind_Ok)%bind_Ok.
      constructor; [done | by apply IH].
    + intros (y & k & Hy & Hk & ->)%Forall2_cons_inv_l.
      rewrite Hy. simpl. apply IH in Hk. by rewrite Hk.
Qed.
End MapM.

Section FrameFacts.
Context {A : Type}.
Implicit Types (frame : list (string * list A)) (names : list string).

Lemma take_at_Ok {X} (arr : list X) idx r :
  take_at arr idx = Ok r -> Forall2 (fun i x => arr !! i = Some x) idx r.
Proof.
  unfold take_at. intros H%mapM_Ok. eapply Forall2_impl; [exact H|].
  simpl. intros i x Hi. by destruct (arr !! i) as [y|]; [injection Hi as ->|].
Qed.

Lemma select_Ok frame names r :
  select frame names = Ok r ->
  Forall2 (fun name c => c.1 = name /\ c ∈ frame) names r.
Proof.
  unfold select. intros H%mapM_Ok. eapply Forall2_impl; [exact H|].
  simpl. intros name c Hc.
  destruct (list_find _ frame) as [[i c']|] eqn:Hfind; [|done].
  injection Hc as ->. apply list_find_Some in Hfind as (Hi & Hn & _).
  split; [done | by eapply list_elem_of_lookup_2].
Qed.

(** In a frame with distinct column names a name selects its column. *)
Lemma select_unique frame name c c' :
  NoDup (fst <$> frame) -> c ∈ frame -> c' ∈ frame -> c.1 = name -> c'.1 = name ->
  c = c'.
Proof.
  intros Hnd (i & Hi)%list_elem_of_lookup_1 (j & Hj)%list_elem_of_lookup_1 H1 H2.
  assert (i = j).
  { eapply (NoDup_lookup _ _ _ name Hnd); rewrite list_lookup_fmap.
    - by rewrite Hi; simpl; f_equal.
    - by rewrite Hj; simpl; f_equal. }
  congruence.
Qed.

Lemma iloc_Ok frame i r :
  iloc frame i = Ok r ->
  Forall2 (fun c e => e.1 = c.1 /\ c.2 !! i = Some e.2) frame r.
Proof.
  unfold iloc. intros H%mapM_Ok. eapply Forall2_impl; [exact H|].
  simpl. intros c e He. destruct (c.2 !! i) as [v|]; [|done].
  by injection He as <-.
Qed.
End FrameFacts.

Section ColumnFacts.
Implicit Types (xs : list (option Q)).

Lemma elem_of_finite_values xs x : x ∈ finite_values xs <-> Some x ∈ xs.
Proof.
  unfold finite_values. rewrite list_elem_of_omap. split.
  - intros (c & Hc & Heq). unfold id in Heq. by subst c.
  - intros H. by exists (Some x).
Qed.

Lemma foldr_Qmin_spec (x : Q) (rest : list Q) :
  ((exists y, y ∈ x :: rest /\ (y == foldr Qmin x rest)%Q)
   /\ forall y, y ∈ x :: rest -> (foldr Qmin x rest <= y)%Q).
Proof.
  induction rest as [|z rest [(w & Hw & Heq) Hle]]; simpl.
  - split.
    + exists x. split; [by left | reflexivity].
    + intros y ->%list_elem_of_singleton. apply Qle_refl.
  - split.
    + destruct (Q.min_dec z (foldr Qmin x rest)) as [Hz|Hf].
      * exists z. split; [right; left | by rewrite Hz].
      * exists w. split; [|by rewrite Hf].
        apply elem_of_cons in Hw as [->|Hw]; [by left | by do 2 right].
    + intros y Hy.
      assert (y = z \/ y ∈ x :: rest) as [->|Hy'].
      { apply elem_of_cons in Hy as [->|Hy]; [right; by left|].
        apply elem_of_cons in Hy as [->|Hy]; [by left | right; by right]. }
      * apply Q.le_min_l.
      * eapply Qle_trans; [apply Q.le_min_r | by apply Hle].
Qed.

(** [Series.min()] is the least of the numbers of the column. *)
Lemma col_min_is_min xs m : col_min xs = Some m -> is_min_of m xs.
Proof.
  unfold col_min, is_min_of.
  destruct (finite_values xs) as [|x rest] eqn:Hfin; [done|].
  intros [= <-]. destruct (foldr_Qmin_spec x rest) as [(w & Hw & Heq) Hle].
  rewrite <- Hfin in Hw. split.
  - exists w. split; [by apply elem_of_finite_values | done].
  - intros y Hy%elem_of_finite_values. rewrite Hfin in Hy. by apply Hle.
Qed.

Lemma idxmin_Ok xs i :
  idxmin xs = Ok i ->
  exists m x, col_min xs = Some m /\ xs !! i = Some (Some x) /\ (x == m)%Q.
Proof.
  unfold idxmin. destruct (col_min xs) as [m|]; [|done].
  destruct (list_find _ xs) as [[j c]|] eqn:Hfind; [|done].
  intros [= <-]. apply list_find_Some in Hfind as (Hj & Hc & _).
  destruct c as [x|]; [|done]. simpl in Hc.
  exists m, x. split; [done|]. split; [done|]. by apply Qeq_bool_iff.
Qed.

Lemma cell_abs_idemp (c : option Q) : cell_abs (cell_abs c) = cell_abs c.
Proof.
  destruct c as [[n d]|]; [|done]. simpl. unfold Qabs. by rewrite Z.abs_idemp.
Qed.

Lemma cell_leb_refl (c : option Q) : cell_leb c c = true.
Proof. destruct c as [x|]; [|done]. simpl. apply Qle_bool_iff, Qle_refl. Qed.
End ColumnFacts.

Section DictKeys.
Lemma dict_keys_NoDup (seen keys : list string) :
  NoDup keys -> (forall k, k ∈ keys -> k ∉ seen) -> dict_keys seen keys = keys.
Proof.
  revert seen. induction keys as [|k keys IH]; intros seen Hnd Hseen; [done|].
  apply NoDup_cons in Hnd as [Hk Hnd]. simpl.
  rewrite decide_False by (apply Hseen; left).
  f_equal. apply IH; [done|]. intros k' Hk' [->|Hin]%elem_of_cons; [done|].
  by apply (Hseen k'); [right|].
Qed.
End DictKeys.

(** ** Score columns and the ranking *)

Section ScoreColumns.
Implicit Types (t : table) (c : string * list (option Q)).

Lemma frame_columns_names t : fst <$> frame_columns t = columns t.
Proof.
  unfold frame_columns. apply list_eq. intros i.
  rewrite list_lookup_fmap, list_lookup_imap. by destruct (columns t !! i).
Qed.

Lemma frame_abs_names (frame : list (string * list (option Q))) :
  fst <$> frame_abs frame = fst <$> frame.
Proof. unfold frame_abs. rewrite <- list_fmap_compose. by apply list_fmap_ext. Qed.

Lemma score_columns_NoDup t :
  NoDup (columns t) -> NoDup (fst <$> score_columns t).
Proof.
  intros Hnd. unfold score_columns. rewrite frame_abs_names.
  rewrite <- frame_columns_names in Hnd.
  eapply sublist_NoDup; [exact Hnd|].
  apply fmap_sublist, sublist_filter.
Qed.

Lemma elem_of_score_columns t c :
  c ∈ score_columns t <->
  exists col, (c.1, col) ∈ frame_columns t
    /\ c.2 = cell_abs <$> col /\ contains "score" c.1 = true.
Proof.
  unfold score_columns, frame_abs, filter_score.
  rewrite list_elem_of_fmap. split.
  - intros ([name col] & -> & [Hc Hin]%list_elem_of_filter). simpl in *. eauto.
  - intros (col & Hin & Habs & Hc). exists (c.1, col). split.
    + destruct c as [name a]. simpl in *. by subst a.
    + by apply list_elem_of_filter.
Qed.

Lemma abs_abs_column (col : list (option Q)) :
  cell_abs <$> (cell_abs <$> col) = cell_abs <$> col.
Proof.
  rewrite <- list_fmap_compose. apply list_fmap_ext. intros _ x _. simpl.
  apply cell_abs_idemp.
Qed.

Lemma score_column_abs t c :
  c ∈ score_columns t -> cell_abs <$> c.2 = c.2.
Proof. intros (col & _ & -> & _)%elem_of_score_columns. apply abs_abs_column. Qed.
End ScoreColumns.

Section MinFacts.
Implicit Types (xs : list (option Q)).

Lemma is_min_of_Qeq m m' xs : (m == m')%Q -> is_min_of m xs -> is_min_of m' xs.
Proof.
  intros Heq [(x & Hx & Hxm) Hle]. split.
  - exists x. split; [done|]. by rewrite Hxm.
  - intros y Hy. rewrite <- Heq. by apply Hle.
Qed.

Lemma is_min_of_col_min m xs :
  is_min_of m xs -> exists m', col_min xs = Some m' /\ (m' == m)%Q.
Proof.
  intros [(x & Hx & Hxm) Hle].
  destruct (col_min xs) as [m'|] eqn:Hmin.
  - exists m'. split; [done|].
    destruct (col_min_is_min _ _ Hmin) as [(y & Hy & Hym) Hle'].
    apply Qle_antisym.
    + rewrite <- Hxm. by apply Hle'.
    + rewrite <- Hym. by apply Hle.
  - unfold col_min in Hmin.
    destruct (finite_values xs) eqn:Hfin; [|done].
    apply elem_of_finite_values in Hx. rewrite Hfin in Hx.
    by apply elem_of_nil in Hx.
Qed.
End MinFacts.

Section BestColumns.
Variable sort_values_order : list (option Q) -> list nat.
Hypothesis sort_ok : argsort_ok sort_values_order.

Implicit Types (scores : list (string * list (option Q))).

Lemma best_columns_spec scores cols :
  best_columns sort_values_order scores = Ok cols ->
  (3 <= length scores)%nat -> NoDup (fst <$> scores) ->
  exists s1 s2 s3,
    cols = [s1.1; s2.1; s3.1]
    /\ s1 ∈ scores /\ s2 ∈ scores /\ s3 ∈ scores
    /\ cell_leb (col_min (cell_abs <$> s1.2)) (col_min (cell_abs <$> s2.2)) = true
    /\ cell_leb (col_min (cell_abs <$> s2.2)) (col_min (cell_abs <$> s3.2)) = true
    /\ forall s, s ∈ scores ->
         cell_leb (col_min (cell_abs <$> s1.2)) (col_min (cell_abs <$> s.2)) = true.
Proof.
  unfold best_columns. intros (sorted & Hsorted & [= <-])%bind_Ok Hlen Hnd.
  set (minima := (fun c : string * list (option Q) => col_min (cell_abs <$> c.2))
                   <$> scores) in *.
  pose proof (argsort_perm _ sort_ok minima) as Hperm.
  pose proof (argsort_sorted _ sort_ok minima) as Hasc.
  assert (Hminima : forall i s, scores !! i = Some s ->
            minima !! i = Some (col_min (cell_abs <$> s.2))).
  { intros i s Hs. unfold minima. by rewrite list_lookup_fmap, Hs. }
  assert (Hn : length (sort_values_order minima) = length scores).
  { rewrite Hperm, length_seq. unfold minima. by rewrite length_fmap. }
  assert (Hndo : NoDup (sort_values_order minima))
    by (rewrite Hperm; apply NoDup_seq).
  destruct (sort_values_order minima) as [|i1 [|i2 [|i3 order]]] eqn:Horder;
    simpl in Hn; try lia.
  apply take_at_Ok in Hsorted.
  apply Forall2_cons_inv_l in Hsorted as (n1 & k1 & H1 & Hsorted & ->).
  apply Forall2_cons_inv_l in Hsorted as (n2 & k2 & H2 & Hsorted & ->).
  apply Forall2_cons_inv_l in Hsorted as (n3 & k3 & H3 & Hsorted & ->).
  rewrite list_lookup_fmap in H1, H2, H3.
  destruct (scores !! i1) as [s1|] eqn:Hs1; [|done].
  destruct (scores !! i2) as [s2|] eqn:Hs2; [|done].
  destruct (scores !! i3) as [s3|] eqn:Hs3; [|done].
  simpl in H1, H2, H3. injection H1 as <-. injection H2 as <-. injection H3 as <-.
  apply NoDup_cons in Hndo as [Hi1 Hndo]. apply NoDup_cons in Hndo as [Hi2 Hndo].
  apply NoDup_cons in Hndo as [Hi3 _].
  assert (Hne : forall i j s s', i <> j -> scores !! i = Some s ->
            scores !! j = Some s' -> s.1 <> s'.1).
  { intros i j s s' Hij Hi Hj Heq. apply Hij.
    eapply (NoDup_lookup _ _ _ (s.1) Hnd); rewrite list_lookup_fmap.
    - by rewrite Hi.
    - by rewrite Hj, Heq. }
  exists s1, s2, s3. split.
  { simpl take. apply dict_keys_NoDup; [|intros ? _ ?%elem_of_nil; done].
    repeat constructor; rewrite ?elem_of_cons, ?elem_of_nil.
    - intros [Heq|[Heq|[]]].
      + revert Heq. eapply Hne; [|done..]. intros ->. apply Hi1. by left.
      + revert Heq. eapply Hne; [|done..]. intros ->. apply Hi1. right; by left.
    - intros [Heq|[]].
      revert Heq. eapply Hne; [|done..]. intros ->. apply Hi2. by left.
    - intros []. }
  split; [by eapply list_elem_of_lookup_2|].
  split; [by eapply list_elem_of_lookup_2|].
  split; [by eapply list_elem_of_lookup_2|].
  split; [by apply (Hasc 0 1 i1 i2)%nat; auto; lia|].
  split; [by apply (Hasc 1 2 i2 i3)%nat; auto; lia|].
  intros s (j & Hj)%list_elem_of_lookup_1.
  assert (Hin : j ∈ i1 :: i2 :: i3 :: order).
  { rewrite Hperm. apply elem_of_seq. apply lookup_lt_Some in Hj.
    unfold minima. rewrite length_fmap. lia. }
  apply list_elem_of_lookup_1 in Hin as (b & Hb).
  destruct b as [|b].
  - injection Hb as <-. rewrite Hs1 in Hj. injection Hj as <-. apply cell_leb_refl.
  - by apply (Hasc 0 (S b) i1 j)%nat; auto; lia.
Qed.
End BestColumns.

(** ** Best, second and third *)

Section BestEntries.
Variables sort_values_order np_argsort : list (option Q) -> list nat.
Hypothesis sort_ok : argsort_ok sort_values_order.
Variable unfold_info : table.
Hypothesis names_distinct : NoDup (columns unfold_info).

Local Abbreviation report := (frame_columns unfold_info).
Local Abbreviation scores := (score_columns unfold_info).

Implicit Types (s : string * list (option Q)).

Lemma report_NoDup : NoDup (fst <$> report).
Proof. by rewrite frame_columns_names. Qed.

(** A column selected by the name of a score column is that column
    before the absolute value. *)
Lemma select_score_column s c :
  s ∈ scores -> c ∈ report -> c.1 = s.1 -> s.2 = cell_abs <$> c.2.
Proof.
  intros (col & Hcol & Habs & _)%elem_of_score_columns Hc Hname.
  assert (c = (s.1, col)) as ->; [|done].
  by apply (select_unique report (s.1)); [apply report_NoDup|..].
Qed.

(** The entry of a ranked column: its last field is the column's own
    value at the row where the absolute score is least. *)
Lemma best_entry_spec s r (before : list string) picked entry :
  s ∈ scores ->
  idxmin s.2 = Ok r ->
  select report (before ++ [s.1]) = Ok picked ->
  iloc picked r = Ok entry ->
  exists v, last entry = Some (s.1, Some v) /\ is_min_of (Qabs v) s.2.
Proof.
  intros Hs Hidx Hsel Hiloc.
  apply select_Ok, Forall2_app_inv_l in Hsel as (p1 & p2 & _ & Hp2 & ->).
  apply Forall2_cons_inv_l in Hp2 as (c & p3 & [Hname Hc] & ->%Forall2_nil_inv_l & ->).
  apply iloc_Ok, Forall2_app_inv_l in Hiloc as (e1 & e2 & _ & He2 & ->).
  apply Forall2_cons_inv_l in He2 as (e & e3 & [He Hv] & ->%Forall2_nil_inv_l & ->).
  pose proof (select_score_column s c Hs Hc Hname) as Habs.
  destruct (idxmin_Ok _ _ Hidx) as (m & x & Hmin & Hx & Hxm).
  rewrite Habs, list_lookup_fmap, Hv in Hx. simpl in Hx.
  destruct e as [ename [v|]]; simpl in *; [|done].
  injection Hx as <-. exists v. rewrite last_snoc. split; [congruence|].
  apply (is_min_of_Qeq m); [by symmetry|]. by apply col_min_is_min.
Qed.

(** C5: the entries returned as best, second and third belong to three
    score columns; the absolute score of each is the least absolute
    score of its column; that of the best is at most the least absolute
    score of every score column, and the three are in ascending
    order. *)
Theorem summarize_best_three all_unfolds best_smoothers best_unfoldeds consistent :
  (3 <= length scores)%nat ->
  summarize_trim_unfoldings sort_values_order np_argsort unfold_info all_unfolds
    = Ok (best_smoothers, best_unfoldeds, consistent) ->
  exists e1 e2 e3 c1 c2 c3 v1 v2 v3,
    best_smoothers = [(key_str "best", e1); (key_int 0, e1);
                      (key_str "second", e2); (key_int 1, e2);
                      (key_str "third", e3); (key_int 2, e3)]
    /\ last e1 = Some (c1, Some v1)
    /\ last e2 = Some (c2, Some v2)
    /\ last e3 = Some (c3, Some v3)
    /\ row_min_abs scores c1 (Qabs v1)
    /\ row_min_abs scores c2 (Qabs v2)
    /\ row_min_abs scores c3 (Qabs v3)
    /\ (forall c m, row_min_abs scores c m -> (Qabs v1 <= m)%Q)
    /\ (Qabs v1 <= Qabs v2)%Q /\ (Qabs v2 <= Qabs v3)%Q.
Proof.
  intros Hlen. unfold summarize_trim_unfoldings. fold (score_columns unfold_info).
  intros (cols & Hcols & (chosen & Hchosen & (rows & Hrows & (unf & _ &
    (bs & Hbs & (tmed & _ & (tmean & _ & [= <- <- <-])%bind_Ok)%bind_Ok)%bind_Ok)
    %bind_Ok)%bind_Ok)%bind_Ok)%bind_Ok.
  destruct (best_columns_spec _ sort_ok _ _ Hcols Hlen
              (score_columns_NoDup _ names_distinct))
    as (s1 & s2 & s3 & -> & Hs1 & Hs2 & Hs3 & H12 & H23 & Hall).
  (* the columns selected for the three names *)
  apply select_Ok in Hchosen.
  apply Forall2_cons_inv_l in Hchosen as (r1 & ? & [Hn1 Hr1] & Hchosen & ->).
  apply Forall2_cons_inv_l in Hchosen as (r2 & ? & [Hn2 Hr2] & Hchosen & ->).
  apply Forall2_cons_inv_l in Hchosen as (r3 & ? & [Hn3 Hr3] & ->%Forall2_nil_inv_l & ->).
  pose proof (select_score_column s1 r1 Hs1 Hr1 Hn1) as Ha1.
  pose proof (select_score_column s2 r2 Hs2 Hr2 Hn2) as Ha2.
  pose proof (select_score_column s3 r3 Hs3 Hr3 Hn3) as Ha3.
  (* the rows of the least absolute scores *)
  apply mapM_Ok in Hrows. simpl in Hrows.
  apply Forall2_cons_inv_l in Hrows as (q1 & ? & Hq1 & Hrows & ->).
  apply Forall2_cons_inv_l in Hrows as (q2 & ? & Hq2 & Hrows & ->).
  apply Forall2_cons_inv_l in Hrows as (q3 & ? & Hq3 & ->%Forall2_nil_inv_l & ->).
  simpl in Hq1, Hq2, Hq3. rewrite <- Ha1 in Hq1. rewrite <- Ha2 in Hq2.
  rewrite <- Ha3 in Hq3.
  (* the three entries *)
  simpl in Hbs.
  apply bind_Ok in Hbs as (p1 & Hp1 & (e1 & He1 & Hbs)%bind_Ok).
  apply bind_Ok in Hbs as (later1 & Hbs & [= <-]).
  apply bind_Ok in Hbs as (p2 & Hp2 & (e2 & He2 & Hbs)%bind_Ok).
  apply bind_Ok in Hbs as (later2 & Hbs & [= <-]).
  apply bind_Ok in Hbs as (p3 & Hp3 & (e3 & He3 & Hbs)%bind_Ok).
  injection Hbs as <-.
  destruct (best_entry_spec s1 q1 [_; _; _; _; _] p1 e1 Hs1 Hq1 Hp1 He1)
    as (v1 & Hl1 & Hm1).
  destruct (best_entry_spec s2 q2 [_; _; _; _; _] p2 e2 Hs2 Hq2 Hp2 He2)
    as (v2 & Hl2 & Hm2).
  destruct (best_entry_spec s3 q3 [_; _; _; _; _] p3 e3 Hs3 Hq3 Hp3 He3)
    as (v3 & Hl3 & Hm3).
  exists e1, e2, e3, s1.1, s2.1, s3.1, v1, v2, v3.
  split; [done|]. split; [done|]. split; [done|]. split; [done|].
  assert (Hrow : forall s v, s ∈ scores -> is_min_of (Qabs v) s.2 ->
            row_min_abs scores s.1 (Qabs v)).
  { intros [c a] v Hs Hm. by exists a. }
  split; [by apply Hrow|]. split; [by apply Hrow|]. split; [by apply Hrow|].
  assert (Hleb : forall s s' m m', s ∈ scores -> s' ∈ scores ->
            cell_leb (col_min (cell_abs <$> s.2)) (col_min (cell_abs <$> s'.2)) = true ->
            is_min_of m s.2 -> is_min_of m' s'.2 -> (m <= m')%Q).
  { intros s s' m m' Hs Hs' Hle Hm Hm'.
    rewrite (score_column_abs unfold_info s), (score_column_abs unfold_info s')
      in Hle by done.
    destruct (is_min_of_col_min _ _ Hm) as (n & Hn & Hnm).
    destruct (is_min_of_col_min _ _ Hm') as (n' & Hn' & Hnm').
    rewrite Hn, Hn' in Hle. simpl in Hle. apply Qle_bool_iff in Hle.
    by rewrite <- Hnm, <- Hnm'. }
  split; [|split; eauto].
  intros c m (a & Ha & Hm). by apply (Hleb s1 (c, a)); auto.
Qed.
End BestEntries.

(** ** The ranked entries and their unfoldings *)

Section RankedEntries.
Implicit Types (report : list (string * list (option Q))) (cols : list string).

Lemma length_dict_keys seen keys : (length (dict_keys seen keys) <= length keys)%nat.
Proof.
  revert seen. induction keys as [|k keys IH]; intros seen; simpl; [done|].
  case_decide; simpl; [specialize (IH seen)|specialize (IH (k :: seen))]; lia.
Qed.

(** The last field of an entry is the value of its score column. *)
Lemma entry_last_field report (before : list string) col picked r (entry : list (string * option Q)) :
  select report (before ++ [col]) = Ok picked ->
  iloc picked r = Ok entry ->
  exists v, last entry = Some (col, v).
Proof.
  intros Hsel Hiloc.
  apply select_Ok, Forall2_app_inv_l in Hsel as (p1 & p2 & _ & Hp2 & ->).
  apply Forall2_cons_inv_l in Hp2 as (c & p3 & [Hname Hc] & ->%Forall2_nil_inv_l & ->).
  apply iloc_Ok, Forall2_app_inv_l in Hiloc as (e1 & e2 & _ & He2 & ->).
  apply Forall2_cons_inv_l in He2 as (e & e3 & [He Hv] & ->%Forall2_nil_inv_l & ->).
  destruct e as [ename v]. simpl in *. exists v. rewrite last_snoc. congruence.
Qed.

(** The dict of the ranked entries: for the column at position [m] the
    entry under the name of its rank, then the same entry under the
    number of its rank. *)
Lemma best_entries_ranked report rows i cols bs :
  best_entries report rows i cols = Ok bs -> (i + length cols <= 3)%nat ->
  length bs = (2 * length cols)%nat
  /\ forall m col, cols !! m = Some col ->
       exists name e v,
         rank_name (i + m) = Some name
         /\ bs !! (2 * m)%nat = Some (key_str name, e)
         /\ bs !! (2 * m + 1)%nat = Some (key_int (i + m), e)
         /\ last e = Some (col, v).
Proof.
  revert i bs. induction cols as [|col0 rest IH]; intros i bs; cbn [best_entries].
  - intros [= <-] _. split; [done|]. intros m col Hm. done.
  - intros (r & Hr & (picked & Hsel & (entry & Hiloc & (later & Hlater & [= <-])
      %bind_Ok)%bind_Ok)%bind_Ok)%bind_Ok Hlen.
    cbn [length] in Hlen.
    destruct (IH _ _ Hlater) as [Hlen' Hlater']; [lia|].
    destruct (entry_last_field report
                ["trim_percent"; "trim_low"; "trim_high";
                 py_replace "score" "mean_spacing" col0;
                 py_replace "score" "var_spacing" col0]%string
                col0 picked r entry Hsel Hiloc) as [v Hv].
    assert (exists name, rank_name i = Some name) as [name Hname].
    { destruct i as [|[|[|i]]]; simpl; eauto. lia. }
    rewrite Hname. cbn [app length]. split; [lia|].
    intros m col Hm. destruct m as [|m].
    + injection Hm as <-. replace (i + 0)%nat with i by lia.
      exists name, entry, v. done.
    + cbn [lookup list_lookup] in Hm.
      destruct (Hlater' m col Hm) as (name' & e & v' & Hn' & H0 & H1 & Hl).
      exists name', e, v'.
      replace (i + S m)%nat with (S i + m)%nat by lia.
      replace (2 * S m)%nat with (S (S (2 * m))) by lia.
      replace (S (S (2 * m)) + 1)%nat with (S (S (2 * m + 1))) by lia.
      done.
Qed.
End RankedEntries.

Section Unfoldeds.
Variables sort_values_order np_argsort : list (option Q) -> list nat.
Variable unfold_info : table.

Local Abbreviation scores := (score_columns unfold_info).

(** X23: the unfoldings returned with the ranking are columns of the
    unfoldings kept with the report, at most three: the column at
    position [i] has the name of the score column of the entry of rank
    [i], with --score taken off. *)
Theorem summarize_best_unfoldeds all_unfolds best_smoothers best_unfoldeds consistent :
  summarize_trim_unfoldings sort_values_order np_argsort unfold_info all_unfolds
    = Ok (best_smoothers, best_unfoldeds, consistent) ->
  (length best_unfoldeds <= 3)%nat
  /\ forall i c, best_unfoldeds !! i = Some c ->
       c ∈ all_unfolds
       /\ exists e col v,
            best_smoothers !! (2 * i + 1)%nat = Some (key_int i, e)
            /\ last e = Some (col, v)
            /\ c.1 = py_replace "--score" "" col.
Proof.
  unfold summarize_trim_unfoldings. fold (score_columns unfold_info).
  intros (cols & Hcols & (chosen & _ & (rows & _ & (unf & Hunf &
    (bs & Hbs & (tmed & _ & (tmean & _ & [= <- <- <-])%bind_Ok)%bind_Ok)%bind_Ok)
    %bind_Ok)%bind_Ok)%bind_Ok)%bind_Ok.
  assert (Hlen : (length cols <= 3)%nat).
  { revert Hcols. unfold best_columns. intros (sorted & _ & [= <-])%bind_Ok.
    etransitivity; [apply length_dict_keys|]. rewrite length_take. lia. }
  apply select_Ok in Hunf. pose proof (Forall2_length _ _ _ Hunf) as Hn.
  rewrite length_fmap in Hn. split; [lia|].
  intros i c Hc.
  destruct (Forall2_lookup_r _ _ _ _ _ Hunf Hc) as (name & Hname & Hcn & Hin).
  split; [done|].
  rewrite list_lookup_fmap in Hname.
  destruct (cols !! i) as [col|] eqn:Hcol; [|done]. injection Hname as <-.
  destruct (best_entries_ranked _ _ _ _ _ Hbs) as [_ Hranked]; [simpl; lia|].
  destruct (Hranked i col Hcol) as (rname & e & v & _ & _ & He & Hlast).
  exists e, col, v. done.
Qed.
End Unfoldeds.

Section FewColumns.
Variables sort_values_order np_argsort : list (option Q) -> list nat.
Hypothesis sort_ok : argsort_ok sort_values_order.
Variable unfold_info : table.
Hypothesis names_distinct : NoDup (columns unfold_info).

Local Abbreviation scores := (score_columns unfold_info).

Lemma take_at_NoDup {X} (arr : list X) idx r :
  take_at arr idx = Ok r -> NoDup arr -> NoDup idx -> NoDup r.
Proof.
  intros Hr%take_at_Ok Harr Hidx. apply NoDup_alt. intros a b x Ha Hb.
  destruct (Forall2_lookup_r _ _ _ _ _ Hr Ha) as (i & Hi & Hix).
  destruct (Forall2_lookup_r _ _ _ _ _ Hr Hb) as (j & Hj & Hjx).
  assert (i = j) as -> by apply (NoDup_lookup arr i j x Harr Hix Hjx).
  apply (NoDup_lookup idx a b j Hidx Hi Hj).
Qed.

Lemma length_best_columns cols :
  best_columns sort_values_order scores = Ok cols ->
  length cols = min 3 (length scores).
Proof.
  unfold best_columns. intros (sorted & Hsorted & [= <-])%bind_Ok.
  set (minima := (fun c : string * list (option Q) => col_min (cell_abs <$> c.2))
                   <$> scores) in *.
  pose proof (argsort_perm _ sort_ok minima) as Hperm.
  assert (Hnd : NoDup sorted).
  { eapply take_at_NoDup; [done|by apply score_columns_NoDup|].
    rewrite Hperm. apply NoDup_seq. }
  rewrite dict_keys_NoDup.
  - rewrite length_take. apply take_at_Ok, Forall2_length in Hsorted.
    rewrite <- Hsorted, Hperm, length_seq. unfold minima. rewrite length_fmap. lia.
  - eapply sublist_NoDup; [exact Hnd|]. apply sublist_take.
  - intros k _. apply not_elem_of_nil.
Qed.

(** X24: with fewer than three score columns the ranking is shorter, not
    an error: there are as many ranked entries as score columns, at most
    three, each under the name of its rank and under its number, and as
    many unfoldings. *)
Theorem summarize_ranks all_unfolds best_smoothers best_unfoldeds consistent :
  summarize_trim_unfoldings sort_values_order np_argsort unfold_info all_unfolds
    = Ok (best_smoothers, best_unfoldeds, consistent) ->
  let n := min 3 (length scores) in
  length best_smoothers = (2 * n)%nat
  /\ length best_unfoldeds = n
  /\ forall i, (i < n)%nat ->
       exists name e,
         rank_name i = Some name
         /\ best_smoothers !! (2 * i)%nat = Some (key_str name, e)
         /\ best_smoothers !! (2 * i + 1)%nat = Some (key_int i, e).
Proof.
  unfold summarize_trim_unfoldings. fold (score_columns unfold_info).
  intros (cols & Hcols & (chosen & _ & (rows & _ & (unf & Hunf &
    (bs & Hbs & (tmed & _ & (tmean & _ & [= <- <- <-])%bind_Ok)%bind_Ok)%bind_Ok)
    %bind_Ok)%bind_Ok)%bind_Ok)%bind_Ok.
  cbv zeta. pose proof (length_best_columns _ Hcols) as Hlen.
  destruct (best_entries_ranked _ _ _ _ _ Hbs) as [Hbl Hranked]; [simpl; lia|].
  apply select_Ok, Forall2_length in Hunf. rewrite length_fmap in Hunf.
  split; [lia|]. split; [lia|].
  intros i Hi. destruct (lookup_lt_is_Some_2 cols i) as [col Hcol]; [lia|].
  destruct (Hranked i col Hcol) as (name & e & v & Hname & H0 & H1 & _).
  eauto.
Qed.
End FewColumns.

Section EntryRows.
Variables sort_values_order np_argsort : list (option Q) -> list nat.
Variable unfold_info : table.

Local Abbreviation report := (frame_columns unfold_info).

(** A column of the frame of a table holds the cells of the rows at its
    position. *)
Lemma elem_of_frame_columns (c : string * list (option Q)) :
  c ∈ report ->
  exists k, columns unfold_info !! k = Some c.1
    /\ c.2 = (fun row => value_at row k) <$> data unfold_info.
Proof.
  intros (k & Hk)%list_elem_of_lookup_1. exists k.
  unfold frame_columns in Hk. rewrite list_lookup_imap in Hk.
  destruct (columns unfold_info !! k) as [name|]; [|done].
  by injection Hk as <-.
Qed.

(** The fields of a row read by name are cells of that row. *)
Lemma select_iloc_row names picked r (entry : list (string * option Q)) :
  names <> [] ->
  select report names = Ok picked ->
  iloc picked r = Ok entry ->
  exists row,
    data unfold_info !! r = Some row
    /\ Forall2 (fun name field =>
                  field.1 = name
                  /\ exists k, columns unfold_info !! k = Some name
                       /\ field.2 = value_at row k) names entry.
Proof.
  intros Hne Hsel%select_Ok Hiloc%iloc_Ok.
  assert (Hrow : exists row, data unfold_info !! r = Some row).
  { destruct Hsel as [|name c names' picked' [_ Hc] _]; [done|].
    apply Forall2_cons_inv_l in Hiloc as (field & ? & [_ Hv] & _ & _).
    destruct (elem_of_frame_columns c Hc) as (k & _ & Hcol).
    rewrite Hcol, list_lookup_fmap in Hv.
    destruct (data unfold_info !! r) as [row|]; [eauto|done]. }
  destruct Hrow as [row Hrow]. exists row. split; [done|].
  clear Hne. revert entry Hiloc.
  induction Hsel as [|name c names' picked' [Hname Hc] _ IH]; intros entry Hiloc.
  - apply Forall2_nil_inv_l in Hiloc as ->. constructor.
  - apply Forall2_cons_inv_l in Hiloc as (field & entry' & [Hf Hv] & Hrest & ->).
    constructor; [|by apply IH].
    destruct (elem_of_frame_columns c Hc) as (k & Hk & Hcol).
    split; [congruence|]. exists k. split; [congruence|].
    rewrite Hcol, list_lookup_fmap, Hrow in Hv. by injection Hv as <-.
Qed.

(** The entry of the column at position [m] is read from the row that
    holds its least absolute score. *)
Lemma best_entries_picked rows i cols bs m col e :
  best_entries report rows i cols = Ok bs -> (i + length cols <= 3)%nat ->
  cols !! m = Some col ->
  bs !! (2 * m + 1)%nat = Some (key_int (i + m), e) ->
  exists r picked,
    rows !! (i + m)%nat = Some r
    /\ select report
         ["trim_percent"; "trim_low"; "trim_high";
          py_replace "score" "mean_spacing" col;
          py_replace "score" "var_spacing" col; col]%string = Ok picked
    /\ iloc picked r = Ok e.
Proof.
  revert i bs m. induction cols as [|c0 rest IH]; intros i bs m; cbn [best_entries];
    [done|].
  intros (r & Hr & (picked & Hsel & (entry & Hiloc & (later & Hlater & [= <-])
    %bind_Ok)%bind_Ok)%bind_Ok)%bind_Ok Hlen Hm.
  cbn [length] in Hlen.
  assert (exists name, rank_name i = Some name) as [name ->].
  { destruct i as [|[|[|i]]]; simpl; eauto. lia. }
  cbn [app]. destruct m as [|m].
  - injection Hm as ->. cbn [lookup list_lookup Nat.add Nat.mul].
    intros [= _ Hentry]. rewrite Hentry in Hiloc.
    replace (i + 0)%nat with i by lia.
    exists r, picked. split; [|split; [exact Hsel | exact Hiloc]].
    by destruct (rows !! i) as [r'|]; [injection Hr as ->|].
  - cbn [lookup list_lookup] in Hm.
    replace (2 * S m + 1)%nat with (S (S (2 * m + 1))) by lia.
    replace (i + S m)%nat with (S i + m)%nat by lia.
    cbn [lookup list_lookup]. intros He.
    apply (IH (S i) later m); [done|lia|done|done].
Qed.

(** X25: each entry of the ranking is read from one row of the report: its
    six fields are the cells of that row in the columns trim_percent,
    trim_low and trim_high, in the two columns named like the score
    column with "score" replaced by "mean_spacing" and by "var_spacing",
    and in the score column itself. *)
Theorem summarize_entry_row all_unfolds best_smoothers best_unfoldeds consistent :
  summarize_trim_unfoldings sort_values_order np_argsort unfold_info all_unfolds
    = Ok (best_smoothers, best_unfoldeds, consistent) ->
  forall i e, best_smoothers !! (2 * i + 1)%nat = Some (key_int i, e) ->
    exists r row col,
      data unfold_info !! r = Some row
      /\ Forall2 (fun name field =>
                    field.1 = name
                    /\ exists k, columns unfold_info !! k = Some name
                         /\ field.2 = value_at row k)
           ["trim_percent"; "trim_low"; "trim_high";
            py_replace "score" "mean_spacing" col;
            py_replace "score" "var_spacing" col; col]%string e.
Proof.
  unfold summarize_trim_unfoldings. fold (score_columns unfold_info).
  intros (cols & Hcols & (chosen & _ & (rows & _ & (unf & _ &
    (bs & Hbs & (tmed & _ & (tmean & _ & [= <- <- <-])%bind_Ok)%bind_Ok)%bind_Ok)
    %bind_Ok)%bind_Ok)%bind_Ok)%bind_Ok i e He.
  assert (Hlen : (length cols <= 3)%nat).
  { revert Hcols. unfold best_columns. intros (sorted & _ & [= <-])%bind_Ok.
    etransitivity; [apply length_dict_keys|]. rewrite length_take. lia. }
  destruct (best_entries_ranked _ _ _ _ _ Hbs) as [Hbl _]; [simpl; lia|].
  destruct (lookup_lt_is_Some_2 cols i) as [col Hcol].
  { apply lookup_lt_Some in He. lia. }
  destruct (best_entries_picked rows 0 cols bs i col e Hbs) as (r & picked & _ & Hsel & Hiloc);
    [simpl; lia|done|done|].
  destruct (select_iloc_row
              ["trim_percent"; "trim_low"; "trim_high";
               py_replace "score" "mean_spacing" col;
               py_replace "score" "var_spacing" col; col]%string picked r e)
    as (row & Hrow & Hfields); [discriminate|exact Hsel|exact Hiloc|].
  eauto.
Qed.
End EntryRows.

(** ** Names of score columns *)

Local Open Scope string_scope.

Section StringFacts.
Implicit Types (s p rest : string) (c : ascii).

(** A pattern without dashes matches at the start of [s] followed by a
    dash exactly when it matches at the start of [s]. *)
Lemma prefix_before_dash p s rest :
  no_dash p -> String.prefix p (s +:+ String "-" rest) = String.prefix p s.
Proof.
  revert p. induction s as [|c s IH]; intros p Hp.
  - destruct p as [|a p]; [done|]. simpl in *. destruct Hp as [Ha _].
    by destruct (ascii_dec a "-").
  - destruct p as [|a p]; [done|]. simpl in *. destruct Hp as [_ Hp].
    destruct (ascii_dec a c); [by apply IH | done].
Qed.

Lemma contains_before_dash s rest :
  contains "score" (s +:+ String "-" rest)
  = contains "score" s || contains "score" (String "-" rest).
Proof.
  induction s as [|c s IH].
  - done.
  - change (String c s +:+ String "-" rest) with (String c (s +:+ String "-" rest)).
    cbn [contains].
    pose proof (prefix_before_dash "score" (String c s) rest) as Hp.
    change (String c s +:+ String "-" rest)
      with (String c (s +:+ String "-" rest)) in Hp.
    rewrite Hp by (repeat split; discriminate).
    rewrite IH. by rewrite orb_assoc.
Qed.

Lemma contains_score_suffix s : contains "score" (s +:+ "--score") = true.
Proof. rewrite contains_before_dash. apply orb_true_r. Qed.

Lemma contains_mean_suffix s :
  contains "score" (s +:+ "--mean_spacing") = contains "score" s.
Proof. rewrite contains_before_dash. apply orb_false_r. Qed.

Lemma contains_var_suffix s :
  contains "score" (s +:+ "--var_spacing") = contains "score" s.
Proof. rewrite contains_before_dash. apply orb_false_r. Qed.
End StringFacts.

Section StripFacts.
Implicit Types (s : string).

Lemma contains_false_inv a s :
  contains "score" (String a s) = false ->
  String.prefix "score" (String a s) = false /\ contains "score" s = false.
Proof. cbn [contains]. by intros [? ?]%orb_false_elim. Qed.

Lemma contains_false_prefix s :
  contains "score" s = false -> String.prefix "score" s = false.
Proof.
  destruct s as [|a s]; [done|]. by intros [? _]%contains_false_inv.
Qed.

Lemma no_early_suffix a s :
  contains "score" (String a s) = false ->
  String.prefix "--score" (String a s +:+ "--score") = false.
Proof.
  intros [_ Hs]%contains_false_inv.
  change (String a s +:+ "--score") with (String a (s +:+ "--score")).
  cbn [String.prefix]. destruct (ascii_dec "-" a) as [<-|]; [|done].
  destruct s as [|b s]; [done|].
  apply contains_false_inv in Hs as [_ Hs].
  change (String b s +:+ "--score") with (String b (s +:+ "--score")).
  cbn [String.prefix]. destruct (ascii_dec "-" b) as [<-|]; [|done].
  rewrite (prefix_before_dash "score" s "-score") by (repeat split; discriminate).
  by apply contains_false_prefix.
Qed.

(** Stripping gives back a name without "score" from its score column. *)
Lemma strip_score_suffix s :
  contains "score" s = false -> py_replace "--score" "" (s +:+ "--score") = s.
Proof.
  unfold py_replace. induction s as [|a s IH]; intros Hs; [done|].
  pose proof (no_early_suffix a s Hs) as Hp.
  apply contains_false_inv in Hs as [_ Hs].
  change (String a s +:+ "--score") with (String a (s +:+ "--score")) in *.
  cbn [replace_from]. rewrite Hp. f_equal. by apply IH.
Qed.
End StripFacts.

Local Close Scope string_scope.

(** ** The consistent smoothers *)

Section NamesAt.
Lemma take_at_omap {X} (arr : list X) idx r :
  take_at arr idx = Ok r -> omap (fun i => arr !! i) idx = r.
Proof.
  intros H%take_at_Ok. induction H as [|i x idx r Hi _ IH]; [done|].
  cbn [omap list_omap]. by rewrite Hi, IH.
Qed.

Lemma size_list_to_set_le (l : list string) :
  (size (list_to_set (C := gset string) l) <= length l)%nat.
Proof.
  induction l as [|x l IH]; [done|].
  rewrite list_to_set_cons, size_union_alt, size_singleton. simpl.
  assert (Hsub : list_to_set l ∖ {[x]} ⊆ list_to_set (C := gset string) l)
    by (intros y [Hy _]%elem_of_difference; exact Hy).
  apply subseteq_size in Hsub. lia.
Qed.

Lemma size_names_at names chosen : (size (names_at names chosen) <= length chosen)%nat.
Proof.
  unfold names_at. etransitivity; [apply size_list_to_set_le|].
  induction chosen as [|i chosen IH]; [done|].
  cbn [omap list_omap]. destruct (names !! i); simpl in *; lia.
Qed.
End NamesAt.

Section TopThree.
Variable np_argsort : list (option Q) -> list nat.
Hypothesis argsort_contract : argsort_ok np_argsort.

Lemma top_three_spec score_cols values chosen_names :
  top_three np_argsort score_cols values = Ok chosen_names ->
  exists chosen, lowest_three values chosen
    /\ chosen_names = names_at score_cols chosen.
Proof.
  unfold top_three. intros (names & Hnames & [= <-])%bind_Ok.
  pose proof (argsort_perm _ argsort_contract values) as Hperm.
  pose proof (argsort_sorted _ argsort_contract values) as Hasc.
  set (order := np_argsort values) in *.
  assert (Hnd : NoDup order) by (rewrite Hperm; apply NoDup_seq).
  exists (take 3 order). split.
  - split; [eapply sublist_NoDup; [exact Hnd | apply sublist_take]|].
    split; [by rewrite length_take, Hperm, length_seq|].
    split.
    + intros i (a & Ha & _)%elem_of_take.
      apply list_elem_of_lookup_2 in Ha. rewrite Hperm in Ha.
      apply elem_of_seq in Ha. lia.
    + intros i j x y (a & Ha & Ha3)%elem_of_take Hj Hx Hy.
      assert (j ∈ order) as (b & Hb)%list_elem_of_lookup_1.
      { rewrite Hperm. apply elem_of_seq. apply lookup_lt_Some in Hy. lia. }
      apply (Hasc a b i j x y); [|done..].
      destruct (decide (a < b)%nat); [done|].
      exfalso. apply Hj. apply elem_of_take. exists b. split; [done|lia].
  - unfold names_at. by rewrite (take_at_omap _ _ _ Hnames).
Qed.

End TopThree.

Section Consistent.
Variables sort_values_order np_argsort : list (option Q) -> list nat.
Hypothesis argsort_contract : argsort_ok np_argsort.
Variable unfold_info : table.

Local Abbreviation scores := (score_columns unfold_info).

(** The score columns of a report whose fits have no "score" in their
    names are the columns name--score. *)
Lemma score_column_names base_names name :
  columns unfold_info = col_names_final base_names ->
  Forall (fun n => contains "score" n = false) base_names ->
  name ∈ fst <$> scores ->
  exists n, n ∈ base_names /\ name = (n +:+ "--score")%string.
Proof.
  intros Hcols Hbase ([c a] & -> & Hin)%list_elem_of_fmap. simpl.
  apply elem_of_score_columns in Hin as (col & Hcol & _ & Hscore). simpl in *.
  apply (list_elem_of_fmap_2 fst) in Hcol. rewrite frame_columns_names, Hcols in Hcol.
  simpl in Hcol. unfold col_names_final in Hcol.
  apply elem_of_app in Hcol as [Htrim|Hfit].
  - repeat (apply elem_of_cons in Htrim as [->|Htrim]; [done|]).
    by apply elem_of_nil in Htrim.
  - apply list_elem_of_bind in Hfit as (n & Hc & Hn).
    rewrite Forall_forall in Hbase. specialize (Hbase n Hn).
    apply elem_of_cons in Hc as [->|Hc].
    { by rewrite contains_mean_suffix, Hbase in Hscore. }
    apply elem_of_cons in Hc as [->|Hc].
    { by rewrite contains_var_suffix, Hbase in Hscore. }
    apply list_elem_of_singleton in Hc as ->. eauto.
Qed.

Lemma names_at_elem names chosen name :
  name ∈ names_at names chosen -> name ∈ names.
Proof.
  unfold names_at. rewrite elem_of_list_to_set, list_elem_of_omap.
  intros (i & _ & Hi). by eapply list_elem_of_lookup_2.
Qed.

(** C6: the consistent list is the intersection of the names at three
    lowest medians and the names at three lowest means of the absolute
    scores, each with --score stripped; it has at most three names;
    and when no fit has "score" in its name, they are names of fits. *)
Theorem summarize_consistent all_unfolds best_smoothers best_unfoldeds consistent :
  summarize_trim_unfoldings sort_values_order np_argsort unfold_info all_unfolds
    = Ok (best_smoothers, best_unfoldeds, consistent) ->
  let score_cols := fst <$> scores in
  let medians := (fun c : string * list (option Q) => col_median c.2) <$> scores in
  let means := (fun c : string * list (option Q) => col_mean c.2) <$> scores in
  exists by_median by_mean,
    lowest_three medians by_median
    /\ lowest_three means by_mean
    /\ consistent = py_replace "--score" "" <$>
         elements (names_at score_cols by_mean ∩ names_at score_cols by_median)
    /\ (length consistent <= 3)%nat
    /\ forall base_names,
         columns unfold_info = col_names_final base_names ->
         Forall (fun n => contains "score" n = false) base_names ->
         forall c, c ∈ consistent <->
           c ∈ base_names
           /\ (c +:+ "--score")%string ∈ names_at score_cols by_mean
           /\ (c +:+ "--score")%string ∈ names_at score_cols by_median.
Proof.
  unfold summarize_trim_unfoldings. fold (score_columns unfold_info).
  intros (cols & _ & (chosen & _ & (rows & _ & (unf & _ &
    (bs & _ & (tmed & Hmed & (tmean & Hmean & [= <- <- <-])%bind_Ok)%bind_Ok)%bind_Ok)
    %bind_Ok)%bind_Ok)%bind_Ok)%bind_Ok.
  cbv zeta.
  destruct (top_three_spec _ argsort_contract _ _ _ Hmed) as (by_median & Hlm & ->).
  destruct (top_three_spec _ argsort_contract _ _ _ Hmean) as (by_mean & Hln & ->).
  exists by_median, by_mean. split; [done|]. split; [done|]. split; [done|].
  split.
  { rewrite length_fmap.
    change (length (elements ?X)) with (size X).
    etransitivity; [apply subseteq_size, intersection_subseteq_l|].
    etransitivity; [apply size_names_at|].
    destruct Hln as (_ & -> & _). lia. }
  intros base_names Hcols Hbase c. rewrite list_elem_of_fmap. split.
  - intros (col & -> & Hcol%elem_of_elements).
    apply elem_of_intersection in Hcol as [Hmn Hmd].
    destruct (score_column_names base_names col Hcols Hbase) as (n & Hn & ->).
    { by eapply names_at_elem. }
    rewrite Forall_forall in Hbase.
    rewrite strip_score_suffix by auto. done.
  - intros (Hc & Hmn & Hmd). exists (c +:+ "--score")%string. split.
    + rewrite Forall_forall in Hbase. by rewrite strip_score_suffix by auto.
    + apply elem_of_elements. by apply elem_of_intersection.
Qed.
End Consistent.

(** ** An argsort by insertion *)

Section InsertionArgsort.
Implicit Types (xs : list (option Q)) (sorted : list nat).

Lemma cell_leb_total (a b : option Q) : cell_leb a b = false -> cell_leb b a = true.
Proof.
  destruct a as [x|], b as [y|]; simpl; try done.
  intros H. apply Qle_bool_iff. apply Qlt_le_weak, Qnot_le_lt.
  intros Hle%Qle_bool_iff. congruence.
Qed.

Lemma cell_leb_trans (a b c : option Q) :
  cell_leb a b = true -> cell_leb b c = true -> cell_leb a c = true.
Proof.
  destruct a as [x|], b as [y|], c as [z|]; simpl; try done.
  rewrite !Qle_bool_iff. apply Qle_trans.
Qed.

Lemma insert_pos_perm xs i sorted : insert_pos xs i sorted ≡ₚ i :: sorted.
Proof.
  induction sorted as [|j rest IH]; simpl; [done|].
  destruct (cell_leb _ _); [done|]. rewrite IH. apply Permutation_swap.
Qed.

Lemma insertion_argsort_perm xs : insertion_argsort xs ≡ₚ seq 0 (length xs).
Proof.
  unfold insertion_argsort. induction (seq 0 (length xs)) as [|i l IH]; [done|].
  simpl. by rewrite insert_pos_perm, IH.
Qed.

Lemma insert_pos_sorted xs i sorted :
  StronglySorted (ascending xs) sorted ->
  StronglySorted (ascending xs) (insert_pos xs i sorted).
Proof.
  induction 1 as [|j rest Hrest IH Hj]; simpl.
  - repeat constructor.
  - destruct (cell_leb (value_at xs i) (value_at xs j)) eqn:Hij.
    + constructor; [by constructor|]. constructor; [done|].
      eapply Forall_impl; [exact Hj|]. intros k Hk. unfold ascending in *.
      by eapply cell_leb_trans.
    + constructor; [done|].
      rewrite insert_pos_perm. constructor; [|done].
      by apply cell_leb_total.
Qed.

Lemma insertion_argsort_sorted xs : StronglySorted (ascending xs) (insertion_argsort xs).
Proof.
  unfold insertion_argsort. induction (seq 0 (length xs)) as [|i l IH]; simpl.
  - constructor.
  - by apply insert_pos_sorted.
Qed.

Lemma StronglySorted_lookup {A} (R : relation A) (l : list A) a b x y :
  StronglySorted R l -> (a < b)%nat -> l !! a = Some x -> l !! b = Some y -> R x y.
Proof.
  intros Hs. revert a b. induction Hs as [|z l _ IH Hz]; intros a b Hab Ha Hb; [done|].
  destruct b as [|b]; [lia|]. simpl in Hb. destruct a as [|a].
  - injection Ha as <-. rewrite Forall_forall in Hz.
    apply Hz. by eapply list_elem_of_lookup_2.
  - simpl in Ha. apply (IH a b); [lia|done..].
Qed.

(** The insertion argsort is an argsort. *)
Lemma insertion_argsort_ok : argsort_ok insertion_argsort.
Proof.
  split.
  - apply insertion_argsort_perm.
  - intros xs a b i j x y Hab Ha Hb Hx Hy.
    pose proof (StronglySorted_lookup _ _ _ _ _ _ (insertion_argsort_sorted xs)
                  Hab Ha Hb) as Hasc.
    unfold ascending, value_at in Hasc. by rewrite Hx, Hy in Hasc.
Qed.
End InsertionArgsort.

(** ** The fixture, end to end *)

Lemma unfold_across_trims_shape_witness :
  exists trims report unfolds,
    Fixture.snaps = Ok trims
    /\ unfold_across_trims Fixture.names Fixture.fits (-1) (-1)
         Fixture.junk Fixture.long_spectrum trims Fixture.options
       = Ok (report, unfolds)
    /\ length (data report) = length trims
    /\ length (columns report) = 15%nat.
Proof.
  destruct Fixture.snaps as [trims|e] eqn:Hsnaps;
    [|vm_compute in Hsnaps; discriminate].
  destruct (unfold_across_trims Fixture.names Fixture.fits (-1) (-1)
              Fixture.junk Fixture.long_spectrum trims Fixture.options)
    as [[report unfolds]|e] eqn:Hreport.
  - exists trims, report, unfolds. split; [reflexivity|]. split; [exact Hreport|].
    pose proof (unfold_across_trims_shape Fixture.names Fixture.fits (-1) (-1)
                  Fixture.junk Fixture.long_spectrum trims Fixture.options
                  report unfolds Hreport) as Hshape.
    cbv zeta in Hshape. destruct Hshape as (Hrows & _ & Hcols & _).
    split; [exact Hrows | exact Hcols].
  - exfalso. vm_compute in Hsnaps. injection Hsnaps as <-.
    vm_compute in Hreport. discriminate.
Defined.

Lemma snapshot_zero_untrimmed_witness :
  exists trims report unfolds,
    Fixture.snaps = Ok trims
    /\ unfold_across_trims Fixture.names Fixture.fits (-1) (-1)
         Fixture.junk Fixture.long_spectrum trims Fixture.options
       = Ok (report, unfolds)
    /\ (exists df, trims !! 0%nat = Some df
          /\ eigs <$> df = Fixture.long_spectrum
          /\ labels df = replicate (length Fixture.long_spectrum) inlier)
    /\ (exists r percent,
          columns report !! 0%nat = Some "trim_percent"%string
          /\ data report !! 0%nat = Some r
          /\ r !! 0%nat = Some (Some percent)
          /\ (percent == 0)%Q).
Proof.
  destruct Fixture.snaps as [trims|e] eqn:Hsnaps;
    [|vm_compute in Hsnaps; discriminate].
  destruct (unfold_across_trims Fixture.names Fixture.fits (-1) (-1)
              Fixture.junk Fixture.long_spectrum trims Fixture.options)
    as [[report unfolds]|e] eqn:Hreport.
  - exists trims, report, unfolds. split; [reflexivity|]. split; [exact Hreport|].
    exact (snapshot_zero_untrimmed Z.le Fixture.flag_first Fixture.ramp_fit
             Fixture.names Fixture.fits (-1) (-1) Fixture.junk
             Fixture.long_spectrum (1 # 10) (1 # 2) 7 trims Fixture.options
             report unfolds Hsnaps Hreport).
  - exfalso. vm_compute in Hsnaps. injection Hsnaps as <-.
    vm_compute in Hreport. discriminate.
Defined.

Lemma TrimReport_init_permutation_witness :
  [3; 1; 2] ≡ₚ [1; 2; 3]
  /\ exists report,
       TrimReport_init Z.le Fixture.flag_first Fixture.ramp_fit
         Fixture.names Fixture.fits (-1) (-1) Fixture.junk
         [3; 4] [1%Q] [3] [3; 1; 2] (1 # 2) 7 (1 # 10) = Ok report
       /\ TrimReport_init Z.le Fixture.flag_first Fixture.ramp_fit
            Fixture.names Fixture.fits (-1) (-1) Fixture.junk
            [3; 4] [1%Q] [3] [1; 2; 3] (1 # 2) 7 (1 # 10) = Ok report
       /\ untrimmed report = [1; 2; 3]
       /\ Sorted Z.le (untrimmed report)
       /\ untrimmed report ≡ₚ [3; 1; 2].
Proof.
  assert (Hperm : [3; 1; 2] ≡ₚ [1; 2; 3]).
  { etransitivity; [apply Permutation_swap|]. apply Permutation_skip, Permutation_swap. }
  split; [exact Hperm|].
  destruct (TrimReport_init_permutation Z.le Fixture.flag_first Fixture.ramp_fit
              Fixture.names Fixture.fits (-1) (-1) Fixture.junk
              [3; 4] [1%Q] [3] [3; 1; 2] [1; 2; 3] (1 # 2) 7 (1 # 10) Hperm)
    as (_ & Hsorted & Hreturns).
  destruct Hreturns as (report & Hinit & Hinit' & Hs & Hp & _).
  - discriminate.
  - lia.
  - intros es options. simpl. lia.
  - exists report. split; [exact Hinit|]. split; [exact Hinit'|].
    destruct (Hsorted report Hinit) as (Hsort & _ & _).
    split; [|split; [exact Hs | exact Hp]].
    rewrite Hsort. reflexivity.
Defined.

(** The run of the fixture as values: [H] states what a computation
    returns; its variables are replaced by the values it computes to. *)
Ltac by_value H :=
  let Hval := fresh "Hval" in
  pose proof H as Hval; vm_compute in Hval; injection Hval as <- <-.

Lemma summarize_best_three_witness :
  exists report unfolds best_smoothers best_unfoldeds consistent e1 e2 e3 c1 c2 c3 v1 v2 v3,
    Fixture.report = Ok (report, unfolds)
    /\ summarize_trim_unfoldings insertion_argsort insertion_argsort report unfolds
       = Ok (best_smoothers, best_unfoldeds, consistent)
    /\ best_smoothers = [(key_str "best", e1); (key_int 0, e1);
                         (key_str "second", e2); (key_int 1, e2);
                         (key_str "third", e3); (key_int 2, e3)]
    /\ last e1 = Some (c1, Some v1)
    /\ last e2 = Some (c2, Some v2)
    /\ last e3 = Some (c3, Some v3)
    /\ (Qabs v1 <= Qabs v2)%Q /\ (Qabs v2 <= Qabs v3)%Q.
Proof.
  destruct Fixture.report as [[report unfolds]|e] eqn:Hreport;
    [|vm_compute in Hreport; discriminate].
  destruct (summarize_trim_unfoldings insertion_argsort insertion_argsort report unfolds)
    as [[[bs bu] cons]|e] eqn:Hsum.
  - exists report, unfolds, bs, bu, cons.
    assert (Hdistinct : NoDup (columns report)).
    { by_value Hreport. apply (bool_decide_unpack _). vm_compute. exact I. }
    assert (Hthree : (3 <= length (score_columns report))%nat).
    { by_value Hreport. vm_compute. lia. }
    destruct (summarize_best_three insertion_argsort insertion_argsort
                insertion_argsort_ok report Hdistinct unfolds bs bu cons Hthree Hsum)
      as (e1 & e2 & e3 & c1 & c2 & c3 & v1 & v2 & v3
          & Hbs & H1 & H2 & H3 & _ & _ & _ & _ & H12 & H23).
    exists e1, e2, e3, c1, c2, c3, v1, v2, v3. auto 10.
  - exfalso. by_value Hreport. vm_compute in Hsum. discriminate.
Defined.

Lemma summarize_consistent_witness :
  exists report unfolds best_smoothers best_unfoldeds consistent,
    Fixture.report = Ok (report, unfolds)
    /\ summarize_trim_unfoldings insertion_argsort insertion_argsort report unfolds
       = Ok (best_smoothers, best_unfoldeds, consistent)
    /\ (length consistent <= 3)%nat
    /\ (forall c, c ∈ consistent -> c ∈ Fixture.names [] Fixture.options).
Proof.
  destruct Fixture.report as [[report unfolds]|e] eqn:Hreport;
    [|vm_compute in Hreport; discriminate].
  destruct (summarize_trim_unfoldings insertion_argsort insertion_argsort report unfolds)
    as [[[bs bu] cons]|e] eqn:Hsum.
  - exists report, unfolds, bs, bu, cons.
    pose proof (summarize_consistent insertion_argsort insertion_argsort
                  insertion_argsort_ok report unfolds bs bu cons Hsum) as Hcons.
    cbv zeta in Hcons.
    destruct Hcons as (by_median & by_mean & _ & _ & _ & Hlen & Hnames).
    split; [reflexivity|]. split; [exact Hsum|]. split; [exact Hlen|].
    intros c Hc.
    apply (Hnames (Fixture.names [] Fixture.options)) in Hc as [Hc _]; [exact Hc | |].
    + by_value Hreport. reflexivity.
    + repeat constructor.
  - exfalso. by_value Hreport. vm_compute in Hsum. discriminate.
Defined.

(** On the fixture the three fits with the lowest scores are also the
    consistent ones. *)
Example consistent_fixture :
  (Fixture.report ≫= fun r =>
     summarize_trim_unfoldings insertion_argsort insertion_argsort r.1 r.2)
  ≫= (fun s => Ok s.2)
  = Ok ["gompertz"; "poly_3"; "poly_4"]%string.
Proof. vm_compute. reflexivity. Qed.

(** ** The properties on the fixture *)

Lemma edge_correct_only_clears_witness :
  edge_correct (-1) (-1) [true; false; true; false] = Ok [true; false; false; false]
  /\ length [true; false; false; false] = length [true; false; true; false]
  /\ forall k, [true; false; false; false] !! k = Some true ->
       [true; false; true; false] !! k = Some true.
Proof.
  split; [reflexivity|].
  apply (edge_correct_only_clears (-1) (-1) [true; false; true; false]
           [true; false; false; false]).
  reflexivity.
Defined.

Lemma edge_correct_idempotent_witness :
  edge_correct (-1) (-1) [false; true; false; true; true]
  = Ok [false; false; false; true; true]
  /\ edge_correct (-1) (-1) [false; false; false; true; true]
     = Ok [false; false; false; true; true].
Proof.
  split; [reflexivity|].
  apply (edge_correct_idempotent (-1) (-1) [false; true; false; true; true]).
  reflexivity.
Defined.

Lemma edge_correct_both_ends_witness :
  exists l',
    edge_correct (-1) (-1) [true; true; false; true; false; true] = Ok l'
    /\ l' = replicate 2 true ++ replicate (6 - 2) false
    /\ last l' = Some false.
Proof.
  apply (edge_correct_both_ends (-1) (-1) [true; true; false; true; false; true] 2).
  - reflexivity.
  - reflexivity.
  - split; [reflexivity|]. intros [|[|j]] Hj; [reflexivity..|lia].
Defined.

Lemma edge_correct_keeps_inlier_witness :
  exists l', edge_correct (-1) (-1) [true; true; true] = Ok l' /\ false ∈ l'.
Proof.
  destruct (edge_correct_keeps_inlier (-1) (-1) ltac:(lia) [true; true; true])
    as [_ Hkeeps].
  apply Hkeeps. discriminate.
Defined.

(** The snapshots of the fixture as values. *)
Ltac snaps_value H :=
  let Hval := fresh "Hval" in
  pose proof H as Hval; vm_compute in Hval; injection Hval as <-.

Lemma trim_step_one_end_witness :
  exists trims prev df dropped,
    Fixture.snaps = Ok trims
    /\ trims !! 1%nat = Some prev /\ trims !! 2%nat = Some df
    /\ (eigs <$> prev = dropped ++ (eigs <$> df)
        \/ eigs <$> prev = (eigs <$> df) ++ dropped).
Proof.
  destruct Fixture.snaps as [trims|e] eqn:Hsnaps;
    [|vm_compute in Hsnaps; discriminate Hsnaps].
  destruct (trims !! 1%nat) as [prev|] eqn:Hprev;
    [|exfalso; snaps_value Hsnaps; vm_compute in Hprev; discriminate Hprev].
  destruct (trims !! 2%nat) as [df|] eqn:Hdf;
    [|exfalso; snaps_value Hsnaps; vm_compute in Hdf; discriminate Hdf].
  destruct (trim_step_one_end Z.le Fixture.flag_first Fixture.ramp_fit (-1) (-1)
              Fixture.long_spectrum (1 # 10) (1 # 2) 7 trims 1 prev df
              Hsnaps Hprev Hdf) as [dropped Hends].
  exists trims, prev, df, dropped. auto.
Defined.

Lemma trim_snapshots_shrink_witness :
  exists trims,
    Fixture.snaps = Ok trims
    /\ (forall df, trims !! 1%nat = Some df -> eigs <$> df = Fixture.long_spectrum)
    /\ (forall k prev df, (1 <= k)%nat ->
          trims !! k = Some prev -> trims !! S k = Some df ->
          (length df < length prev)%nat).
Proof.
  destruct Fixture.snaps as [trims|e] eqn:Hsnaps;
    [|vm_compute in Hsnaps; discriminate Hsnaps].
  exists trims. split; [reflexivity|].
  exact (trim_snapshots_shrink Z.le Fixture.flag_first Fixture.ramp_fit (-1) (-1)
           Fixture.long_spectrum (1 # 10) (1 # 2) 7 trims Hsnaps).
Defined.

Lemma trim_snapshots_columns_witness :
  exists trims,
    Fixture.snaps = Ok trims
    /\ (forall k df r, trims !! k = Some df -> r ∈ df ->
          exists r0, r0 ∈ initial_snapshot Z.le Fixture.ramp_fit Fixture.long_spectrum
            /\ eigs r = eigs r0 /\ steps r = steps r0)
    /\ (forall k df i r, trims !! S k = Some df -> df !! i = Some r ->
          unfolded r = (Fixture.ramp_fit (eigs <$> df) i).1
          /\ sqe r = ((unfolded r - (Fixture.ramp_fit (eigs <$> df) i).2) ^ 2)%Q).
Proof.
  destruct Fixture.snaps as [trims|e] eqn:Hsnaps;
    [|vm_compute in Hsnaps; discriminate Hsnaps].
  exists trims. split; [reflexivity|].
  exact (trim_snapshots_columns Z.le Fixture.flag_first Fixture.ramp_fit (-1) (-1)
           Fixture.long_spectrum (1 # 10) (1 # 2) 7 trims Hsnaps).
Defined.

Lemma trim_no_iteration_witness :
  get_trim_iters Z.le Fixture.flag_first Fixture.ramp_fit (-1) (-1)
    Fixture.spectrum (1 # 10) 1 7
  = Ok [initial_snapshot Z.le Fixture.ramp_fit Fixture.spectrum].
Proof.
  apply (trim_no_iteration Z.le Fixture.flag_first Fixture.ramp_fit (-1) (-1)
           Fixture.spectrum (1 # 10) 1 7).
  - discriminate.
  - right. apply Qle_refl.
Defined.

Lemma unfold_across_trims_row_alone_witness :
  exists trims report unfolds trim alone,
    Fixture.snaps = Ok trims
    /\ unfold_across_trims Fixture.names Fixture.fits (-1) (-1)
         Fixture.junk Fixture.long_spectrum trims Fixture.options
       = Ok (report, unfolds)
    /\ trims !! 2%nat = Some trim
    /\ unfold_across_trims Fixture.names Fixture.fits (-1) (-1)
         Mismatch.noise Fixture.long_spectrum [trim] Fixture.options
       = Ok (alone, Fixture.fits (eigs <$> trim) Fixture.options)
    /\ forall k,
         (k < 3 * length (Fixture.fits (eigs <$> trim) Fixture.options) + 3)%nat ->
         cell_at (data report) 2 k = cell_at (data alone) 0 k.
Proof.
  destruct Fixture.snaps as [trims|e] eqn:Hsnaps;
    [|vm_compute in Hsnaps; discriminate Hsnaps].
  destruct (unfold_across_trims Fixture.names Fixture.fits (-1) (-1)
              Fixture.junk Fixture.long_spectrum trims Fixture.options)
    as [[report unfolds]|e] eqn:Hreport;
    [|exfalso; snaps_value Hsnaps; vm_compute in Hreport; discriminate Hreport].
  destruct (trims !! 2%nat) as [trim|] eqn:Htrim;
    [|exfalso; snaps_value Hsnaps; vm_compute in Htrim; discriminate Htrim].
  destruct (unfold_across_trims_row_alone Fixture.names Fixture.fits (-1) (-1)
              Fixture.junk Mismatch.noise Fixture.long_spectrum trims Fixture.options
              report unfolds 2%nat trim Hreport Htrim)
    as (alone & Halone & _ & Hcells).
  exists trims, report, unfolds, trim, alone.
  split; [reflexivity|]. split; [exact Hreport|]. split; [exact Htrim|].
  split; [exact Halone | exact Hcells].
Defined.

Lemma unfold_across_trims_junk_witness :
  exists trims report unfolds,
    Fixture.snaps = Ok trims
    /\ unfold_across_trims Fixture.names Mismatch.two_fits (-1) (-1)
         Mismatch.noise Fixture.long_spectrum trims Fixture.options
       = Ok (report, unfolds)
    /\ cell_at (data report) 2 9 = Some (Mismatch.noise 2 9).
Proof.
  destruct Fixture.snaps as [trims|e] eqn:Hsnaps;
    [|vm_compute in Hsnaps; discriminate Hsnaps].
  destruct (unfold_across_trims Fixture.names Mismatch.two_fits (-1) (-1)
              Mismatch.noise Fixture.long_spectrum trims Fixture.options)
    as [[report unfolds]|e] eqn:Hreport.
  - exists trims, report, unfolds. split; [reflexivity|]. split; [exact Hreport|].
    destruct (trims !! 2%nat) as [trim|] eqn:Htrim;
      [|exfalso; snaps_value Hsnaps; vm_compute in Htrim; discriminate Htrim].
    apply (unfold_across_trims_junk Fixture.names Mismatch.two_fits (-1) (-1)
             Mismatch.noise Fixture.long_spectrum trims Fixture.options
             report unfolds Hreport 2%nat trim 9%nat Htrim).
    + simpl. lia.
    + simpl. lia.
  - exfalso. snaps_value Hsnaps. vm_compute in Hreport. discriminate Hreport.
Defined.

Lemma unfold_across_trims_overflow_witness :
  unfold_across_trims Mismatch.two_names Fixture.fits (-1) (-1) Fixture.junk
    Fixture.spectrum [initial_snapshot Z.le Fixture.ramp_fit Fixture.spectrum]
    Fixture.options
  = Raise IndexError.
Proof.
  apply (unfold_across_trims_overflow Mismatch.two_names Fixture.fits (-1) (-1)
           Fixture.junk Fixture.spectrum
           [initial_snapshot Z.le Fixture.ramp_fit Fixture.spectrum] Fixture.options).
  - discriminate.
  - apply Forall_singleton. discriminate.
  - apply Exists_cons_hd. simpl. lia.
Defined.

Lemma TrimReport_init_returns_witness :
  exists report,
    TrimReport_init Z.le Fixture.flag_first Fixture.ramp_fit
      Fixture.names Fixture.fits (-1) (-1) Fixture.junk
      [3; 4] [1%Q] [3] [20; 1; 9; 2; 7; 3; 12; 4] (1 # 2) 7 (1 # 10) = Ok report.
Proof.
  apply (TrimReport_init_returns Z.le Fixture.flag_first Fixture.ramp_fit
           Fixture.names Fixture.fits (-1) (-1) Fixture.junk
           [3; 4] [1%Q] [3] [20; 1; 9; 2; 7; 3; 12; 4] (1 # 2) 7 (1 # 10)).
  - discriminate.
  - lia.
  - intros es options. simpl. lia.
Defined.

Lemma compare_trim_unfolds_defaults_witness :
  exists self,
    TrimReport_init Z.le Fixture.flag_first Fixture.ramp_fit
      Fixture.names Fixture.fits (-1) (-1) Fixture.junk
      [3; 4] [1%Q] [3] Fixture.long_spectrum (1 # 2) 7 (1 # 10) = Ok self
    /\ compare_trim_unfolds Fixture.names Fixture.fits (-1) (-1) Mismatch.noise
         self (mk_options [3; 4] [1%Q] [3] true)
       = Ok (self, unfold_info self).
Proof.
  destruct (TrimReport_init Z.le Fixture.flag_first Fixture.ramp_fit
              Fixture.names Fixture.fits (-1) (-1) Fixture.junk
              [3; 4] [1%Q] [3] Fixture.long_spectrum (1 # 2) 7 (1 # 10))
    as [self|e] eqn:Hself; [|vm_compute in Hself; discriminate Hself].
  exists self. split; [reflexivity|].
  apply (compare_trim_unfolds_defaults Z.le Fixture.flag_first Fixture.ramp_fit
           Fixture.names Fixture.fits (-1) (-1) [3; 4] [1%Q] [3]
           Fixture.junk Mismatch.noise Fixture.long_spectrum (1 # 2) 7 (1 # 10)
           self Hself).
  apply Forall_forall. intros trim _. reflexivity.
Defined.

Lemma trim_steps_window_witness :
  exists self df before after,
    TrimReport_init Z.le Fixture.flag_first Fixture.ramp_fit
      Fixture.names Fixture.fits (-1) (-1) Fixture.junk
      [3; 4] [1%Q] [3] [20; 1; 9; 2; 7; 3; 12; 4] (1 # 2) 7 (1 # 10) = Ok self
    /\ _trim_steps self !! 3%nat = Some df
    /\ untrimmed self = before ++ (eigs <$> df) ++ after.
Proof.
  destruct (TrimReport_init Z.le Fixture.flag_first Fixture.ramp_fit
              Fixture.names Fixture.fits (-1) (-1) Fixture.junk
              [3; 4] [1%Q] [3] [20; 1; 9; 2; 7; 3; 12; 4] (1 # 2) 7 (1 # 10))
    as [self|e] eqn:Hself; [|vm_compute in Hself; discriminate Hself].
  destruct (_trim_steps self !! 3%nat) as [df|] eqn:Hdf;
    [|exfalso; snaps_value Hself; vm_compute in Hdf; discriminate Hdf].
  destruct (trim_steps_window Z.le Fixture.flag_first Fixture.ramp_fit
              Fixture.names Fixture.fits (-1) (-1) Fixture.junk [3; 4] [1%Q] [3]
              [20; 1; 9; 2; 7; 3; 12; 4] (1 # 2) 7 (1 # 10) self Hself 3%nat df Hdf)
    as (before & after & Hwindow).
  exists self, df, before, after.
  split; [reflexivity|]. split; [exact Hdf | exact Hwindow].
Defined.

Lemma unfoldings_of_last_snapshot_witness :
  exists self final,
    TrimReport_init Z.le Fixture.flag_first Fixture.ramp_fit
      Fixture.names Fixture.fits (-1) (-1) Fixture.junk
      [3; 4] [1%Q] [3] Fixture.long_spectrum (1 # 2) 7 (1 # 10) = Ok self
    /\ last (_trim_steps self) = Some final
    /\ unfoldings self = Fixture.fits (eigs <$> final) (mk_options [3; 4] [1%Q] [3] true).
Proof.
  destruct (TrimReport_init Z.le Fixture.flag_first Fixture.ramp_fit
              Fixture.names Fixture.fits (-1) (-1) Fixture.junk
              [3; 4] [1%Q] [3] Fixture.long_spectrum (1 # 2) 7 (1 # 10))
    as [self|e] eqn:Hself; [|vm_compute in Hself; discriminate Hself].
  destruct (unfoldings_of_last_snapshot Z.le Fixture.flag_first Fixture.ramp_fit
              Fixture.names Fixture.fits (-1) (-1) Fixture.junk [3; 4] [1%Q] [3]
              Fixture.long_spectrum (1 # 2) 7 (1 # 10) self Hself)
    as (final & Hlast & Hunfoldings).
  exists self, final. split; [reflexivity|]. split; [exact Hlast | exact Hunfoldings].
Defined.

Lemma report_percent_lags_witness :
  exists self prev df percent,
    TrimReport_init Z.le Fixture.flag_first Fixture.ramp_fit
      Fixture.names Fixture.fits (-1) (-1) Fixture.junk
      [3; 4] [1%Q] [3] Fixture.long_spectrum (1 # 2) 7 (1 # 10) = Ok self
    /\ _trim_steps self !! 0%nat = Some prev
    /\ _trim_steps self !! 1%nat = Some df
    /\ has_outlier df
    /\ length df = length (untrimmed self)
    /\ cell_at (data (unfold_info self)) 1 0 = Some (Some percent)
    /\ (percent == 0)%Q.
Proof.
  destruct (TrimReport_init Z.le Fixture.flag_first Fixture.ramp_fit
              Fixture.names Fixture.fits (-1) (-1) Fixture.junk
              [3; 4] [1%Q] [3] Fixture.long_spectrum (1 # 2) 7 (1 # 10))
    as [self|e] eqn:Hself; [|vm_compute in Hself; discriminate Hself].
  destruct (_trim_steps self !! 0%nat) as [prev|] eqn:Hprev;
    [|exfalso; snaps_value Hself; vm_compute in Hprev; discriminate Hprev].
  destruct (_trim_steps self !! 1%nat) as [df|] eqn:Hdf;
    [|exfalso; snaps_value Hself; vm_compute in Hdf; discriminate Hdf].
  destruct (report_percent_lags Z.le Fixture.flag_first Fixture.ramp_fit
              Fixture.names Fixture.fits (-1) (-1) Fixture.junk [3; 4] [1%Q] [3]
              Fixture.long_spectrum (1 # 2) 7 (1 # 10) self Hself 0%nat prev df
              Hprev Hdf) as (Hrows & Hwhole & Hzero).
  destruct (Hzero (Hwhole eq_refl)) as (percent & Hcell & Hpercent).
  exists self, prev, df, percent.
  split; [reflexivity|]. split; [exact Hprev|]. split; [exact Hdf|].
  split; [|split; [|split; [exact Hcell | exact Hpercent]]].
  - snaps_value Hself. vm_compute in Hdf. injection Hdf as <-.
    unfold has_outlier, labels. apply list_elem_of_fmap.
    eexists. split; [|left]. reflexivity.
  - rewrite Hrows. exact (Hwhole eq_refl).
Defined.

Lemma evaluate_unfolding_nan_witness :
  (evaluate_unfolding [3%Q]).1.1 = None
  /\ exists mean, evaluate_unfolding [3; 5]%Q = (Some mean, None, None).
Proof.
  split.
  - pose proof (evaluate_unfolding_nan [3%Q]) as Hnan.
    destruct (evaluate_unfolding [3%Q]) as [[mean var] score].
    apply (proj1 Hnan). simpl. lia.
  - pose proof (evaluate_unfolding_nan [3; 5]%Q) as Hnan.
    destruct (evaluate_unfolding [3; 5]%Q) as [[mean var] score] eqn:Hvalue.
    destruct (proj2 Hnan) as [-> ->]; [simpl; lia|].
    destruct mean as [mean|]; [by exists mean|].
    vm_compute in Hvalue. discriminate Hvalue.
Defined.

Lemma summarize_best_unfoldeds_witness :
  exists report unfolds best_smoothers best_unfoldeds consistent,
    Fixture.report = Ok (report, unfolds)
    /\ summarize_trim_unfoldings insertion_argsort insertion_argsort report unfolds
       = Ok (best_smoothers, best_unfoldeds, consistent)
    /\ (length best_unfoldeds <= 3)%nat
    /\ forall i c, best_unfoldeds !! i = Some c ->
         c ∈ unfolds
         /\ exists e col v,
              best_smoothers !! (2 * i + 1)%nat = Some (key_int i, e)
              /\ last e = Some (col, v)
              /\ c.1 = py_replace "--score" "" col.
Proof.
  destruct Fixture.report as [[report unfolds]|e] eqn:Hreport;
    [|vm_compute in Hreport; discriminate Hreport].
  destruct (summarize_trim_unfoldings insertion_argsort insertion_argsort report unfolds)
    as [[[bs bu] cons]|e] eqn:Hsum.
  - exists report, unfolds, bs, bu, cons.
    split; [reflexivity|]. split; [exact Hsum|].
    exact (summarize_best_unfoldeds insertion_argsort insertion_argsort
             report unfolds bs bu cons Hsum).
  - exfalso. by_value Hreport. vm_compute in Hsum. discriminate Hsum.
Defined.

Lemma summarize_ranks_witness :
  exists trims report unfolds best_smoothers best_unfoldeds consistent name e,
    Fixture.snaps = Ok trims
    /\ unfold_across_trims Mismatch.two_names Mismatch.two_fits (-1) (-1)
         Fixture.junk Fixture.long_spectrum trims Fixture.options
       = Ok (report, unfolds)
    /\ summarize_trim_unfoldings insertion_argsort insertion_argsort report unfolds
       = Ok (best_smoothers, best_unfoldeds, consistent)
    /\ length best_smoothers = 4%nat
    /\ length best_unfoldeds = 2%nat
    /\ rank_name 1 = Some name
    /\ best_smoothers !! 2%nat = Some (key_str name, e)
    /\ best_smoothers !! 3%nat = Some (key_int 1, e).
Proof.
  destruct Fixture.snaps as [trims|e] eqn:Hsnaps;
    [|vm_compute in Hsnaps; discriminate Hsnaps].
  destruct (unfold_across_trims Mismatch.two_names Mismatch.two_fits (-1) (-1)
              Fixture.junk Fixture.long_spectrum trims Fixture.options)
    as [[report unfolds]|e] eqn:Hreport;
    [|exfalso; snaps_value Hsnaps; vm_compute in Hreport; discriminate Hreport].
  destruct (summarize_trim_unfoldings insertion_argsort insertion_argsort report unfolds)
    as [[[bs bu] cons]|e] eqn:Hsum.
  - assert (Hdistinct : NoDup (columns report)).
    { snaps_value Hsnaps. by_value Hreport.
      apply (bool_decide_unpack _). vm_compute. exact I. }
    assert (Htwo : length (score_columns report) = 2%nat).
    { snaps_value Hsnaps. by_value Hreport. vm_compute. reflexivity. }
    pose proof (summarize_ranks insertion_argsort insertion_argsort
                  insertion_argsort_ok report Hdistinct unfolds bs bu cons Hsum)
      as Hranks.
    cbv zeta in Hranks. rewrite Htwo in Hranks.
    destruct Hranks as (Hbs & Hbu & Hrank).
    destruct (Hrank 1%nat) as (name & entry & Hname & H2 & H3); [simpl; lia|].
    exists trims, report, unfolds, bs, bu, cons, name, entry.
    split; [reflexivity|]. split; [exact Hreport|]. split; [exact Hsum|].
    split; [exact Hbs|]. split; [exact Hbu|]. split; [exact Hname|].
    split; [exact H2 | exact H3].
  - exfalso. snaps_value Hsnaps. by_value Hreport. vm_compute in Hsum. discriminate Hsum.
Defined.

Lemma summarize_entry_row_witness :
  exists report unfolds best_smoothers best_unfoldeds consistent e r row,
    Fixture.report = Ok (report, unfolds)
    /\ summarize_trim_unfoldings insertion_argsort insertion_argsort report unfolds
       = Ok (best_smoothers, best_unfoldeds, consistent)
    /\ best_smoothers !! 1%nat = Some (key_int 0, e)
    /\ data report !! r = Some row
    /\ e !! 0%nat = Some ("trim_percent"%string, value_at row 0).
Proof.
  destruct Fixture.report as [[report unfolds]|e] eqn:Hreport;
    [|vm_compute in Hreport; discriminate Hreport].
  destruct (summarize_trim_unfoldings insertion_argsort insertion_argsort report unfolds)
    as [[[bs bu] cons]|e] eqn:Hsum;
    [|exfalso; by_value Hreport; vm_compute in Hsum; discriminate Hsum].
  destruct (bs !! 1%nat) as [[key e]|] eqn:He;
    [|exfalso; by_value Hreport; vm_compute in Hsum; injection Hsum as <- _ _;
      vm_compute in He; discriminate He].
  assert (Hkey : key = key_int 0).
  { by_value Hreport. vm_compute in Hsum. injection Hsum as <- _ _.
    vm_compute in He. by injection He as <- _. }
  subst key.
  destruct (summarize_entry_row insertion_argsort insertion_argsort report
              unfolds bs bu cons Hsum 0%nat e He) as (r & row & col & Hrow & Hfields).
  apply Forall2_cons_inv_l in Hfields as ([name v] & rest & [Hname (k & Hk & Hv)] & _ & ->).
  simpl in Hname, Hv. subst name.
  assert (k = 0%nat) as ->.
  { by_value Hreport. clear -Hk. destruct k as [|k]; [done|].
    exfalso. do 15 (destruct k as [|k]; [vm_compute in Hk; discriminate Hk|]).
    vm_compute in Hk. discriminate Hk. }
  exists report, unfolds, bs, bu, cons, ((("trim_percent"%string, v)) :: rest), r, row.
  split; [reflexivity|]. split; [exact Hsum|]. split; [exact He|].
  split; [exact Hrow|]. simpl. by rewrite Hv.
Defined.

Lemma trim_log_counts_rows_witness :
  exists trims entries e,
    Fixture.snaps = Ok trims
    /\ log_lines Fixture.long_spectrum 0 trims = Ok entries
    /\ length entries = (length trims - 1)%nat
    /\ entries !! 0%nat = Some e
    /\ log_iteration e = 1%nat
    /\ (log_trim_percent e == 0)%Q.
Proof.
  destruct Fixture.snaps as [trims|e] eqn:Hsnaps;
    [|vm_compute in Hsnaps; discriminate Hsnaps].
  destruct (log_lines Fixture.long_spectrum 0 trims) as [entries|e] eqn:Hlog;
    [|exfalso; snaps_value Hsnaps; vm_compute in Hlog; discriminate Hlog].
  destruct (entries !! 0%nat) as [e|] eqn:He;
    [|exfalso; snaps_value Hsnaps; vm_compute in Hlog; injection Hlog as <-;
      vm_compute in He; discriminate He].
  destruct (trim_log_counts_rows Z.le Fixture.flag_first Fixture.ramp_fit (-1) (-1)
              Fixture.long_spectrum (1 # 10) (1 # 2) 7 trims entries Hsnaps Hlog)
    as [Hlen Hrows].
  destruct (Hrows 0%nat e He) as (prev & _ & Hiter & _ & Hzero).
  exists trims, entries, e. auto 10.
Defined.

Lemma trim_log_indices_witness :
  exists trims entries e df,
    Fixture.snaps = Ok trims
    /\ log_lines Fixture.long_spectrum 0 trims = Ok entries
    /\ entries !! 2%nat = Some e /\ trims !! 3%nat = Some df
    /\ (log_first_index e <= log_last_index e)%nat
    /\ eigs <$> df
       = take (S (log_last_index e) - log_first_index e)
              (drop (log_first_index e) Fixture.long_spectrum).
Proof.
  destruct Fixture.snaps as [trims|e] eqn:Hsnaps;
    [|vm_compute in Hsnaps; discriminate Hsnaps].
  destruct (log_lines Fixture.long_spectrum 0 trims) as [entries|e] eqn:Hlog;
    [|exfalso; snaps_value Hsnaps; vm_compute in Hlog; discriminate Hlog].
  destruct (entries !! 2%nat) as [e|] eqn:He;
    [|exfalso; snaps_value Hsnaps; vm_compute in Hlog; injection Hlog as <-;
      vm_compute in He; discriminate He].
  destruct (trims !! 3%nat) as [df|] eqn:Hdf;
    [|exfalso; snaps_value Hsnaps; vm_compute in Hdf; discriminate Hdf].
  assert (Hdistinct : NoDup Fixture.long_spectrum)
    by (apply (bool_decide_unpack _); vm_compute; exact I).
  destruct (trim_log_indices Z.le Fixture.flag_first Fixture.ramp_fit (-1) (-1)
              Fixture.long_spectrum (1 # 10) (1 # 2) 7 trims entries
              Hdistinct Hsnaps Hlog 2%nat e df He Hdf) as [Hle Hwindow].
  exists trims, entries, e, df. auto 10.
Defined.

Lemma trim_log_returns_witness :
  exists self entries,
    TrimReport_init Z.le Fixture.flag_first Fixture.ramp_fit
      Fixture.names Fixture.fits (-1) (-1) Fixture.junk
      [3; 4] [1%Q] [3] Fixture.long_spectrum (1 # 2) 7 (1 # 10) = Ok self
    /\ plot_trim_steps_log self = Ok entries
    /\ length entries = (length (_trim_steps self) - 1)%nat.
Proof.
  destruct (TrimReport_init Z.le Fixture.flag_first Fixture.ramp_fit
              Fixture.names Fixture.fits (-1) (-1) Fixture.junk
              [3; 4] [1%Q] [3] Fixture.long_spectrum (1 # 2) 7 (1 # 10))
    as [self|e] eqn:Hself; [|vm_compute in Hself; discriminate Hself].
  destruct (trim_log_returns Z.le Fixture.flag_first Fixture.ramp_fit
              Fixture.names Fixture.fits (-1) (-1) Fixture.junk [3; 4] [1%Q] [3]
              Fixture.long_spectrum (1 # 2) 7 (1 # 10) self ltac:(lia) Hself)
    as (entries & Hlog & Hlen).
  exists self, entries. split; [reflexivity|]. split; [exact Hlog | exact Hlen].
Defined.
